(** * JIT frame walking and on-stack value recovery (js/src/jit/JitFrames.cpp)

    A shallow embedding of the frame iterator, the invalidation check, the
    GC marking of optimized frames, the baseline exception handler and the
    recover-result cache of the snapshot reader, with the properties the
    design document states about them.

    Addresses, machine words and bytecode offsets are [Z].  Stack memory
    that holds values is a byte-addressed store; frame headers are kept as
    one record per frame address, because the packing of the header words
    is declared in headers that are not part of these sources. *)

From stdpp Require Import base option list gmap.
From Stdlib Require Import ZArith Lia Bool.

#[local] Open Scope Z_scope.

(** ** Frame kinds and layouts *)

Inductive FrameType :=
  | JitFrame_IonJS
  | JitFrame_BaselineJS
  | JitFrame_BaselineStub
  | JitFrame_Entry
  | JitFrame_Rectifier
  | JitFrame_Unwound_BaselineJS
  | JitFrame_Unwound_IonJS
  | JitFrame_Unwound_BaselineStub
  | JitFrame_Unwound_Rectifier
  | JitFrame_Exit
  | JitFrame_Bailout.

#[global] Instance FrameType_eq_dec : EqDecision FrameType.
Proof. solve_decision. Defined.

Inductive ExecutionMode := SequentialExecution | ParallelExecution.

#[global] Instance ExecutionMode_eq_dec : EqDecision ExecutionMode.
Proof. solve_decision. Defined.

(** The fixed header sizes [XLayout::Size()] and the predicate
    [isFakeExitFrame] are declared outside these sources, as are the two
    constants of the baseline frame: they are taken as parameters.  [isFakeExitFrame] receives the iterator's
    type and the predecessor type stored in the current header. *)
Record Platform := {
  EntryFrameLayout_Size : Z;
  JitFrameLayout_Size : Z;
  BaselineStubFrameLayout_Size : Z;
  RectifierFrameLayout_Size : Z;
  IonUnwoundRectifierFrameLayout_Size : Z;
  ExitFrameLayout_Size : Z;
  BaselineFrame_FramePointerOffset : Z;
  BaselineFrame_Size : Z;
  isFakeExitFrame : FrameType -> FrameType -> bool
}.

(** [SizeOfFramePrefix]; [None] is the [MOZ_CRASH] of the default case. *)
Definition SizeOfFramePrefix (P : Platform) (type : FrameType) : option Z :=
  match type with
  | JitFrame_Entry => Some (EntryFrameLayout_Size P)
  | JitFrame_BaselineJS
  | JitFrame_IonJS
  | JitFrame_Bailout
  | JitFrame_Unwound_BaselineJS
  | JitFrame_Unwound_IonJS => Some (JitFrameLayout_Size P)
  | JitFrame_BaselineStub => Some (BaselineStubFrameLayout_Size P)
  | JitFrame_Rectifier => Some (RectifierFrameLayout_Size P)
  | JitFrame_Unwound_Rectifier => Some (IonUnwoundRectifierFrameLayout_Size P)
  | JitFrame_Exit => Some (ExitFrameLayout_Size P)
  | JitFrame_Unwound_BaselineStub => None
  end.

(** ** Frame headers, callee tokens and the heap *)

Inductive CalleeToken :=
  | CalleeToken_Function (fn : Z)
  | CalleeToken_FunctionConstructing (fn : Z)
  | CalleeToken_Script (script : Z).

(** The header of a frame: return address, the two fields of the descriptor
    (predecessor type and size of the predecessor's locals) and, for
    scripted frames, the callee token and the number of actual arguments. *)
Record FrameHeader := {
  returnAddress : Z;
  prevType : FrameType;
  prevFrameLocalSize : Z;
  calleeToken : CalleeToken;
  numActualArgs : Z
}.

Definition changePrevType (h : FrameHeader) (t : FrameType) : FrameHeader :=
  {| returnAddress := returnAddress h;
     prevType := t;
     prevFrameLocalSize := prevFrameLocalSize h;
     calleeToken := calleeToken h;
     numActualArgs := numActualArgs h |}.

Definition replaceCalleeToken (h : FrameHeader) (t : CalleeToken) : FrameHeader :=
  {| returnAddress := returnAddress h;
     prevType := prevType h;
     prevFrameLocalSize := prevFrameLocalSize h;
     calleeToken := t;
     numActualArgs := numActualArgs h |}.

Abbreviation Stack := (gmap Z FrameHeader).

Inductive LAllocation :=
  | LGeneralReg (reg : Z)
  | LStackSlot (slot : Z)
  | LArgument (index : Z).

(** One decoded safepoint: the register sets are bit masks over register
    codes, the slot lists are in the order the reader yields them. *)
Record Safepoint := {
  allGprSpills : Z;
  gcSpills : Z;
  valueSpills : Z;
  gcSlots : list Z;
  valueSlots : list Z;
  nunboxSlots : list (LAllocation * LAllocation)
}.


(** What [activation_->bailoutData()] exposes to the iterator. *)
Record BailoutFrameInfo := {
  bailout_fp : Z;
  bailout_topFrameSize : Z;
  bailout_ionScript : Z;
  (** general registers of [bailoutData()->machineState()]: code and the
      address the register was saved at *)
  bailout_machineState : list (Z * Z)
}.

Record JitFrameIterator := {
  current_ : Z;
  type_ : FrameType;
  returnAddressToFp_ : Z;
  frameSize_ : Z;
  mode_ : ExecutionMode;
  cachedSafepointIndex_ : option Safepoint;
  bailoutData : option BailoutFrameInfo
}.

Definition fp (it : JitFrameIterator) : Z := current_ it.
Definition isEntry (it : JitFrameIterator) : bool := bool_decide (type_ it = JitFrame_Entry).
Definition isIonJS (it : JitFrameIterator) : bool := bool_decide (type_ it = JitFrame_IonJS).
Definition isBaselineJS (it : JitFrameIterator) : bool :=
  bool_decide (type_ it = JitFrame_BaselineJS).
Definition isBailoutJS (it : JitFrameIterator) : bool :=
  bool_decide (type_ it = JitFrame_Bailout).
Definition isScripted (it : JitFrameIterator) : bool :=
  isBaselineJS it || isIonJS it || isBailoutJS it.

(** The two constructors that start from a context or an activation: the
    mode comes from [isForkJoinContext], the position from [jitTop] unless a
    bailout is in progress. *)
Definition JitFrameIterator_new (isForkJoinContext : bool) (jitTop : Z)
    (bd : option BailoutFrameInfo) : JitFrameIterator :=
  let mode := if isForkJoinContext then ParallelExecution else SequentialExecution in
  match bd with
  | Some b =>
      {| current_ := bailout_fp b; type_ := JitFrame_Bailout;
         returnAddressToFp_ := 0; frameSize_ := bailout_topFrameSize b;
         mode_ := mode; cachedSafepointIndex_ := None; bailoutData := bd |}
  | None =>
      {| current_ := jitTop; type_ := JitFrame_Exit;
         returnAddressToFp_ := 0; frameSize_ := 0;
         mode_ := mode; cachedSafepointIndex_ := None; bailoutData := bd |}
  end.

(** ** Stepping to the caller *)

(** [prevFp], with the header of the current frame already read. *)
Definition prevFp (P : Platform) (it : JitFrameIterator) (h : FrameHeader) : option Z :=
  currentSize ← SizeOfFramePrefix P (type_ it);
  currentSize' ←
    (if isFakeExitFrame P (type_ it) (prevType h)
     then SizeOfFramePrefix P JitFrame_IonJS
     else Some currentSize);
  Some (current_ it + (currentSize' + prevFrameLocalSize h)).

(** [operator++].  [None] stands for a crash: no header at the current
    address, or a frame type [SizeOfFramePrefix] does not know. *)
Definition operator_incr (P : Platform) (stack : Stack) (it : JitFrameIterator)
    : option JitFrameIterator :=
  h ← stack !! current_ it;
  if decide (prevType h = JitFrame_Entry) then
    Some {| current_ := current_ it; type_ := JitFrame_Entry;
            returnAddressToFp_ := returnAddressToFp_ it;
            frameSize_ := prevFrameLocalSize h;
            mode_ := mode_ it; cachedSafepointIndex_ := None;
            bailoutData := bailoutData it |}
  else
    prev ← prevFp P it h;
    let t :=
      match prevType h with
      | JitFrame_Unwound_IonJS => JitFrame_IonJS
      | JitFrame_Unwound_BaselineJS => JitFrame_BaselineJS
      | JitFrame_Unwound_BaselineStub => JitFrame_BaselineStub
      | t => t
      end in
    Some {| current_ := prev; type_ := t;
            returnAddressToFp_ := returnAddress h;
            frameSize_ := prevFrameLocalSize h;
            mode_ := mode_ it; cachedSafepointIndex_ := None;
            bailoutData := bailoutData it |}.

(** [EnsureExitFrame]: rewrite the stored predecessor type of a frame that
    has been left so that it reads as an exit frame. *)
Definition EnsureExitFrame (h : FrameHeader) : FrameHeader :=
  match prevType h with
  | JitFrame_Unwound_IonJS
  | JitFrame_Unwound_BaselineJS
  | JitFrame_Unwound_BaselineStub
  | JitFrame_Unwound_Rectifier => h
  | JitFrame_Entry => h
  | JitFrame_Rectifier => changePrevType h JitFrame_Unwound_Rectifier
  | JitFrame_BaselineStub => changePrevType h JitFrame_Unwound_BaselineStub
  | JitFrame_BaselineJS => changePrevType h JitFrame_Unwound_BaselineJS
  | _ => changePrevType h JitFrame_Unwound_IonJS
  end.

(** ** Scripts and compiled artifacts *)

Inductive JSTryNoteKind := JSTRY_CATCH | JSTRY_FINALLY | JSTRY_ITER | JSTRY_LOOP.

Record JSTryNote := {
  tn_kind : JSTryNoteKind;
  tn_stackDepth : Z;
  tn_start : Z;
  tn_length : Z
}.

(** The part of a baseline artifact the walker consults.  The lookups by
    return address and by bytecode position are implemented outside these
    sources (only their declarations are at hand) and are taken as given
    functions of the artifact. *)
Record BaselineScript := {
  prologueEntryAddr : Z;
  postDebugPrologueAddr : Z;
  maybeICEntryFromReturnAddress : Z -> option Z;   (* the pc of the entry found *)
  pcForReturnAddress : Z -> Z;
  maybeNativeCodeForPC : Z -> Z
}.

(** [nativeCodeForPC] is [maybeNativeCodeForPC] plus a debug assertion. *)
Definition nativeCodeForPC (b : BaselineScript) (pc : Z) : Z := maybeNativeCodeForPC b pc.

Record JSScript := {
  script_code : Z;
  script_main : Z;
  nfixed : Z;
  trynotes : option (list JSTryNote);
  warmUpCounter : Z;
  ion : option Z;
  parallelIon : option Z;
  baseline : option BaselineScript
}.

Definition hasIonScript (s : JSScript) : bool := bool_decide (is_Some (ion s)).

Record IonScript := {
  method_raw : Z;
  instructionsSize : Z;
  ion_frameSize : Z;
  safepointIndices : list (Z * Safepoint);
  invalidationCount : Z
}.

(** Modelled from the spec: [IonScript::containsReturnAddress] is declared
    outside these sources; a native code object "has a raw start address and
    an instruction length" and answers whether an address falls inside it.
    The bounds are those of the sibling [BaselineScript::containsCodeAddress]. *)
Definition containsReturnAddress (s : IonScript) (addr : Z) : bool :=
  (method_raw s <=? addr) && (addr <=? method_raw s + instructionsSize s).

(** Modelled from the spec: [IonScript::getSafepointIndex] is declared
    outside these sources; the safepoint table is "keyed by return address",
    here by the displacement of the return address in the code.  [None] is
    the crash on a displacement that has no safepoint. *)
Definition getSafepointIndex (s : IonScript) (retAddr : Z) : option Safepoint :=
  snd <$> List.find (fun e => fst e =? retAddr - method_raw s) (safepointIndices s).

Record BaselineDebugModeOSRInfo := { osr_pc : Z }.

(** The side structure of a baseline frame; a null pc is 0. *)
Record BaselineFrame := {
  bf_script : Z;
  unwoundScopeOverridePc : Z;
  debugModeOSRInfo : option BaselineDebugModeOSRInfo;
  numValueSlots : Z;
  bf_isDebuggee : bool;
  bf_hasPushedSPSFrame : bool;
  bf_returnValue : option Z
}.

Record Heap := {
  functionScript : gmap Z Z;
  scripts : gmap Z JSScript;
  ionScripts : gmap Z IonScript;
  baselineFrames : gmap Z BaselineFrame;
  (** [((int32_t * ) addr)[0]] in the instruction stream *)
  code_int32 : Z -> Z;
  (** [Assembler::GetPointer] *)
  Assembler_GetPointer : Z -> Z
}.

Definition ScriptFromCalleeToken (hp : Heap) (t : CalleeToken) : option Z :=
  match t with
  | CalleeToken_Script s => Some s
  | CalleeToken_Function f | CalleeToken_FunctionConstructing f => functionScript hp !! f
  end.

(** [JitFrameIterator::script]: the script pointer, and the script it
    points to. *)
Definition scriptPtr (hp : Heap) (stack : Stack) (it : JitFrameIterator) : option Z :=
  if isBaselineJS it
  then bf_script <$> baselineFrames hp !! fp it
  else h ← stack !! current_ it; ScriptFromCalleeToken hp (calleeToken h).

Definition script (hp : Heap) (stack : Stack) (it : JitFrameIterator) : option JSScript :=
  p ← scriptPtr hp stack it;
  scripts hp !! p.

(** ** The invalidation check *)

(** [checkInvalidation(IonScript ** )]: the returned boolean and what was
    stored through the out-parameter ([None]: nothing was stored). *)
Definition checkInvalidation (hp : Heap) (stack : Stack) (it : JitFrameIterator)
    : option (bool * option Z) :=
  sc ← script hp stack it;
  if isBailoutJS it then
    bd ← bailoutData it;
    let out := bailout_ionScript bd in
    Some (negb (hasIonScript sc) || negb (bool_decide (ion sc = Some out)), Some out)
  else
    let returnAddr := returnAddressToFp_ it in
    invalidated ←
      (if decide (mode_ it = ParallelExecution) then Some false
       else match ion sc with
            | None => Some true
            | Some p => s ← ionScripts hp !! p; Some (negb (containsReturnAddress s returnAddr))
            end);
    if negb invalidated then Some (false, None)
    else
      let invalidationDataOffset := code_int32 hp (returnAddr - 4) in
      let ionScriptDataOffset := returnAddr + invalidationDataOffset in
      Some (true, Some (Assembler_GetPointer hp ionScriptDataOffset)).

Definition ionScriptFromCalleeToken (hp : Heap) (stack : Stack) (it : JitFrameIterator)
    : option Z :=
  sc ← script hp stack it;
  match mode_ it with
  | SequentialExecution => ion sc
  | ParallelExecution => parallelIon sc
  end.

(** [JitFrameIterator::ionScript] *)
Definition ionScript (hp : Heap) (stack : Stack) (it : JitFrameIterator) : option Z :=
  if isBailoutJS it then bailout_ionScript <$> bailoutData it
  else
    r ← checkInvalidation hp stack it;
    match r with
    | (true, out) => out
    | (false, _) => ionScriptFromCalleeToken hp stack it
    end.

(** ** Byte-addressed stack memory (32-bit, little-endian target) *)

Definition Mem := Z -> Z.

Definition load8 (m : Mem) (a : Z) : Z := Z.land (m a) 255.

Definition store8 (m : Mem) (a v : Z) : Mem :=
  fun x => if decide (x = a) then Z.land v 255 else m x.

Definition load32 (m : Mem) (a : Z) : Z :=
  Z.lor (load8 m a)
    (Z.lor (Z.shiftl (load8 m (a + 1)) 8)
       (Z.lor (Z.shiftl (load8 m (a + 2)) 16) (Z.shiftl (load8 m (a + 3)) 24))).

Definition store32 (m : Mem) (a v : Z) : Mem :=
  store8 (store8 (store8 (store8 m a v) (a + 1) (Z.shiftr v 8))
            (a + 2) (Z.shiftr v 16)) (a + 3) (Z.shiftr v 24).

Definition load64 (m : Mem) (a : Z) : Z :=
  Z.lor (load32 m a) (Z.shiftl (load32 m (a + 4)) 32).

Definition store64 (m : Mem) (a v : Z) : Mem :=
  store32 (store32 m a v) (a + 4) (Z.shiftr v 32).

(** ** Values in the tag/payload pair encoding *)

Record jsval_layout := { s_tag : Z; s_payload : Z }.

(** Modelled from the spec: the value representation is declared outside
    these sources; in the pair encoding a value is "a tag word plus a
    separate payload word", the payload in the low half of the 64 bits. *)
Definition IMPL_TO_JSVAL (l : jsval_layout) : Z :=
  Z.lor (Z.shiftl (s_tag l) 32) (s_payload l).

(** Modelled from the spec: the inverse reading of a value as its tag word
    and its payload word. *)
Definition JSVAL_TO_IMPL (v : Z) : jsval_layout :=
  {| s_tag := Z.land (Z.shiftr v 32) (2 ^ 32 - 1);
     s_payload := Z.land v (2 ^ 32 - 1) |}.

(** ** Tracing *)

(** The collector's side of the marking callbacks: where each kind of root
    is relocated to. *)
Record JSTracer := {
  trace_object : Z -> Z;
  trace_script : Z -> Z;
  trace_gcthing : Z -> Z;
  trace_value : Z -> Z
}.

Inductive TraceEvent :=
  | Ev_CalleeToken (t : CalleeToken)
  | Ev_IonScriptTrace (ionScript : Z)
  | Ev_ValueRoot (addr : Z)
  | Ev_GCThingRoot (addr : Z)
  | Ev_TornValue (v : Z).

Record GCState := {
  gc_stack : Stack;
  gc_mem : Mem;
  gc_log : list TraceEvent
}.

Definition MarkCalleeToken (trc : JSTracer) (token : CalleeToken) : CalleeToken :=
  match token with
  | CalleeToken_Function fn => CalleeToken_Function (trace_object trc fn)
  | CalleeToken_FunctionConstructing fn => CalleeToken_FunctionConstructing (trace_object trc fn)
  | CalleeToken_Script s => CalleeToken_Script (trace_script trc s)
  end.

Definition MarkGCThingRoot (trc : JSTracer) (ref : Z) (st : GCState) : GCState :=
  {| gc_stack := gc_stack st;
     gc_mem := store32 (gc_mem st) ref (trace_gcthing trc (load32 (gc_mem st) ref));
     gc_log := gc_log st ++ [Ev_GCThingRoot ref] |}.

Definition MarkValueRoot (trc : JSTracer) (v : Z) (st : GCState) : GCState :=
  {| gc_stack := gc_stack st;
     gc_mem := store64 (gc_mem st) v (trace_value trc (load64 (gc_mem st) v));
     gc_log := gc_log st ++ [Ev_ValueRoot v] |}.

(** Registers of a set, from the highest code down, as the backward
    iterator over a register mask yields them. *)
Definition regs_backward (mask : Z) : list Z :=
  List.filter (Z.testbit mask) (rev (seqZ 0 32)).

Fixpoint spill_locations (regs : list Z) (spill : Z) : list (Z * Z) :=
  match regs with
  | [] => []
  | r :: rs => (r, spill - 4) :: spill_locations rs (spill - 4)
  end.

Definition jsFrame (it : JitFrameIterator) : option Z :=
  if isBailoutJS it then bailout_fp <$> bailoutData it else Some (fp it).

Definition set_cachedSafepointIndex (it : JitFrameIterator) (si : option Safepoint)
    : JitFrameIterator :=
  {| current_ := current_ it; type_ := type_ it;
     returnAddressToFp_ := returnAddressToFp_ it; frameSize_ := frameSize_ it;
     mode_ := mode_ it; cachedSafepointIndex_ := si; bailoutData := bailoutData it |}.

(** [JitFrameIterator::safepoint]: the safepoint index it returns, and the
    iterator as the call leaves it.  The cache is a mutable member of the
    iterator: an empty cache is filled, a filled one is read. *)
Definition safepoint (hp : Heap) (stack : Stack) (it : JitFrameIterator)
    : option (Safepoint * JitFrameIterator) :=
  match cachedSafepointIndex_ it with
  | Some si => Some (si, it)
  | None =>
      p ← ionScript hp stack it;
      s ← ionScripts hp !! p;
      si ← getSafepointIndex s (returnAddressToFp_ it);
      Some (si, set_cachedSafepointIndex it (Some si))
  end.

Definition spillBase (hp : Heap) (stack : Stack) (it : JitFrameIterator) : option Z :=
  p ← ionScript hp stack it;
  s ← ionScripts hp !! p;
  Some (fp it - ion_frameSize s).

(** The general-register part of [JitFrameIterator::machineState]: where
    each spilled register was saved.  The method is const and returns the
    machine state by value; of its call of [safepoint] the index is used,
    and the cache that call fills holds that same index for later calls. *)
Definition machineState (hp : Heap) (stack : Stack) (it : JitFrameIterator)
    : option (list (Z * Z)) :=
  if isBailoutJS it then bailout_machineState <$> bailoutData it
  else
    sp ← fst <$> safepoint hp stack it;
    spill ← spillBase hp stack it;
    Some (spill_locations (regs_backward (allGprSpills sp)) spill).

Definition regLocation (ms : list (Z * Z)) (reg : Z) : option Z :=
  snd <$> List.find (fun e => fst e =? reg) ms.

(** The address an [LAllocation] of a safepoint denotes in this frame. *)
Definition allocationAddress (P : Platform) (hp : Heap) (stack : Stack)
    (it : JitFrameIterator) (a : LAllocation) : option Z :=
  match a with
  | LGeneralReg reg => ms ← machineState hp stack it; regLocation ms reg
  | LStackSlot slot => f ← jsFrame it; Some (f - slot)
  | LArgument index => f ← jsFrame it; Some (f + JitFrameLayout_Size P + index)
  end.

Definition ReadAllocation (P : Platform) (hp : Heap) (it : JitFrameIterator)
    (st : GCState) (a : LAllocation) : option Z :=
  load32 (gc_mem st) <$> allocationAddress P hp (gc_stack st) it a.

Definition WriteAllocation (P : Platform) (hp : Heap) (it : JitFrameIterator)
    (st : GCState) (a : LAllocation) (value : Z) : option GCState :=
  addr ← allocationAddress P hp (gc_stack st) it a;
  Some {| gc_stack := gc_stack st;
          gc_mem := store32 (gc_mem st) addr value;
          gc_log := gc_log st |}.

(** ** Marking an optimized frame *)

Fixpoint forEachM {A S : Type} (f : S -> A -> option S) (l : list A) (st : S) : option S :=
  match l with
  | [] => Some st
  | x :: xs => st' ← f st x; forEachM f xs st'
  end.

Definition logEvent (e : TraceEvent) (st : GCState) : GCState :=
  {| gc_stack := gc_stack st; gc_mem := gc_mem st; gc_log := gc_log st ++ [e] |}.

(** [MarkFrameAndActualArguments]: the actual arguments and, before them,
    [this]. *)
Definition MarkFrameAndActualArguments (P : Platform) (trc : JSTracer)
    (it : JitFrameIterator) (st : GCState) : option GCState :=
  layout ← jsFrame it;
  h ← gc_stack st !! layout;
  let nargs := numActualArgs h in
  let argv := layout + JitFrameLayout_Size P in
  Some (foldl (fun s i => MarkValueRoot trc (argv + 8 * i) s) st (seqZ 0 (nargs + 1))).

(** The spill area is walked downward from [spillBase], one word per
    register of [allGprSpills]. *)
Fixpoint markSpills (trc : JSTracer) (sp : Safepoint) (regs : list Z) (spill : Z)
    (st : GCState) : GCState :=
  match regs with
  | [] => st
  | r :: rs =>
      let spill := spill - 4 in
      let st' :=
        if Z.testbit (gcSpills sp) r then MarkGCThingRoot trc spill st
        else if Z.testbit (valueSpills sp) r then MarkValueRoot trc spill st
        else st in
      markSpills trc sp rs spill st'
  end.

(** One turn of the loop over torn values: the tag and the payload are read
    from their two locations, the value is handed to the collector, and a
    relocated payload is written back. *)
Definition markNunboxSlot (P : Platform) (hp : Heap) (trc : JSTracer)
    (it : JitFrameIterator) (st : GCState) (tp : LAllocation * LAllocation)
    : option GCState :=
  tag ← ReadAllocation P hp it st (fst tp);
  payload ← ReadAllocation P hp it st (snd tp);
  let layout := {| s_tag := tag; s_payload := payload |} in
  let v := trace_value trc (IMPL_TO_JSVAL layout) in
  let st := logEvent (Ev_TornValue (IMPL_TO_JSVAL layout)) st in
  if decide (v = IMPL_TO_JSVAL layout) then Some st
  else WriteAllocation P hp it st (snd tp) (s_payload (JSVAL_TO_IMPL v)).

(** The part of [MarkIonJSFrame] that follows the choice of the artifact
    and comes before the loop over the torn values: the arguments, the
    slots of the safepoint and the spilled registers.  The result is the
    safepoint of the return address and the state the loop starts in. *)
Definition markSafepointRoots (P : Platform) (hp : Heap) (trc : JSTracer)
    (it : JitFrameIterator) (ionScript : Z) (st : GCState) : option (Safepoint * GCState) :=
  let layout := fp it in
  st ← MarkFrameAndActualArguments P trc it st;
  s ← ionScripts hp !! ionScript;
  sp ← getSafepointIndex s (returnAddressToFp_ it);
  let st := foldl (fun s slot => MarkGCThingRoot trc (layout - slot) s) st (gcSlots sp) in
  let st := foldl (fun s slot => MarkValueRoot trc (layout - slot) s) st (valueSlots sp) in
  spill ← spillBase hp (gc_stack st) it;
  Some (sp, markSpills trc sp (regs_backward (allGprSpills sp)) spill st).

(** [MarkIonJSFrame] up to the loop over the torn values: the callee token,
    the choice of the artifact, and the roots above. *)
Definition MarkIonJSFrame_roots (P : Platform) (hp : Heap) (trc : JSTracer)
    (it : JitFrameIterator) (st : GCState) : option (Safepoint * GCState) :=
  let layout := fp it in
  h ← gc_stack st !! layout;
  let token := MarkCalleeToken trc (calleeToken h) in
  let st := {| gc_stack := <[layout := replaceCalleeToken h token]> (gc_stack st);
               gc_mem := gc_mem st;
               gc_log := gc_log st ++ [Ev_CalleeToken (calleeToken h)] |} in
  r ← checkInvalidation hp (gc_stack st) it;
  match r with
  | (true, out) =>
      ionScript ← out;
      markSafepointRoots P hp trc it ionScript (logEvent (Ev_IonScriptTrace ionScript) st)
  | (false, _) =>
      ionScript ← ionScriptFromCalleeToken hp (gc_stack st) it;
      markSafepointRoots P hp trc it ionScript st
  end.

(** [MarkIonJSFrame]: those roots, then the torn values of the safepoint
    (the part compiled for the tag/payload pair encoding). *)
Definition MarkIonJSFrame (P : Platform) (hp : Heap) (trc : JSTracer)
    (it : JitFrameIterator) (st : GCState) : option GCState :=
  r ← MarkIonJSFrame_roots P hp trc it st;
  forEachM (markNunboxSlot P hp trc it) (nunboxSlots r.1) r.2.

(** ** The bytecode position of a baseline frame *)

(** [baselineScriptAndPc].  [pcRes] tells whether the caller passed a place
    for the pc.  The result is the pc stored through it, if any; the outer
    [None] is a crash (a store through a null [pcRes], a missing frame or
    artifact). *)
Definition baselineScriptAndPc (hp : Heap) (stack : Stack) (it : JitFrameIterator)
    (pcRes : bool) : option (option Z) :=
  sc ← script hp stack it;
  bf ← baselineFrames hp !! fp it;
  if negb (unwoundScopeOverridePc bf =? 0) then
    if pcRes then Some (Some (unwoundScopeOverridePc bf)) else None
  else
    match debugModeOSRInfo bf with
    | Some info => if pcRes then Some (Some (osr_pc info)) else None
    | None =>
        let retAddr := returnAddressToFp_ it in
        if pcRes then
          b ← baseline sc;
          if (retAddr =? prologueEntryAddr b) || (retAddr =? postDebugPrologueAddr b)
          then Some (Some (script_code sc))
          else
            match maybeICEntryFromReturnAddress b retAddr with
            | Some icpc => Some (Some icpc)
            | None => Some (Some (pcForReturnAddress b retAddr))
            end
        else Some None
    end.

(** The order of resolution in the words of the design document: five
    sources tried in a fixed order, the first that answers wins. *)
Fixpoint first_match (candidates : list (option Z)) : option Z :=
  match candidates with
  | [] => None
  | Some pc :: _ => Some pc
  | None :: rest => first_match rest
  end.

Definition pc_resolution_order (sc : JSScript) (b : BaselineScript) (bf : BaselineFrame)
    (retAddr : Z) : list (option Z) :=
  [ (if unwoundScopeOverridePc bf =? 0 then None else Some (unwoundScopeOverridePc bf));
    osr_pc <$> debugModeOSRInfo bf;
    (if (retAddr =? prologueEntryAddr b) || (retAddr =? postDebugPrologueAddr b)
     then Some (script_code sc) else None);
    maybeICEntryFromReturnAddress b retAddr;
    Some (pcForReturnAddress b retAddr) ].

(** ** Exception handling *)

Inductive ResumeKind :=
  | RESUME_ENTRY_FRAME
  | RESUME_CATCH
  | RESUME_FINALLY
  | RESUME_FORCED_RETURN
  | RESUME_BAILOUT.

#[global] Instance ResumeKind_eq_dec : EqDecision ResumeKind.
Proof. solve_decision. Defined.

Record ResumeFromException := {
  rfe_framePointer : Z;
  rfe_stackPointer : Z;
  rfe_target : Z;
  rfe_kind : ResumeKind;
  rfe_exception : Z
}.

Inductive JSTrapStatus := JSTRAP_ERROR | JSTRAP_CONTINUE | JSTRAP_RETURN | JSTRAP_THROW.

(** The state the handlers read and update: the heap (warm-up counters,
    baseline frames, invalidation counts), the frame headers, the pending
    exception of the context, [jitTop], the resume record, and the stack
    addresses of the iterators that were closed. *)
Record Unwind := {
  u_heap : Heap;
  u_stack : Stack;
  u_exceptionPending : bool;
  u_pendingException : Z;
  u_propagatingForcedReturn : bool;
  u_jitTop : Z;
  u_rfe : ResumeFromException;
  u_closedIterators : list Z
}.

(** The constructors and tests of values are declared outside these
    sources; they are taken as given. *)
Record ValueRepr := {
  UndefinedValue : Z;
  NullValue : Z;
  MagicValue_JS_ION_BAILOUT : Z;
  DoubleValue : Z -> Z;
  Float32Value : Z -> Z;
  Int32Value : Z -> Z;
  BooleanValue : bool -> Z;
  StringValue : Z -> Z;
  SymbolValue : Z -> Z;
  ObjectValue : Z -> Z;
  isMarkable : Z -> bool
}.

(** The collaborators of the handlers that live outside these sources.
    The debugger's hooks run debugger code: they are taken as arbitrary
    changes of the state. *)
Record Collaborators := {
  values : ValueRepr;
  compartment_isDebuggee : bool;
  (** whether [cx->getPendingException] succeeds *)
  getPendingException_ok : bool;
  (** [exception.isMagic(JS_GENERATOR_CLOSING)] *)
  isGeneratorClosing : Z -> bool;
  (** [Debugger::onExceptionUnwind(cx, frame)]: the verdict, the state the
      hook leaves (it may recompile baseline scripts that are on the stack
      and patch their return addresses), and the return address the
      iterator holds afterwards: the iterator of [HandleException] is a
      [DebugModeOSRVolatileJitFrameIterator], whose cached return address
      is forwarded when a recompilation patches it *)
  Debugger_onExceptionUnwind : JitFrameIterator -> Unwind -> JSTrapStatus * Unwind * Z;
  (** [jit::DebugEpilogue(cx, frame, pc, ok)]: the result and the state it
      leaves *)
  DebugEpilogue : Z -> Z -> bool -> Unwind -> bool * Unwind;
  UnwindScopeToTryPc : JSScript -> JSTryNote -> Z;
  (** the handling of one optimized frame with all its inlined frames: the
      resume record it leaves (kind [RESUME_BAILOUT] when it bailed out) *)
  HandleExceptionIon_frames : JitFrameIterator -> Unwind -> Unwind
}.

Definition set_rfe (u : Unwind) (r : ResumeFromException) : Unwind :=
  {| u_heap := u_heap u; u_stack := u_stack u;
     u_exceptionPending := u_exceptionPending u;
     u_pendingException := u_pendingException u;
     u_propagatingForcedReturn := u_propagatingForcedReturn u;
     u_jitTop := u_jitTop u; u_rfe := r;
     u_closedIterators := u_closedIterators u |}.

Definition set_heap (u : Unwind) (hp : Heap) : Unwind :=
  {| u_heap := hp; u_stack := u_stack u;
     u_exceptionPending := u_exceptionPending u;
     u_pendingException := u_pendingException u;
     u_propagatingForcedReturn := u_propagatingForcedReturn u;
     u_jitTop := u_jitTop u; u_rfe := u_rfe u;
     u_closedIterators := u_closedIterators u |}.

Definition set_pending (u : Unwind) (pending : bool) (exc : Z) : Unwind :=
  {| u_heap := u_heap u; u_stack := u_stack u;
     u_exceptionPending := pending;
     u_pendingException := exc;
     u_propagatingForcedReturn := u_propagatingForcedReturn u;
     u_jitTop := u_jitTop u; u_rfe := u_rfe u;
     u_closedIterators := u_closedIterators u |}.

Definition clearPropagatingForcedReturn (u : Unwind) : Unwind :=
  {| u_heap := u_heap u; u_stack := u_stack u;
     u_exceptionPending := u_exceptionPending u;
     u_pendingException := u_pendingException u;
     u_propagatingForcedReturn := false;
     u_jitTop := u_jitTop u; u_rfe := u_rfe u;
     u_closedIterators := u_closedIterators u |}.

Definition closeIterator (u : Unwind) (addr : Z) : Unwind :=
  {| u_heap := u_heap u; u_stack := u_stack u;
     u_exceptionPending := u_exceptionPending u;
     u_pendingException := u_pendingException u;
     u_propagatingForcedReturn := u_propagatingForcedReturn u;
     u_jitTop := u_jitTop u; u_rfe := u_rfe u;
     u_closedIterators := u_closedIterators u ++ [addr] |}.

Definition set_stack_jitTop (u : Unwind) (stack : Stack) (top : Z) : Unwind :=
  {| u_heap := u_heap u; u_stack := stack;
     u_exceptionPending := u_exceptionPending u;
     u_pendingException := u_pendingException u;
     u_propagatingForcedReturn := u_propagatingForcedReturn u;
     u_jitTop := top; u_rfe := u_rfe u;
     u_closedIterators := u_closedIterators u |}.

Definition with_scripts (hp : Heap) (s : gmap Z JSScript) : Heap :=
  {| functionScript := functionScript hp; scripts := s;
     ionScripts := ionScripts hp; baselineFrames := baselineFrames hp;
     code_int32 := code_int32 hp; Assembler_GetPointer := Assembler_GetPointer hp |}.

Definition with_baselineFrames (hp : Heap) (b : gmap Z BaselineFrame) : Heap :=
  {| functionScript := functionScript hp; scripts := scripts hp;
     ionScripts := ionScripts hp; baselineFrames := b;
     code_int32 := code_int32 hp; Assembler_GetPointer := Assembler_GetPointer hp |}.

Definition with_ionScripts (hp : Heap) (i : gmap Z IonScript) : Heap :=
  {| functionScript := functionScript hp; scripts := scripts hp;
     ionScripts := i; baselineFrames := baselineFrames hp;
     code_int32 := code_int32 hp; Assembler_GetPointer := Assembler_GetPointer hp |}.

(** Modelled from the spec: [JSScript::resetWarmUpCounter] is declared
    outside these sources; it resets "the script's optimization-eligibility
    counter". *)
Definition resetWarmUpCounter (s : JSScript) : JSScript :=
  {| script_code := script_code s; script_main := script_main s; nfixed := nfixed s;
     trynotes := trynotes s; warmUpCounter := 0; ion := ion s;
     parallelIon := parallelIon s; baseline := baseline s |}.

Definition setReturnValue (v : Z) (bf : BaselineFrame) : BaselineFrame :=
  {| bf_script := bf_script bf; unwoundScopeOverridePc := unwoundScopeOverridePc bf;
     debugModeOSRInfo := debugModeOSRInfo bf; numValueSlots := numValueSlots bf;
     bf_isDebuggee := bf_isDebuggee bf; bf_hasPushedSPSFrame := bf_hasPushedSPSFrame bf;
     bf_returnValue := Some v |}.

Definition setUnwoundScopeOverridePc (pc : Z) (bf : BaselineFrame) : BaselineFrame :=
  {| bf_script := bf_script bf; unwoundScopeOverridePc := pc;
     debugModeOSRInfo := debugModeOSRInfo bf; numValueSlots := numValueSlots bf;
     bf_isDebuggee := bf_isDebuggee bf; bf_hasPushedSPSFrame := bf_hasPushedSPSFrame bf;
     bf_returnValue := bf_returnValue bf |}.

Definition unsetPushedSPSFrame (bf : BaselineFrame) : BaselineFrame :=
  {| bf_script := bf_script bf; unwoundScopeOverridePc := unwoundScopeOverridePc bf;
     debugModeOSRInfo := debugModeOSRInfo bf; numValueSlots := numValueSlots bf;
     bf_isDebuggee := bf_isDebuggee bf; bf_hasPushedSPSFrame := false;
     bf_returnValue := bf_returnValue bf |}.

Definition deleteDebugModeOSRInfo (bf : BaselineFrame) : BaselineFrame :=
  {| bf_script := bf_script bf; unwoundScopeOverridePc := unwoundScopeOverridePc bf;
     debugModeOSRInfo := None; numValueSlots := numValueSlots bf;
     bf_isDebuggee := bf_isDebuggee bf; bf_hasPushedSPSFrame := bf_hasPushedSPSFrame bf;
     bf_returnValue := bf_returnValue bf |}.

Definition decrementInvalidationCount (s : IonScript) : IonScript :=
  {| method_raw := method_raw s; instructionsSize := instructionsSize s;
     ion_frameSize := ion_frameSize s; safepointIndices := safepointIndices s;
     invalidationCount := invalidationCount s - 1 |}.

Definition set_rfe_pointers (r : ResumeFromException) (framePointer stackPointer : Z)
    : ResumeFromException :=
  {| rfe_framePointer := framePointer; rfe_stackPointer := stackPointer;
     rfe_target := rfe_target r; rfe_kind := rfe_kind r;
     rfe_exception := rfe_exception r |}.

Definition set_rfe_resume (r : ResumeFromException) (kind : ResumeKind) (target : Z)
    : ResumeFromException :=
  {| rfe_framePointer := rfe_framePointer r; rfe_stackPointer := rfe_stackPointer r;
     rfe_target := target; rfe_kind := kind;
     rfe_exception := rfe_exception r |}.

Definition set_rfe_exception (r : ResumeFromException) (exc : Z) : ResumeFromException :=
  {| rfe_framePointer := rfe_framePointer r; rfe_stackPointer := rfe_stackPointer r;
     rfe_target := rfe_target r; rfe_kind := rfe_kind r;
     rfe_exception := exc |}.

Definition set_rfe_stackPointer (r : ResumeFromException) (stackPointer : Z)
    : ResumeFromException :=
  {| rfe_framePointer := rfe_framePointer r; rfe_stackPointer := stackPointer;
     rfe_target := rfe_target r; rfe_kind := rfe_kind r;
     rfe_exception := rfe_exception r |}.

Definition set_rfe_kind (r : ResumeFromException) (kind : ResumeKind) : ResumeFromException :=
  {| rfe_framePointer := rfe_framePointer r; rfe_stackPointer := rfe_stackPointer r;
     rfe_target := rfe_target r; rfe_kind := kind;
     rfe_exception := rfe_exception r |}.

Definition set_returnAddressToFp (it : JitFrameIterator) (returnAddr : Z)
    : JitFrameIterator :=
  {| current_ := current_ it; type_ := type_ it;
     returnAddressToFp_ := returnAddr; frameSize_ := frameSize_ it;
     mode_ := mode_ it; cachedSafepointIndex_ := cachedSafepointIndex_ it;
     bailoutData := bailoutData it |}.

(** The calls of the two hooks.  The resume record is a local of the
    caller of [HandleException] that neither hook is handed: it is as it
    was when the hook returns. *)
Definition callDebugEpilogue (C : Collaborators) (it : JitFrameIterator) (pc : Z) (ok : bool)
    (u : Unwind) : bool * Unwind :=
  let '(r, u') := DebugEpilogue C (fp it) pc ok u in
  (r, set_rfe u' (u_rfe u)).

Definition callOnExceptionUnwind (C : Collaborators) (it : JitFrameIterator) (u : Unwind)
    : JSTrapStatus * Unwind * JitFrameIterator :=
  let '(status, u', returnAddr) := Debugger_onExceptionUnwind C it u in
  (status, set_rfe u' (u_rfe u), set_returnAddressToFp it returnAddr).

(** [ForcedReturn]; the boolean is [*calledDebugEpilogue].  The baseline
    frame lies [BaselineFrame::Size()] below the frame pointer. *)
Definition ForcedReturn (P : Platform) (C : Collaborators) (it : JitFrameIterator) (pc : Z)
    (u : Unwind) (calledDebugEpilogue : bool) : Unwind * bool :=
  let '(ok, u) := callDebugEpilogue C it pc true u in
  if ok then
    let framePointer := fp it - BaselineFrame_FramePointerOffset P in
    (set_rfe u
       (set_rfe_pointers (set_rfe_kind (u_rfe u) RESUME_FORCED_RETURN)
          framePointer (framePointer - BaselineFrame_Size P)),
     calledDebugEpilogue)
  else (u, true).

Definition updateBaselineFrame (f : BaselineFrame -> BaselineFrame) (it : JitFrameIterator)
    (u : Unwind) : option Unwind :=
  bf ← baselineFrames (u_heap u) !! fp it;
  Some (set_heap u (with_baselineFrames (u_heap u) (<[fp it := f bf]> (baselineFrames (u_heap u))))).

(** [HandleClosingGeneratorReturn] *)
Definition HandleClosingGeneratorReturn (P : Platform) (C : Collaborators)
    (it : JitFrameIterator) (pc unwoundScopeToPc : Z) (u : Unwind)
    (calledDebugEpilogue : bool) : option (Unwind * bool) :=
  if negb (u_exceptionPending u) then Some (u, calledDebugEpilogue)
  else if negb (getPendingException_ok C) then Some (u, calledDebugEpilogue)
  else if negb (isGeneratorClosing C (u_pendingException u)) then Some (u, calledDebugEpilogue)
  else
    let u := set_pending u false (u_pendingException u) in
    u ← updateBaselineFrame (setReturnValue (UndefinedValue (values C))) it u;
    if negb (unwoundScopeToPc =? 0) then
      bf ← baselineFrames (u_heap u) !! fp it;
      u ← (if bf_isDebuggee bf
           then updateBaselineFrame (setUnwoundScopeOverridePc unwoundScopeToPc) it u
           else Some u);
      Some (ForcedReturn P C it unwoundScopeToPc u calledDebugEpilogue)
    else Some (ForcedReturn P C it pc u calledDebugEpilogue).

Inductive LoopOutcome (A : Type) :=
  | Returned (a : A)
  | Fallthrough (a : A).
Arguments Returned {A} a.
Arguments Fallthrough {A} a.

(** [size_t stackDepth = numValueSlots() - script->nfixed()]: a difference
    of unsigned words of the 32-bit target, which wraps when the assertion
    before it does not hold. *)
Definition frameStackDepth (bf : BaselineFrame) (sc : JSScript) : Z :=
  (numValueSlots bf - nfixed sc) mod 2 ^ 32.

(** [(script->nfixed() + tn->stackDepth) * sizeof(Value)], on unsigned
    words as well. *)
Definition tryNoteStackOffset (sc : JSScript) (tn : JSTryNote) : Z :=
  ((nfixed sc + tn_stackDepth tn) * 8) mod 2 ^ 32.

(** One turn of the loop over the try notes of [HandleExceptionBaseline];
    the second component of the state is [*unwoundScopeToPc].  The offsets
    are 32-bit unsigned.  The scope chain, which [UnwindScope] pops, is not
    part of the state; a closed iterator is recorded by the stack address
    its value was read from. *)
Definition tryNoteStep (P : Platform) (C : Collaborators) (it : JitFrameIterator)
    (scp : Z) (sc : JSScript) (pcOffset : Z) (st : Unwind * Z) (tn : JSTryNote)
    : option (LoopOutcome (Unwind * Z)) :=
  let '(u, unwound) := st in
  if pcOffset <? tn_start tn then Some (Fallthrough st)
  else if (tn_start tn + tn_length tn) mod 2 ^ 32 <=? pcOffset then Some (Fallthrough st)
  else
    bf ← baselineFrames (u_heap u) !! fp it;
    let stackDepth := frameStackDepth bf sc in
    if stackDepth <? tn_stackDepth tn then Some (Fallthrough st)
    else
      let unwound := if u_exceptionPending u then UnwindScopeToTryPc C sc tn else unwound in
      let framePointer := fp it - BaselineFrame_FramePointerOffset P in
      let stackPointer :=
        framePointer - BaselineFrame_Size P - tryNoteStackOffset sc tn in
      let u := set_rfe u (set_rfe_pointers (u_rfe u) framePointer stackPointer) in
      match tn_kind tn with
      | JSTRY_CATCH =>
          if u_exceptionPending u then
            if negb (getPendingException_ok C) then Some (Fallthrough (u, unwound))
            else if isGeneratorClosing C (u_pendingException u)
            then Some (Fallthrough (u, unwound))
            else
              let u := set_heap u (with_scripts (u_heap u)
                         (alter resetWarmUpCounter scp (scripts (u_heap u)))) in
              b ← baseline sc;
              let catchPC := script_main sc + tn_start tn + tn_length tn in
              Some (Returned
                (set_rfe u (set_rfe_resume (u_rfe u) RESUME_CATCH (nativeCodeForPC b catchPC)),
                 unwound))
          else Some (Fallthrough (u, unwound))
      | JSTRY_FINALLY =>
          if u_exceptionPending u then
            b ← baseline sc;
            let finallyPC := script_main sc + tn_start tn + tn_length tn in
            let r := set_rfe_resume (u_rfe u) RESUME_FINALLY (nativeCodeForPC b finallyPC) in
            let r := set_rfe_exception r
                       (if getPendingException_ok C then u_pendingException u
                        else UndefinedValue (values C)) in
            Some (Returned (set_pending (set_rfe u r) false (u_pendingException u), unwound))
          else Some (Fallthrough (u, unwound))
      | JSTRY_ITER => Some (Fallthrough (closeIterator u stackPointer, unwound))
      | JSTRY_LOOP => Some (Fallthrough (u, unwound))
      end.

Fixpoint tryNoteLoop (P : Platform) (C : Collaborators) (it : JitFrameIterator)
    (scp : Z) (sc : JSScript) (pcOffset : Z) (tns : list JSTryNote) (st : Unwind * Z)
    : option (LoopOutcome (Unwind * Z)) :=
  match tns with
  | [] => Some (Fallthrough st)
  | tn :: rest =>
      o ← tryNoteStep P C it scp sc pcOffset st tn;
      match o with
      | Returned st' => Some (Returned st')
      | Fallthrough st' => tryNoteLoop P C it scp sc pcOffset rest st'
      end
  end.

(** The block of [HandleExceptionBaseline] that consults the debugger: the
    hook is called for a catchable exception in a debuggee compartment.
    The result is the verdict of the hook, if it was called, the state, and
    the iterator with the return address it holds afterwards. *)
Definition onExceptionUnwindHook (C : Collaborators) (it : JitFrameIterator) (u : Unwind)
    : option JSTrapStatus * Unwind * JitFrameIterator :=
  if u_exceptionPending u && compartment_isDebuggee C && getPendingException_ok C
     && negb (isGeneratorClosing C (u_pendingException u))
  then
    let '(status, u', it') := callOnExceptionUnwind C it u in
    (Some status, u', it')
  else (None, u, it).

(** The part of [HandleExceptionBaseline] that follows the debugger's
    hook: the try notes of the script, then the closing of a generator. *)
Definition HandleExceptionBaseline_tryNotes (P : Platform) (C : Collaborators)
    (it : JitFrameIterator) (scp pc : Z) (u : Unwind) (unwoundScopeToPc : Z)
    (calledDebugEpilogue : bool) : option (Unwind * Z * bool) :=
  sc ← scripts (u_heap u) !! scp;
  match trynotes sc with
  | None =>
      r ← HandleClosingGeneratorReturn P C it pc unwoundScopeToPc u calledDebugEpilogue;
      Some (fst r, unwoundScopeToPc, snd r)
  | Some tns =>
      let pcOffset := (pc - script_main sc) mod 2 ^ 32 in
      o ← tryNoteLoop P C it scp sc pcOffset tns (u, unwoundScopeToPc);
      match o with
      | Returned (u, unwound) => Some (u, unwound, calledDebugEpilogue)
      | Fallthrough (u, unwound) =>
          r ← HandleClosingGeneratorReturn P C it pc unwound u calledDebugEpilogue;
          Some (fst r, unwound, snd r)
      end
  end.

(** [HandleExceptionBaseline]: the state, [*unwoundScopeToPc] and
    [*calledDebugEpilogue] it leaves, and the iterator as the debugger's
    hook has left it.  The script and the pc are found before the hook is
    called; the fields of the script and of the frame are read afterwards.
    The flag raised on the frame while the hook runs is not part of the
    state. *)
Definition HandleExceptionBaseline (P : Platform) (C : Collaborators)
    (it : JitFrameIterator) (u : Unwind) (unwoundScopeToPc : Z)
    (calledDebugEpilogue : bool) : option (Unwind * Z * bool * JitFrameIterator) :=
  scp ← scriptPtr (u_heap u) (u_stack u) it;
  opc ← baselineScriptAndPc (u_heap u) (u_stack u) it true;
  pc ← opc;
  if u_propagatingForcedReturn u then
    let '(u, called) := ForcedReturn P C it pc (clearPropagatingForcedReturn u)
                          calledDebugEpilogue in
    Some (u, unwoundScopeToPc, called, it)
  else
    let '(verdict, u, it) := onExceptionUnwindHook C it u in
    match verdict with
    | Some JSTRAP_RETURN =>
        let '(u, called) := ForcedReturn P C it pc u calledDebugEpilogue in
        Some (u, unwoundScopeToPc, called, it)
    | _ =>
        r ← HandleExceptionBaseline_tryNotes P C it scp pc u unwoundScopeToPc
              calledDebugEpilogue;
        Some (r, it)
    end.

Inductive FrameOutcome :=
  | Resume (u : Unwind)
  | NextFrame (it : JitFrameIterator) (u : Unwind).

Definition decrementIfInvalidated (r : bool * option Z) (u : Unwind) : Unwind :=
  match r with
  | (true, Some p) =>
      set_heap u (with_ionScripts (u_heap u)
                    (alter decrementInvalidationCount p (ionScripts (u_heap u))))
  | _ => u
  end.

(** The handling of a baseline frame inside the loop of [HandleException];
    the recorded debug-mode OSR info of the frame is deleted on every way
    out of the block.  What follows the call of [HandleExceptionBaseline]
    reads the iterator as the debugger's hook has left it. *)
Definition HandleException_baseline (P : Platform) (C : Collaborators)
    (it : JitFrameIterator) (u : Unwind) : option (LoopOutcome Unwind) :=
  r ← HandleExceptionBaseline P C it u 0 false;
  let '(u, unwoundScopeToPc, calledDebugEpilogue, it) := r in
  if negb (bool_decide (rfe_kind (u_rfe u) = RESUME_ENTRY_FRAME)) then
    Returned <$> updateBaselineFrame deleteDebugModeOSRInfo it u
  else
    u ← updateBaselineFrame unsetPushedSPSFrame it u;
    bf ← baselineFrames (u_heap u) !! fp it;
    if bf_isDebuggee bf && negb calledDebugEpilogue then
      u ← (if negb (unwoundScopeToPc =? 0)
           then updateBaselineFrame (setUnwoundScopeOverridePc unwoundScopeToPc) it u
           else Some u);
      opc ← baselineScriptAndPc (u_heap u) (u_stack u) it true;
      pc ← opc;
      let '(ok, u) := callDebugEpilogue C it pc false u in
      if ok then
        let framePointer := fp it - BaselineFrame_FramePointerOffset P in
        let r := set_rfe_pointers (set_rfe_kind (u_rfe u) RESUME_FORCED_RETURN)
                   framePointer (framePointer - BaselineFrame_Size P) in
        Returned <$> updateBaselineFrame deleteDebugModeOSRInfo it (set_rfe u r)
      else Fallthrough <$> updateBaselineFrame deleteDebugModeOSRInfo it u
    else Fallthrough <$> updateBaselineFrame deleteDebugModeOSRInfo it u.

(** The handlers run on the frame the iterator is on, before the step to
    the caller. *)
Definition HandleException_handlers (P : Platform) (C : Collaborators)
    (it : JitFrameIterator) (u : Unwind) : option (LoopOutcome Unwind) :=
  if isIonJS it then
    r ← checkInvalidation (u_heap u) (u_stack u) it;
    let u := HandleExceptionIon_frames C it u in
    if bool_decide (rfe_kind (u_rfe u) = RESUME_BAILOUT)
    then Some (Returned (decrementIfInvalidated r u))
    else Some (Fallthrough (decrementIfInvalidated r u))
  else if isBaselineJS it then HandleException_baseline P C it u
  else Some (Fallthrough u).

(** One turn of the loop of [HandleException]: handle the frame the
    iterator is on, step to the caller, and turn the frame that was left
    into an exit frame.  The step reads the header of the frame; a return
    address cached in the iterator is carried over only by the step to the
    entry frame, after which the loop ends without reading it. *)
Definition HandleException_frame (P : Platform) (C : Collaborators)
    (it : JitFrameIterator) (u : Unwind) : option FrameOutcome :=
  o ← HandleException_handlers P C it u;
  match o with
  | Returned u => Some (Resume u)
  | Fallthrough u =>
      current ← (if isScripted it then Some <$> jsFrame it else Some None);
      it' ← operator_incr P (u_stack u) it;
      match current with
      | Some c =>
          h ← u_stack u !! c;
          Some (NextFrame it' (set_stack_jitTop u (<[c := EnsureExitFrame h]> (u_stack u)) c))
      | None => Some (NextFrame it' u)
      end
  end.

(** The loop of [HandleException] and what follows it.  [None] is a crash
    or an exhausted [fuel]. *)
Fixpoint HandleException_loop (P : Platform) (C : Collaborators) (fuel : nat)
    (it : JitFrameIterator) (u : Unwind) : option Unwind :=
  match fuel with
  | O => None
  | S fuel =>
      if isEntry it then Some (set_rfe u (set_rfe_stackPointer (u_rfe u) (fp it)))
      else
        o ← HandleException_frame P C it u;
        match o with
        | Resume u' => Some u'
        | NextFrame it' u' => HandleException_loop P C fuel it' u'
        end
  end.

(** [HandleException]: the iterator starts at [jitTop] of the main thread,
    or on the frame of the bailout in progress.  The Ion return override,
    trace logging, the profiler's pseudo-stack and the report of an
    over-recursion have no part in the state kept here. *)
Definition HandleException (P : Platform) (C : Collaborators) (fuel : nat)
    (bd : option BailoutFrameInfo) (u : Unwind) : option Unwind :=
  let u := set_rfe u (set_rfe_kind (u_rfe u) RESUME_ENTRY_FRAME) in
  HandleException_loop P C fuel (JitFrameIterator_new false (u_jitTop u) bd) u.

(** ** Reading values back from a snapshot (tag/payload pair encoding) *)

Inductive JSValueType :=
  | JSVAL_TYPE_DOUBLE
  | JSVAL_TYPE_INT32
  | JSVAL_TYPE_UNDEFINED
  | JSVAL_TYPE_BOOLEAN
  | JSVAL_TYPE_MAGIC
  | JSVAL_TYPE_STRING
  | JSVAL_TYPE_SYMBOL
  | JSVAL_TYPE_NULL
  | JSVAL_TYPE_OBJECT.

Inductive RValueAllocation :=
  | CONSTANT (index : nat)
  | CST_UNDEFINED
  | CST_NULL
  | DOUBLE_REG (fpuReg : Z)
  | FLOAT32_REG (fpuReg : Z)
  | FLOAT32_STACK (stackOffset : Z)
  | TYPED_REG (knownType : JSValueType) (reg2 : Z)
  | TYPED_STACK (knownType : JSValueType) (stackOffset2 : Z)
  | UNTYPED_REG_REG (reg reg2 : Z)
  | UNTYPED_REG_STACK (reg stackOffset2 : Z)
  | UNTYPED_STACK_REG (stackOffset reg2 : Z)
  | UNTYPED_STACK_STACK (stackOffset stackOffset2 : Z)
  | RECOVER_INSTRUCTION (index : nat)
  | RI_WITH_DEFAULT_CST (index index2 : nat).

(** The read methods are bit flags. *)
Definition RM_Normal : Z := 1.
Definition RM_AlwaysDefault : Z := 2.

(** A recover instruction: a resume-point marker, or an instruction whose
    evaluation yields a value from the results stored so far ([None] when
    it fails). *)
Inductive RInstruction :=
  | RResumePoint (pcOffset : Z) (numOperands : Z)
  | RRecover (numOperands : Z) (eval : list Z -> option Z).

Definition isResumePoint (i : RInstruction) : bool :=
  match i with RResumePoint _ _ => true | RRecover _ _ => false end.

Definition numOperands_of (i : RInstruction) : Z :=
  match i with RResumePoint _ n => n | RRecover n _ => n end.

(** The snapshot reader of one frame.  The saved registers are found
    through [machine_] (code and address, general and floating point); the
    recover cursor has read [numInstructionsRead] instructions of
    [recover_], the last of them being the current one;
    [instructionResults_] names the results registered for a frame, if
    the reader has been given any. *)
Record SnapshotIterator := {
  recover_ : list RInstruction;
  numInstructionsRead : nat;
  numAllocationsRead : Z;
  fp_ : Z;
  machine_ : list (Z * Z);
  machine_fpu : list (Z * Z);
  ionScript_ : Z;
  instructionResults_ : option Z
}.

(** Modelled from the spec: the recover reader is declared outside these
    sources; it is a cursor that "only advances monotonically" through the
    entries of the table. *)
Definition numInstructions (s : SnapshotIterator) : nat := length (recover_ s).

(** Modelled from the spec: there is more to read while fewer entries have
    been read than the table holds. *)
Definition moreInstructions (s : SnapshotIterator) : bool :=
  (numInstructionsRead s <? numInstructions s)%nat.

(** Modelled from the spec: the current entry is the last one read. *)
Definition instruction (s : SnapshotIterator) : option RInstruction :=
  recover_ s !! (numInstructionsRead s - 1)%nat.

(** Modelled from the spec: advancing reads one more entry and starts
    over the count of its allocations. *)
Definition nextInstruction (s : SnapshotIterator) : SnapshotIterator :=
  {| recover_ := recover_ s; numInstructionsRead := S (numInstructionsRead s);
     numAllocationsRead := 0; fp_ := fp_ s; machine_ := machine_ s;
     machine_fpu := machine_fpu s; ionScript_ := ionScript_ s;
     instructionResults_ := instructionResults_ s |}.

Definition skipAllocations (s : SnapshotIterator) (n : Z) : SnapshotIterator :=
  {| recover_ := recover_ s; numInstructionsRead := numInstructionsRead s;
     numAllocationsRead := numAllocationsRead s + n; fp_ := fp_ s; machine_ := machine_ s;
     machine_fpu := machine_fpu s; ionScript_ := ionScript_ s;
     instructionResults_ := instructionResults_ s |}.

Definition set_instructionResults (s : SnapshotIterator) (r : option Z) : SnapshotIterator :=
  {| recover_ := recover_ s; numInstructionsRead := numInstructionsRead s;
     numAllocationsRead := numAllocationsRead s; fp_ := fp_ s; machine_ := machine_ s;
     machine_fpu := machine_fpu s; ionScript_ := ionScript_ s;
     instructionResults_ := r |}.

(** [skipInstruction] *)
Definition skipInstruction (s : SnapshotIterator) : option SnapshotIterator :=
  i ← instruction s;
  Some (nextInstruction (skipAllocations s (numOperands_of i))).

(** What a reader reads from and writes to: the stack memory, the constant
    pool of the artifact, and the results vector it was given. *)
Record FrameState := {
  fs_mem : Mem;
  fs_constants : list Z;
  fs_results : option (list Z)
}.

Definition fromRegister (s : SnapshotIterator) (fs : FrameState) (reg : Z) : option Z :=
  load32 (fs_mem fs) <$> regLocation (machine_ s) reg.

Definition fromFloatRegister (s : SnapshotIterator) (fs : FrameState) (reg : Z) : option Z :=
  load64 (fs_mem fs) <$> regLocation (machine_fpu s) reg.

(** A 32-bit word taken as an [int32_t]. *)
Definition int32_of_word (w : Z) : Z :=
  if w mod 2 ^ 32 <? 2 ^ 31 then w mod 2 ^ 32 else w mod 2 ^ 32 - 2 ^ 32.

Definition ReadFrameSlot (m : Mem) (fp slot : Z) : Z := load32 m (fp - slot).
Definition WriteFrameSlot (m : Mem) (fp slot value : Z) : Mem := store32 m (fp - slot) value.
Definition ReadFrameDoubleSlot (m : Mem) (fp slot : Z) : Z := load64 m (fp - slot).
Definition ReadFrameFloat32Slot (m : Mem) (fp slot : Z) : Z := load32 m (fp - slot).
Definition ReadFrameInt32Slot (m : Mem) (fp slot : Z) : Z :=
  int32_of_word (load32 m (fp - slot)).
Definition ReadFrameBooleanSlot (m : Mem) (fp slot : Z) : bool := negb (load8 m (fp - slot) =? 0).

Definition fromStack (s : SnapshotIterator) (fs : FrameState) (offset : Z) : Z :=
  ReadFrameSlot (fs_mem fs) (fp_ s) offset.

(** [FromTypedPayload]: [Int32Value] takes an [int32_t], to which the
    payload word is converted at the call. *)
Definition FromTypedPayload (V : ValueRepr) (type : JSValueType) (payload : Z) : option Z :=
  match type with
  | JSVAL_TYPE_INT32 => Some (Int32Value V (int32_of_word payload))
  | JSVAL_TYPE_BOOLEAN => Some (BooleanValue V (negb (payload =? 0)))
  | JSVAL_TYPE_STRING => Some (StringValue V payload)
  | JSVAL_TYPE_SYMBOL => Some (SymbolValue V payload)
  | JSVAL_TYPE_OBJECT => Some (ObjectValue V payload)
  | _ => None
  end.

Definition hasInstructionResults (s : SnapshotIterator) : bool :=
  bool_decide (is_Some (instructionResults_ s)).

Definition fromInstructionResult (fs : FrameState) (index : nat) : option Z :=
  r ← fs_results fs; r !! index.

(** The union of a double and a float: the double is stored, the float is
    read from the same first bytes. *)
Definition pun_double_to_float (d : Z) : Z := load32 (store64 (fun _ => 0) 0 d) 0.

(** [allocationValue]; [None] is a crash. *)
Definition allocationValue (V : ValueRepr) (s : SnapshotIterator) (fs : FrameState)
    (alloc : RValueAllocation) (rm : Z) : option Z :=
  match alloc with
  | CONSTANT index => fs_constants fs !! index
  | CST_UNDEFINED => Some (UndefinedValue V)
  | CST_NULL => Some (NullValue V)
  | DOUBLE_REG fpuReg => DoubleValue V <$> fromFloatRegister s fs fpuReg
  | FLOAT32_REG fpuReg =>
      d ← fromFloatRegister s fs fpuReg;
      Some (Float32Value V (pun_double_to_float d))
  | FLOAT32_STACK stackOffset =>
      Some (Float32Value V (ReadFrameFloat32Slot (fs_mem fs) (fp_ s) stackOffset))
  | TYPED_REG knownType reg2 =>
      p ← fromRegister s fs reg2; FromTypedPayload V knownType p
  | TYPED_STACK knownType stackOffset2 =>
      match knownType with
      | JSVAL_TYPE_DOUBLE =>
          Some (DoubleValue V (ReadFrameDoubleSlot (fs_mem fs) (fp_ s) stackOffset2))
      | JSVAL_TYPE_INT32 =>
          Some (Int32Value V (ReadFrameInt32Slot (fs_mem fs) (fp_ s) stackOffset2))
      | JSVAL_TYPE_BOOLEAN =>
          Some (BooleanValue V (ReadFrameBooleanSlot (fs_mem fs) (fp_ s) stackOffset2))
      | JSVAL_TYPE_STRING => Some (StringValue V (fromStack s fs stackOffset2))
      | JSVAL_TYPE_SYMBOL => Some (SymbolValue V (fromStack s fs stackOffset2))
      | JSVAL_TYPE_OBJECT => Some (ObjectValue V (fromStack s fs stackOffset2))
      | _ => None
      end
  | UNTYPED_REG_REG reg reg2 =>
      tag ← fromRegister s fs reg;
      word ← fromRegister s fs reg2;
      Some (IMPL_TO_JSVAL {| s_tag := tag; s_payload := word |})
  | UNTYPED_REG_STACK reg stackOffset2 =>
      tag ← fromRegister s fs reg;
      Some (IMPL_TO_JSVAL {| s_tag := tag; s_payload := fromStack s fs stackOffset2 |})
  | UNTYPED_STACK_REG stackOffset reg2 =>
      word ← fromRegister s fs reg2;
      Some (IMPL_TO_JSVAL {| s_tag := fromStack s fs stackOffset; s_payload := word |})
  | UNTYPED_STACK_STACK stackOffset stackOffset2 =>
      Some (IMPL_TO_JSVAL {| s_tag := fromStack s fs stackOffset;
                             s_payload := fromStack s fs stackOffset2 |})
  | RECOVER_INSTRUCTION index => fromInstructionResult fs index
  | RI_WITH_DEFAULT_CST index index2 =>
      if negb (Z.land rm RM_Normal =? 0) && hasInstructionResults s
      then fromInstructionResult fs index
      else fs_constants fs !! index2
  end.

Definition set_mem (fs : FrameState) (m : Mem) : FrameState :=
  {| fs_mem := m; fs_constants := fs_constants fs; fs_results := fs_results fs |}.

Definition set_constant (fs : FrameState) (index : nat) (v : Z) : option FrameState :=
  if decide (index < length (fs_constants fs))%nat
  then Some {| fs_mem := fs_mem fs; fs_constants := <[index := v]> (fs_constants fs);
               fs_results := fs_results fs |}
  else None.

Definition machine_write (s : SnapshotIterator) (fs : FrameState) (reg value : Z)
    : option FrameState :=
  addr ← regLocation (machine_ s) reg;
  Some (set_mem fs (store32 (fs_mem fs) addr value)).

(** [writeAllocationValuePayload]; [None] is a crash. *)
Definition writeAllocationValuePayload (s : SnapshotIterator) (fs : FrameState)
    (alloc : RValueAllocation) (v : Z) : option FrameState :=
  let payload := Z.land v (2 ^ 32 - 1) in
  match alloc with
  | CONSTANT index => set_constant fs index v
  | CST_UNDEFINED | CST_NULL | DOUBLE_REG _ | FLOAT32_REG _ | FLOAT32_STACK _ => None
  | TYPED_REG _ reg2 => machine_write s fs reg2 payload
  | TYPED_STACK knownType stackOffset2 =>
      match knownType with
      | JSVAL_TYPE_STRING | JSVAL_TYPE_SYMBOL | JSVAL_TYPE_OBJECT =>
          Some (set_mem fs (WriteFrameSlot (fs_mem fs) (fp_ s) stackOffset2 payload))
      | _ => None
      end
  | UNTYPED_REG_REG _ reg2 | UNTYPED_STACK_REG _ reg2 => machine_write s fs reg2 payload
  | UNTYPED_REG_STACK _ stackOffset2 | UNTYPED_STACK_STACK _ stackOffset2 =>
      Some (set_mem fs (WriteFrameSlot (fs_mem fs) (fp_ s) stackOffset2 payload))
  | RECOVER_INSTRUCTION _ => None
  | RI_WITH_DEFAULT_CST _ index2 => set_constant fs index2 v
  end.

Definition hasRegister (s : SnapshotIterator) (reg : Z) : bool :=
  bool_decide (is_Some (regLocation (machine_ s) reg)).

Definition hasFloatRegister (s : SnapshotIterator) (reg : Z) : bool :=
  bool_decide (is_Some (regLocation (machine_fpu s) reg)).

(** [allocationReadable]; [needSideEffect] is a property of the allocation
    that is encoded outside these sources. *)
Definition allocationReadable (s : SnapshotIterator) (needSideEffect : bool)
    (alloc : RValueAllocation) (rm : Z) : bool :=
  if needSideEffect && (Z.land rm RM_AlwaysDefault =? 0) && negb (hasInstructionResults s)
  then false
  else
    match alloc with
    | DOUBLE_REG fpuReg => hasFloatRegister s fpuReg
    | TYPED_REG _ reg2 => hasRegister s reg2
    | UNTYPED_REG_REG reg reg2 => hasRegister s reg && hasRegister s reg2
    | UNTYPED_REG_STACK reg _ => hasRegister s reg
    | UNTYPED_STACK_REG _ reg2 => hasRegister s reg2
    | UNTYPED_STACK_STACK _ _ => true
    | RECOVER_INSTRUCTION _ => hasInstructionResults s
    | RI_WITH_DEFAULT_CST _ _ =>
        negb (Z.land rm RM_AlwaysDefault =? 0) || hasInstructionResults s
    | _ => true
    end.

(** [traceAllocation], once the allocation has been read: the value is
    handed to the collector, and a relocated payload is written back. *)
Definition traceAllocation (V : ValueRepr) (trc : JSTracer) (s : SnapshotIterator)
    (needSideEffect : bool) (alloc : RValueAllocation) (fs : FrameState)
    : option FrameState :=
  if negb (allocationReadable s needSideEffect alloc RM_AlwaysDefault) then Some fs
  else
    v ← allocationValue V s fs alloc RM_AlwaysDefault;
    if negb (isMarkable V v) then Some fs
    else
      let copy := v in
      let v := trace_value trc v in
      if decide (v = copy) then Some fs
      else writeAllocationValuePayload s fs alloc v.

(** ** The results of recover instructions *)

Record RInstructionResults := {
  results_ : option (list Z);
  frame_ : Z;
  initialized_ : bool
}.

(** What the evaluation of recover instructions reads and changes: the
    results registered on the activation, by frame; the indices of the
    recover instructions that were executed, in order; the artifacts whose
    invalidation was requested. *)
Record RecoverState := {
  ionRecovery_ : gmap Z RInstructionResults;
  executed : list nat;
  invalidated : list Z
}.

(** Whether the fallible steps succeed: the invalidation of the artifact,
    and the allocations made when results are registered and initialized. *)
Record Resources := {
  invalidate_ok : bool;
  registerIonFrameRecovery_ok : bool;
  make_unique_ok : bool;
  growBy_ok : bool
}.

Definition set_ionRecovery (st : RecoverState) (m : gmap Z RInstructionResults)
    : RecoverState :=
  {| ionRecovery_ := m; executed := executed st; invalidated := invalidated st |}.

(** Modelled from the spec: the activation's side of the cache is declared
    outside these sources; it is a "per-activation bailout recovery map
    (frame → memoized recover-table results)". *)
Definition maybeIonFrameRecovery (st : RecoverState) (fp : Z) : option RInstructionResults :=
  ionRecovery_ st !! fp.

(** Modelled from the spec: registering adds the results to that map under
    their frame, unless the allocation fails. *)
Definition registerIonFrameRecovery (R : Resources) (st : RecoverState)
    (r : RInstructionResults) : option RecoverState :=
  if registerIonFrameRecovery_ok R
  then Some (set_ionRecovery st (<[frame_ r := r]> (ionRecovery_ st)))
  else None.

(** Modelled from the spec: removing drops the entry of the frame. *)
Definition removeIonFrameRecovery (st : RecoverState) (fp : Z) : RecoverState :=
  set_ionRecovery st (delete fp (ionRecovery_ st)).

(** [RInstructionResults::init]: every slot starts as the magic value that
    marks a bailout in progress; nothing is allocated for zero results.
    The boolean is the result; when the vector cannot be grown, the empty
    vector that was made stays in place. *)
Definition RInstructionResults_init (V : ValueRepr) (R : Resources)
    (r : RInstructionResults) (numResults : Z) : bool * RInstructionResults :=
  if numResults =? 0 then
    (true, {| results_ := results_ r; frame_ := frame_ r; initialized_ := true |})
  else if negb (make_unique_ok R) then
    (false, {| results_ := None; frame_ := frame_ r; initialized_ := initialized_ r |})
  else if negb (growBy_ok R && (0 <? numResults)) then
    (false, {| results_ := Some []; frame_ := frame_ r; initialized_ := initialized_ r |})
  else
    (true, {| results_ := Some (replicate (Z.to_nat numResults) (MagicValue_JS_ION_BAILOUT V));
              frame_ := frame_ r; initialized_ := true |}).

(** [storeInstructionResult]: the slot of the current instruction is
    written, in the results the reader points to, and the execution is
    counted. *)
Definition storeInstructionResult (s : SnapshotIterator) (v : Z) (st : RecoverState)
    : option RecoverState :=
  key ← instructionResults_ s;
  r ← ionRecovery_ st !! key;
  vec ← results_ r;
  let currIns := (numInstructionsRead s - 1)%nat in
  if decide (currIns < length vec)%nat then
    Some {| ionRecovery_ :=
              <[key := {| results_ := Some (<[currIns := v]> vec);
                          frame_ := frame_ r; initialized_ := initialized_ r |}]>
                (ionRecovery_ st);
            executed := executed st ++ [currIns];
            invalidated := invalidated st |}
  else None.

(** Modelled from the spec: the [recover] methods of the instructions are
    defined outside these sources; an instruction is evaluated from what
    the reader gives it and "each result" is stored through
    [storeInstructionResult].  The boolean is the result of [recover]. *)
Definition RInstruction_recover (i : RInstruction) (s : SnapshotIterator) (st : RecoverState)
    : option (bool * RecoverState) :=
  match i with
  | RResumePoint _ _ => None
  | RRecover _ eval =>
      key ← instructionResults_ s;
      r ← ionRecovery_ st !! key;
      vec ← results_ r;
      match eval vec with
      | None => Some (false, st)
      | Some v => st' ← storeInstructionResult s v st; Some (true, st')
      end
  end.

(** The loop of [computeInstructionResults]: [n] instructions remain to be
    visited.  The boolean is the result of the function so far; the outer
    [None] is a crash. *)
Fixpoint recoverLoop (n : nat) (s : SnapshotIterator) (st : RecoverState)
    : option (bool * RecoverState) :=
  match n with
  | O => Some (true, st)
  | S n =>
      i ← instruction s;
      if isResumePoint i then
        s' ← skipInstruction s;
        recoverLoop n s' st
      else
        r ← RInstruction_recover i s st;
        match r with
        | (false, st') => Some (false, st')
        | (true, st') => recoverLoop n (nextInstruction s) st'
        end
  end.

(** [computeInstructionResults], on the results registered for [key]. *)
Definition computeInstructionResults (V : ValueRepr) (R : Resources)
    (s : SnapshotIterator) (key : Z) (st : RecoverState) : option (bool * RecoverState) :=
  results ← ionRecovery_ st !! key;
  let numResults := Z.of_nat (numInstructions s) - 1 in
  if negb (initialized_ results) then
    let '(ok, results') := RInstructionResults_init V R results numResults in
    let st := set_ionRecovery st (<[key := results']> (ionRecovery_ st)) in
    if negb ok then Some (false, st)
    else if numResults =? 0 then Some (true, st)
    else
      let s := set_instructionResults s (Some key) in
      recoverLoop (numInstructions s - numInstructionsRead s) s st
  else Some (true, st).

Inductive FallbackConsequence := Fallback_Invalidate | Fallback_DoNothing.

#[global] Instance FallbackConsequence_eq_dec : EqDecision FallbackConsequence.
Proof. solve_decision. Defined.

(** What [initInstructionResults] uses of a [MaybeReadFallback]: the frame
    of [fallback.frame], the reader a fresh [SnapshotIterator] on that
    frame starts as, and the consequence asked for. *)
Record MaybeReadFallback := {
  fallback_jsFrame : Z;
  fallback_snapshot : SnapshotIterator;
  consequence : FallbackConsequence
}.

(** [initInstructionResults]: the result, the reader afterwards, and the
    state. *)
Definition initInstructionResults (V : ValueRepr) (R : Resources)
    (s : SnapshotIterator) (fallback : MaybeReadFallback) (st : RecoverState)
    : option (bool * SnapshotIterator * RecoverState) :=
  if decide (numInstructions s = 1%nat) then Some (true, s, st)
  else
    let fp := fallback_jsFrame fallback in
    match maybeIonFrameRecovery st fp with
    | Some results => Some (true, set_instructionResults s (Some fp), st)
    | None =>
        let wanted := bool_decide (consequence fallback = Fallback_Invalidate) in
        let st :=
          if wanted
          then {| ionRecovery_ := ionRecovery_ st; executed := executed st;
                  invalidated := invalidated st ++ [ionScript_ s] |}
          else st in
        if wanted && negb (invalidate_ok R) then Some (false, s, st)
        else
          let tmp := {| results_ := None; frame_ := fp; initialized_ := false |} in
          match registerIonFrameRecovery R st tmp with
          | None => Some (false, s, st)
          | Some st =>
              r ← computeInstructionResults V R (fallback_snapshot fallback) fp st;
              match r with
              | (false, st) => Some (false, s, removeIonFrameRecovery st fp)
              | (true, st) => Some (true, set_instructionResults s (Some fp), st)
              end
          end
    end.

(** The frames the loop of [HandleException] walks through without
    resuming: [walks it u it' u' n] when [n] turns of the loop lead from
    the iterator [it] in state [u] to [it'] in state [u']. *)
Inductive walks (P : Platform) (C : Collaborators)
    : JitFrameIterator -> Unwind -> JitFrameIterator -> Unwind -> nat -> Prop :=
  | walks_here it u : walks P C it u it u 0
  | walks_step it u it1 u1 it2 u2 n :
      isEntry it = false ->
      HandleException_frame P C it u = Some (NextFrame it1 u1) ->
      walks P C it1 u1 it2 u2 n ->
      walks P C it u it2 u2 (S n).

(** The translation of stored tags in the words of the design document:
    every "unwound-X" tag goes back to plain "X". *)
Definition plain_of_unwound (t : FrameType) : FrameType :=
  match t with
  | JitFrame_Unwound_IonJS => JitFrame_IonJS
  | JitFrame_Unwound_BaselineJS => JitFrame_BaselineJS
  | JitFrame_Unwound_BaselineStub => JitFrame_BaselineStub
  | JitFrame_Unwound_Rectifier => JitFrame_Rectifier
  | t => t
  end.

Definition isUnwound (t : FrameType) : bool :=
  match t with
  | JitFrame_Unwound_IonJS | JitFrame_Unwound_BaselineJS
  | JitFrame_Unwound_BaselineStub | JitFrame_Unwound_Rectifier => true
  | _ => false
  end.

(** ** Concrete data for the examples *)

(** A 32-bit layout; a frame is a fake exit frame when the predecessor type
    stored in it is an unwound one. *)
Definition example_platform : Platform :=
  {| EntryFrameLayout_Size := 8;
     JitFrameLayout_Size := 16;
     BaselineStubFrameLayout_Size := 16;
     RectifierFrameLayout_Size := 16;
     IonUnwoundRectifierFrameLayout_Size := 16;
     ExitFrameLayout_Size := 8;
     BaselineFrame_FramePointerOffset := 4;
     BaselineFrame_Size := 32;
     isFakeExitFrame := fun _ prev => isUnwound prev |}.

Definition example_header (ret : Z) (prev : FrameType) (locals : Z) (token : CalleeToken)
    : FrameHeader :=
  {| returnAddress := ret; prevType := prev; prevFrameLocalSize := locals;
     calleeToken := token; numActualArgs := 0 |}.

Definition example_iterator (addr : Z) (t : FrameType) (ret : Z) (mode : ExecutionMode)
    (bd : option BailoutFrameInfo) : JitFrameIterator :=
  {| current_ := addr; type_ := t; returnAddressToFp_ := ret; frameSize_ := 0;
     mode_ := mode; cachedSafepointIndex_ := None; bailoutData := bd |}.

Definition example_script (i p : option Z) (b : option BaselineScript)
    (tns : option (list JSTryNote)) : JSScript :=
  {| script_code := 5000; script_main := 5008; nfixed := 1; trynotes := tns;
     warmUpCounter := 42; ion := i; parallelIon := p; baseline := b |}.

Definition example_heap (sc : JSScript) (ions : gmap Z IonScript)
    (bfs : gmap Z BaselineFrame) (embedded : Z) : Heap :=
  {| functionScript := ∅; scripts := {[ 1 := sc ]}; ionScripts := ions;
     baselineFrames := bfs;
     code_int32 := fun _ => 16;
     Assembler_GetPointer := fun _ => embedded |}.

(** A bailout in progress in the frame at 2000, out of artifact 7200. *)
Definition example_bailout : BailoutFrameInfo :=
  {| bailout_fp := 2000; bailout_topFrameSize := 64; bailout_ionScript := 7200;
     bailout_machineState := [] |}.

(** A frame whose stored predecessor type is the unwound rectifier. *)
Definition example_stack_unwound_rectifier : Stack :=
  {[ 1000 := example_header 500 JitFrame_Unwound_Rectifier 24 (CalleeToken_Script 1) ]}.

(** One scripted frame at 2000 whose callee is script 1. *)
Definition example_stack_one_frame (prev : FrameType) : Stack :=
  {[ 2000 := example_header 6100 prev 24 (CalleeToken_Script 1) ]}.

(** The iterator a fork-join context constructs while the activation has
    that bailout in progress. *)
Definition example_parallel_bailout_iterator : JitFrameIterator :=
  JitFrameIterator_new true 1000 (Some example_bailout).

Definition example_baseline : BaselineScript :=
  {| prologueEntryAddr := 6000;
     postDebugPrologueAddr := 6040;
     maybeICEntryFromReturnAddress := fun a => if a =? 6100 then Some 5020 else None;
     pcForReturnAddress := fun a => 5008 + (a - 6000) / 4;
     maybeNativeCodeForPC := fun pc => 6000 + 4 * (pc - 5000) |}.

Definition example_baseline_frame (overridePc : Z) (osr : option BaselineDebugModeOSRInfo)
    (slots : Z) : BaselineFrame :=
  {| bf_script := 1; unwoundScopeOverridePc := overridePc; debugModeOSRInfo := osr;
     numValueSlots := slots; bf_isDebuggee := false; bf_hasPushedSPSFrame := false;
     bf_returnValue := None |}.

Definition example_values : ValueRepr :=
  {| UndefinedValue := 0xFFFFFF8200000000;
     NullValue := 0xFFFFFF8700000000;
     MagicValue_JS_ION_BAILOUT := 0xFFFFFF8400000001;
     DoubleValue := fun d => d;
     Float32Value := fun f => f;
     Int32Value := fun i => Z.lor 0xFFFFFF8100000000 (i mod 2 ^ 32);
     BooleanValue := fun b => Z.lor 0xFFFFFF8300000000 (if b then 1 else 0);
     StringValue := fun p => Z.lor 0xFFFFFF8500000000 p;
     SymbolValue := fun p => Z.lor 0xFFFFFF8600000000 p;
     ObjectValue := fun p => Z.lor 0xFFFFFF8800000000 p;
     isMarkable := fun v => 0xFFFFFF85 <=? Z.shiftr v 32 |}.

(** The magic value that stands for the closing of a generator. *)
Definition example_generator_closing : Z := 0xFFFFFF8400000003.

(** A hook that asks for a return from the frame: it clears the pending
    exception and sets the return value of the frame. *)
Definition example_hook_return (it : JitFrameIterator) (u : Unwind) : JSTrapStatus * Unwind * Z :=
  (JSTRAP_RETURN,
   set_pending
     (default u (updateBaselineFrame (setReturnValue 0xFFFFFF8100000007) it u))
     false (u_pendingException u),
   returnAddressToFp_ it).

(** A hook that lets the exception go on and leaves the state alone. *)
Definition example_hook_continue (it : JitFrameIterator) (u : Unwind)
    : JSTrapStatus * Unwind * Z :=
  (JSTRAP_CONTINUE, u, returnAddressToFp_ it).

(** Collaborators in a compartment that is a debuggee or not, with a given
    hook on the unwinding of an exception: an exception that can be
    fetched, a debug epilogue that agrees with what it is told and leaves
    the state alone, and an optimized-frame handler that finds nothing. *)
Definition example_collaborators_with (debuggee : bool)
    (hook : JitFrameIterator -> Unwind -> JSTrapStatus * Unwind * Z) : Collaborators :=
  {| values := example_values;
     compartment_isDebuggee := debuggee;
     getPendingException_ok := true;
     isGeneratorClosing := fun v => v =? example_generator_closing;
     Debugger_onExceptionUnwind := hook;
     DebugEpilogue := fun _ _ ok u => (ok, u);
     UnwindScopeToTryPc := fun sc tn => script_main sc + tn_start tn;
     HandleExceptionIon_frames := fun _ u => u |}.

(** The debugger, when there is one, answers the unwinding of an exception
    by forcing a return. *)
Definition example_collaborators (debuggee : bool) : Collaborators :=
  example_collaborators_with debuggee example_hook_return.

Definition example_rfe : ResumeFromException :=
  {| rfe_framePointer := 0; rfe_stackPointer := 0; rfe_target := 0;
     rfe_kind := RESUME_ENTRY_FRAME; rfe_exception := 0 |}.

Definition example_unwind (hp : Heap) (stack : Stack) (pending : bool) (top : Z) : Unwind :=
  {| u_heap := hp; u_stack := stack; u_exceptionPending := pending;
     u_pendingException := 0xFFFFFF8800001234; u_propagatingForcedReturn := false;
     u_jitTop := top; u_rfe := example_rfe; u_closedIterators := [] |}.

(** An artifact whose code is [6000, 7000] with one safepoint at the return
    address 6100. *)
Definition example_safepoint : Safepoint :=
  {| allGprSpills := 10; gcSpills := 2; valueSpills := 0;
     gcSlots := [8]; valueSlots := [24];
     nunboxSlots := [(LGeneralReg 3, LStackSlot 16)] |}.

Definition example_ionScript (raw : Z) (sp : Safepoint) : IonScript :=
  {| method_raw := raw; instructionsSize := 1000; ion_frameSize := 64;
     safepointIndices := [(100, sp)]; invalidationCount := 1 |}.

(** An exit frame at 1000 called from an optimized frame at 1032, which was
    called from the entry frame. *)
Definition example_stack_exit_ion : Stack :=
  {[ 1000 := example_header 6100 JitFrame_IonJS 24 (CalleeToken_Script 1);
     1032 := example_header 9000 JitFrame_Entry 0 (CalleeToken_Script 1) ]}.

Definition example_heap_ion : Heap :=
  example_heap (example_script (Some 7000) None None None)
    {[ 7000 := example_ionScript 6000 example_safepoint ]} ∅ 7000.

Definition example_unwind_exit_ion : Unwind :=
  example_unwind example_heap_ion example_stack_exit_ion true 1000.

Definition example_ion_iterator : JitFrameIterator :=
  {| current_ := 1032; type_ := JitFrame_IonJS; returnAddressToFp_ := 6100;
     frameSize_ := 24; mode_ := SequentialExecution; cachedSafepointIndex_ := None;
     bailoutData := None |}.

(** [m'] differs from [m] at most in the four bytes of the word at [a]. *)
Definition only_word_written (m m' : Mem) (a : Z) : Prop :=
  forall x, x < a \/ a + 4 <= x -> m' x = m x.

(** A torn value of the safepoint: the tag in register 3, saved at 1932,
    and the payload in the stack slot 16 of the frame at 2000. *)
Definition example_torn_mem : Mem :=
  store32 (store32 (fun _ => 0) 1932 0xFFFFFF88) 1984 0x1234.

Definition example_gcstate : GCState :=
  {| gc_stack := example_stack_one_frame JitFrame_Entry;
     gc_mem := example_torn_mem; gc_log := [] |}.

Definition example_tracer : JSTracer :=
  {| trace_object := fun p => p; trace_script := fun p => p;
     trace_gcthing := fun p => p + 0x100;
     trace_value := fun v => v + 0x100 |}.

Definition example_frame_iterator (mode : ExecutionMode) : JitFrameIterator :=
  example_iterator 2000 JitFrame_IonJS 6100 mode None.

Definition example_snapshot (rs : list RInstruction) : SnapshotIterator :=
  {| recover_ := rs; numInstructionsRead := 1; numAllocationsRead := 0; fp_ := 2000;
     machine_ := [(3, 1932)]; machine_fpu := [(0, 1800)]; ionScript_ := 7000;
     instructionResults_ := None |}.

Definition example_framestate (m : Mem) : FrameState :=
  {| fs_mem := m; fs_constants := [0xFFFFFF8200000000]; fs_results := None |}.

(** The roots a safepoint lists for a frame, in the words of the design
    document: the actual arguments with the receiver, every GC-tagged and
    every value-tagged stack slot, then the spilled general registers from
    the high end of the spill area downward, each as a pointer or as a
    value. *)
Fixpoint spillRoots (sp : Safepoint) (regs : list Z) (spill : Z) : list TraceEvent :=
  match regs with
  | [] => []
  | r :: rs =>
      (if Z.testbit (gcSpills sp) r then [Ev_GCThingRoot (spill - 4)]
       else if Z.testbit (valueSpills sp) r then [Ev_ValueRoot (spill - 4)]
       else [])
      ++ spillRoots sp rs (spill - 4)
  end.



(** The frame at 2000 was compiled as artifact 7100 (code [3000, 4000]),
    which the instruction stream before the return address 3100 still
    names; the callee now holds artifact 7000 (code [6000, 7000]) and, for
    parallel execution, artifact 7200 (code [8000, 9000]). *)
Definition example_heap_invalidated : Heap :=
  example_heap (example_script (Some 7000) (Some 7200) None None)
    {[ 7000 := example_ionScript 6000 example_safepoint;
       7100 := example_ionScript 3000 example_safepoint;
       7200 := example_ionScript 8000 example_safepoint ]} ∅ 7100.

Definition example_invalidated_iterator (mode : ExecutionMode) : JitFrameIterator :=
  example_iterator 2000 JitFrame_IonJS 3100 mode None.

(** A script compiled for sequential execution as artifact 7000 (code
    [6000, 7000]) and for parallel execution as artifact 7200 (code
    [8000, 9000]); the frame at 2000 runs the parallel artifact and returns
    to 8100, and the instruction stream before that address names
    artifact 7200. *)
Definition example_heap_parallel : Heap :=
  example_heap (example_script (Some 7000) (Some 7200) None None)
    {[ 7000 := example_ionScript 6000 example_safepoint;
       7200 := example_ionScript 8000 example_safepoint ]} ∅ 7200.


(** The try note of the catch-dispatch scenario: one CATCH region over the
    bytecode offsets [10, 20) at stack depth 2. *)
Definition catch_10_20 : JSTryNote :=
  {| tn_kind := JSTRY_CATCH; tn_stackDepth := 2; tn_start := 10; tn_length := 10 |}.

(** A baseline frame at 2000 of script 1, three value slots of which one is
    a fixed slot, returning to 6060, which the PC-mapping table of the
    artifact maps to the pc at offset 15; an exception is pending. *)
Definition example_catch_heap : Heap :=
  example_heap (example_script None None (Some example_baseline) (Some [catch_10_20]))
    ∅ {[ 2000 := example_baseline_frame 0 None 3 ]} 0.

Definition example_catch_iterator : JitFrameIterator :=
  example_iterator 2000 JitFrame_BaselineJS 6060 SequentialExecution None.

Definition example_catch_unwind : Unwind :=
  example_unwind example_catch_heap ∅ true 1000.

(** The evaluation of a recover table in the words of the design document:
    the entries are run once, in order; every entry that is not a
    resume-point marker is evaluated and its result stored in its own slot.
    [i] is the index of the first entry of [body]. *)
Fixpoint run_recover (body : list RInstruction) (i : nat) (vec : list Z) : list Z :=
  match body with
  | [] => vec
  | RResumePoint _ _ :: rest => run_recover rest (S i) vec
  | RRecover _ eval :: rest =>
      match eval vec with
      | Some v => run_recover rest (S i) (<[i := v]> vec)
      | None => vec
      end
  end.

(** The indices of the entries of [body] that are not resume-point markers. *)
Fixpoint recover_indices (body : list RInstruction) (i : nat) : list nat :=
  match body with
  | [] => []
  | RResumePoint _ _ :: rest => recover_indices rest (S i)
  | RRecover _ _ :: rest => i :: recover_indices rest (S i)
  end.

(** Every instruction of the table can be evaluated. *)
Definition evaluable (i : RInstruction) : Prop :=
  match i with
  | RResumePoint _ _ => True
  | RRecover _ eval => forall vec, is_Some (eval vec)
  end.

(** A recover table: an addition of the two previous results is not
    possible before they exist, so the second instruction reads slot 0. *)
Definition example_recover_table : list RInstruction :=
  [ RRecover 0 (fun _ => Some 7);
    RResumePoint 3 2;
    RRecover 1 (fun vec => Some (default 0 (vec !! 0%nat) + 1));
    RResumePoint 9 4 ].

Definition example_fallback (rs : list RInstruction) (c : FallbackConsequence)
    : MaybeReadFallback :=
  {| fallback_jsFrame := 2000; fallback_snapshot := example_snapshot rs; consequence := c |}.

Definition example_resources : Resources :=
  {| invalidate_ok := true; registerIonFrameRecovery_ok := true;
     make_unique_ok := true; growBy_ok := true |}.

Definition example_recover_state : RecoverState :=
  {| ionRecovery_ := ∅; executed := []; invalidated := [] |}.

(** Where the two halves of an untyped allocation lie in the pair
    encoding: the location [allocationValue] reads the tag from, and the
    location it reads the payload from. *)
Definition untyped_locations (s : SnapshotIterator) (alloc : RValueAllocation)
    : option (Z * Z) :=
  match alloc with
  | UNTYPED_REG_REG reg reg2 =>
      t ← regLocation (machine_ s) reg; p ← regLocation (machine_ s) reg2; Some (t, p)
  | UNTYPED_REG_STACK reg stackOffset2 =>
      t ← regLocation (machine_ s) reg; Some (t, fp_ s - stackOffset2)
  | UNTYPED_STACK_REG stackOffset reg2 =>
      p ← regLocation (machine_ s) reg2; Some (fp_ s - stackOffset, p)
  | UNTYPED_STACK_STACK stackOffset stackOffset2 =>
      Some (fp_ s - stackOffset, fp_ s - stackOffset2)
  | _ => None
  end.

(** [n] steps to the caller. *)
Fixpoint steps (P : Platform) (stack : Stack) (n : nat) (it : JitFrameIterator)
    : option JitFrameIterator :=
  match n with
  | O => Some it
  | S n => it' ← operator_incr P stack it; steps P stack n it'
  end.

(** The states of an iterator over the frames of an activation: as it is
    constructed, after a step to the caller, and after a call of
    [safepoint], which fills its cache. *)
Inductive visits (P : Platform) (hp : Heap) (stack : Stack) : JitFrameIterator -> Prop :=
  | visits_new forkJoin top bd :
      visits P hp stack (JitFrameIterator_new forkJoin top bd)
  | visits_step it it' :
      visits P hp stack it ->
      operator_incr P stack it = Some it' ->
      visits P hp stack it'
  | visits_safepoint it si it' :
      visits P hp stack it ->
      safepoint hp stack it = Some (si, it') ->
      visits P hp stack it'.

(** ** The baseline artifact (jit/BaselineJIT.h) *)

(** [enum SlotLocation { SlotInR0 = 0, SlotInR1 = 1, SlotIgnore = 3 }].  A
    location is kept as its integer: the decoders cast two bits of the
    byte to the enumeration, whatever they hold. *)
Definition SlotInR0 : Z := 0.
Definition SlotInR1 : Z := 1.
Definition SlotIgnore : Z := 3.

Record PCMappingSlotInfo := { slotInfo_ : Z }.

(** The constructor from a [uint8_t]: an [int] argument is cut to a byte. *)
Definition PCMappingSlotInfo_new (slotInfo : Z) : PCMappingSlotInfo :=
  {| slotInfo_ := slotInfo mod 2 ^ 8 |}.

Definition ValidSlotLocation (loc : Z) : bool :=
  (loc =? SlotInR0) || (loc =? SlotInR1) || (loc =? SlotIgnore).

(** The three overloads of [MakeSlotInfo], by the number of unsynced slots;
    the assertions on the locations are hypotheses of the properties. *)
Definition MakeSlotInfo0 : PCMappingSlotInfo := PCMappingSlotInfo_new 0.

Definition MakeSlotInfo1 (topSlotLoc : Z) : PCMappingSlotInfo :=
  PCMappingSlotInfo_new (Z.lor 1 (Z.shiftl topSlotLoc 2)).

Definition MakeSlotInfo2 (topSlotLoc nextSlotLoc : Z) : PCMappingSlotInfo :=
  PCMappingSlotInfo_new (Z.lor (Z.lor 2 (Z.shiftl topSlotLoc 2)) (Z.shiftl nextSlotLoc 4)).

Definition numUnsynced (i : PCMappingSlotInfo) : Z := Z.land (slotInfo_ i) 3.

Definition topSlotLocation (i : PCMappingSlotInfo) : Z :=
  Z.land (Z.shiftr (slotInfo_ i) 2) 3.

Definition nextSlotLocation (i : PCMappingSlotInfo) : Z :=
  Z.land (Z.shiftr (slotInfo_ i) 4) 3.

Definition toByte (i : PCMappingSlotInfo) : Z := slotInfo_ i.

(** The flags of a [BaselineScript], on the 32-bit word [flags_]. *)
Definition NEEDS_ARGS_OBJ : Z := Z.shiftl 1 0.
Definition ACTIVE : Z := Z.shiftl 1 1.
Definition MODIFIES_ARGUMENTS : Z := Z.shiftl 1 2.
Definition HAS_DEBUG_INSTRUMENTATION : Z := Z.shiftl 1 3.
Definition ION_COMPILED_OR_INLINED : Z := Z.shiftl 1 4.

(** [flags_ & F] as a condition. *)
Definition flag_test (flags_ F : Z) : bool := negb (Z.land flags_ F =? 0).
(** [flags_ |= F] *)
Definition flag_set (flags_ F : Z) : Z := Z.lor flags_ F.
(** [flags_ &= ~F]; the complement of the [int] is taken as a 32-bit word. *)
Definition flag_clear (flags_ F : Z) : Z := Z.land flags_ (Z.lnot F mod 2 ^ 32).

Definition active (flags_ : Z) : bool := flag_test flags_ ACTIVE.
Definition setActive (flags_ : Z) : Z := flag_set flags_ ACTIVE.
Definition resetActive (flags_ : Z) : Z := flag_clear flags_ ACTIVE.
Definition setNeedsArgsObj (flags_ : Z) : Z := flag_set flags_ NEEDS_ARGS_OBJ.
Definition setModifiesArguments (flags_ : Z) : Z := flag_set flags_ MODIFIES_ARGUMENTS.
Definition modifiesArguments (flags_ : Z) : bool := flag_test flags_ MODIFIES_ARGUMENTS.
Definition setHasDebugInstrumentation (flags_ : Z) : Z :=
  flag_set flags_ HAS_DEBUG_INSTRUMENTATION.
Definition hasDebugInstrumentation (flags_ : Z) : bool :=
  flag_test flags_ HAS_DEBUG_INSTRUMENTATION.
Definition setIonCompiledOrInlined (flags_ : Z) : Z := flag_set flags_ ION_COMPILED_OR_INLINED.
Definition clearIonCompiledOrInlined (flags_ : Z) : Z :=
  flag_clear flags_ ION_COMPILED_OR_INLINED.
Definition ionCompiledOrInlined (flags_ : Z) : bool := flag_test flags_ ION_COMPILED_OR_INLINED.

(** ** Marking the frames of an activation *)

(** The marking function the loop of [MarkJitActivation] calls on a frame. *)
Inductive FrameMarking :=
  | Marking_MarkJitExitFrame
  | Marking_BaselineFrame_trace
  | Marking_MarkBaselineStubFrame
  | Marking_MarkIonJSFrame
  | Marking_MarkBailoutFrame
  | Marking_MarkRectifierFrame
  | Marking_nothing.

(** The switch of [MarkJitActivation] on [frames.type()]; [None] is one of
    its two [MOZ_CRASH]es. *)
Definition MarkJitActivation_switch (t : FrameType) : option FrameMarking :=
  match t with
  | JitFrame_Exit => Some Marking_MarkJitExitFrame
  | JitFrame_BaselineJS => Some Marking_BaselineFrame_trace
  | JitFrame_BaselineStub => Some Marking_MarkBaselineStubFrame
  | JitFrame_IonJS => Some Marking_MarkIonJSFrame
  | JitFrame_Bailout => Some Marking_MarkBailoutFrame
  | JitFrame_Unwound_IonJS
  | JitFrame_Unwound_BaselineJS => None
  | JitFrame_Rectifier => Some Marking_MarkRectifierFrame
  | JitFrame_Unwound_Rectifier => Some Marking_nothing
  | _ => None
  end.

(** ** Leaving parallel execution *)

(** [while (!stop(frameIter)) ++frameIter;] *)
Fixpoint advanceUntil (stop : JitFrameIterator -> bool) (P : Platform) (stack : Stack)
    (fuel : nat) (it : JitFrameIterator) : option JitFrameIterator :=
  match fuel with
  | O => None
  | S fuel =>
      if stop it then Some it
      else it' ← operator_incr P stack it; advanceUntil stop P stack fuel it'
  end.

(** [done()] is the test for the entry type. *)
Definition done (it : JitFrameIterator) : bool := isEntry it.

(** [HandleParallelFailure]: the resume record, and the bailout kind
    recorded for the fork-join context.  [bailoutKind] is what the snapshot
    of the optimized frame tells; it is read outside these sources.  [None]
    is a crash or an exhausted [fuel]. *)
Definition HandleParallelFailure (P : Platform) (stack : Stack) (fuel : nat) (jitTop : Z)
    (bd : option BailoutFrameInfo) (bailoutKind : JitFrameIterator -> Z)
    (rfe : ResumeFromException) : option (ResumeFromException * Z) :=
  let frameIter := JitFrameIterator_new true jitTop bd in
  frameIter ← advanceUntil isIonJS P stack fuel frameIter;
  let kind := bailoutKind frameIter in
  frameIter ← advanceUntil done P stack fuel frameIter;
  Some (set_rfe_stackPointer (set_rfe_kind rfe RESUME_ENTRY_FRAME) (fp frameIter), kind).

(** The sizes of headers and of locals are unsigned in the sources. *)
Definition sizes_nonneg (P : Platform) (stack : Stack) : Prop :=
  0 <= EntryFrameLayout_Size P /\ 0 <= JitFrameLayout_Size P /\
  0 <= BaselineStubFrameLayout_Size P /\ 0 <= RectifierFrameLayout_Size P /\
  0 <= IonUnwoundRectifierFrameLayout_Size P /\ 0 <= ExitFrameLayout_Size P /\
  map_Forall (fun _ h => 0 <= prevFrameLocalSize h) stack.

(** A try note takes part in the handling of an exception thrown at
    [pcOffset] in a frame with [stackDepth] values on its stack when its
    region holds the offset and its depth does not exceed the frame's. *)
Definition tryNoteApplies (tn : JSTryNote) (pcOffset stackDepth : Z) : bool :=
  (tn_start tn <=? pcOffset) && (pcOffset <? (tn_start tn + tn_length tn) mod 2 ^ 32)
  && (tn_stackDepth tn <=? stackDepth).

(** Two stacks hold the same frames, each with its locals size, its callee
    token and its number of actual arguments.  The predecessor type stored
    in a header may have become an unwound type; the return address may
    differ only when [patched] is set (an on-stack recompilation patches
    return addresses). *)
Definition retagged (patched : bool) (stack stack' : Stack) : Prop :=
  forall a : Z,
    match stack !! a, stack' !! a with
    | Some h, Some h' =>
        prevFrameLocalSize h' = prevFrameLocalSize h /\
        calleeToken h' = calleeToken h /\
        numActualArgs h' = numActualArgs h /\
        (patched = false -> returnAddress h' = returnAddress h) /\
        (prevType h' = prevType h \/ isUnwound (prevType h') = true)
    | None, None => True
    | _, _ => False
    end.


(** A script whose table holds a loop note over [0, 40) and then a finally
    note over [10, 20), both at depth 2; the frame stands at the offset 15
    with two values on its stack, so that the first note does not apply. *)
Definition example_finally_notes : list JSTryNote :=
  [ {| tn_kind := JSTRY_LOOP; tn_stackDepth := 3; tn_start := 0; tn_length := 40 |};
    {| tn_kind := JSTRY_FINALLY; tn_stackDepth := 2; tn_start := 10; tn_length := 10 |} ].

Definition example_finally_unwind : Unwind :=
  example_unwind
    (example_heap (example_script None None (Some example_baseline)
                     (Some example_finally_notes))
       ∅ {[ 2000 := example_baseline_frame 0 None 3 ]} 0)
    ∅ true 1000.


(** The address in [jitTop] names an exit frame: a frame whose header
    stores the entry type or an unwound type. *)
Definition jitTop_is_exit (u : Unwind) : Prop :=
  exists h, u_stack u !! u_jitTop u = Some h /\
            (prevType h = JitFrame_Entry \/ isUnwound (prevType h) = true).

(** What unwinding does to the frames between two states: the frames are
    [retagged], and [jitTop] is as it was or names an exit frame. *)
Definition unwinds (patched : bool) (u u' : Unwind) : Prop :=
  retagged patched (u_stack u) (u_stack u') /\
  (u_jitTop u' = u_jitTop u \/ jitTop_is_exit u').

(** Collaborators that do to the frames no more than unwinding does. *)
Definition collaborators_unwind (patched : bool) (C : Collaborators) : Prop :=
  (forall it u, unwinds patched u (HandleExceptionIon_frames C it u)) /\
  (forall it u, unwinds patched u (Debugger_onExceptionUnwind C it u).1.2) /\
  (forall frame pc ok u, unwinds patched u (DebugEpilogue C frame pc ok u).2).


(** ** Frame slots *)

(** [OffsetOfFrameSlot]: the offset, in bytes, of a slot from the frame. *)
Definition OffsetOfFrameSlot (slot : Z) : Z := - slot.

(** The number of registers of a set whose code is above [r]: the
    registers the backward iterator yields before [r]. *)
Definition spilled_above (mask r : Z) : Z :=
  Z.of_nat (length (List.filter (Z.testbit mask) (rev (seqZ (r + 1) (31 - r))))).


(** ** The callee of a frame *)

(** The two tests on the tag of a callee token. *)
Definition CalleeTokenIsFunction (token : CalleeToken) : bool :=
  match token with
  | CalleeToken_Function _ | CalleeToken_FunctionConstructing _ => true
  | CalleeToken_Script _ => false
  end.

Definition CalleeTokenIsConstructing (token : CalleeToken) : bool :=
  match token with
  | CalleeToken_FunctionConstructing _ => true
  | _ => false
  end.

(** [JitFrameIterator::isFunctionFrame] and [JitFrameIterator::isConstructing],
    on the callee token of the header at the current address. *)
Definition isFunctionFrame (stack : Stack) (it : JitFrameIterator) : option bool :=
  (fun h => CalleeTokenIsFunction (calleeToken h)) <$> stack !! current_ it.

Definition isConstructing (stack : Stack) (it : JitFrameIterator) : option bool :=
  (fun h => CalleeTokenIsConstructing (calleeToken h)) <$> stack !! current_ it.

(** A collector that moves nothing. *)
Definition moves_nothing (trc : JSTracer) : Prop :=
  (forall p, trace_object trc p = p) /\ (forall p, trace_script trc p = p) /\
  (forall p, trace_gcthing trc p = p) /\ (forall v, trace_value trc v = v).


(** ** Register locations during a bailout *)

(** [MachineState::FromBailout]: every register is located in the array
    the bailout saved it to, the general registers one word apart from
    [regs], the floating-point registers one double apart from [fpregs]
    (the branch of the targets with one kind of floating-point register).
    The numbers of registers are declared outside these sources. *)
Definition FromBailout_regs (Registers_Total regs : Z) : list (Z * Z) :=
  map (fun i => (i, regs + 4 * i)) (seqZ 0 Registers_Total).

Definition FromBailout_fpregs (FloatRegisters_Total fpregs : Z) : list (Z * Z) :=
  map (fun i => (i, fpregs + 8 * i)) (seqZ 0 FloatRegisters_Total).

(** The allocations [allocationReadable] looks the registers of up: a
    double in a floating-point register, a typed payload in a register,
    and the four untyped combinations.  A typed payload is of one of the
    types [FromTypedPayload] takes. *)
Definition typeNeedsPayload (t : JSValueType) : bool :=
  match t with
  | JSVAL_TYPE_INT32 | JSVAL_TYPE_BOOLEAN | JSVAL_TYPE_STRING
  | JSVAL_TYPE_SYMBOL | JSVAL_TYPE_OBJECT => true
  | _ => false
  end.

Definition readsRegisters (alloc : RValueAllocation) : bool :=
  match alloc with
  | DOUBLE_REG _ | UNTYPED_REG_REG _ _ | UNTYPED_REG_STACK _ _
  | UNTYPED_STACK_REG _ _ | UNTYPED_STACK_STACK _ _ => true
  | TYPED_REG t _ => typeNeedsPayload t
  | _ => false
  end.

(** The registers an allocation names lie in the register files. *)
Definition registersBelow (Registers_Total FloatRegisters_Total : Z)
    (alloc : RValueAllocation) : Prop :=
  match alloc with
  | DOUBLE_REG f | FLOAT32_REG f => 0 <= f < FloatRegisters_Total
  | TYPED_REG _ r | UNTYPED_REG_STACK r _ | UNTYPED_STACK_REG _ r => 0 <= r < Registers_Total
  | UNTYPED_REG_REG r r2 => 0 <= r < Registers_Total /\ 0 <= r2 < Registers_Total
  | _ => True
  end.

(** A pointer-typed payload: what the collector may relocate. *)
Definition typeIsGCThing (t : JSValueType) : bool :=
  match t with
  | JSVAL_TYPE_STRING | JSVAL_TYPE_SYMBOL | JSVAL_TYPE_OBJECT => true
  | _ => false
  end.


(** ** The shape of registered results *)

(** Two states of the results of a frame that differ at most in the values
    stored: the frame, the initialization flag and the number of slots are
    the same. *)
Definition same_shape (r r' : RInstructionResults) : Prop :=
  frame_ r' = frame_ r /\ initialized_ r' = initialized_ r /\
  length <$> results_ r' = length <$> results_ r.


(** ** Aligning the area of spilled doubles *)

(** [alignDoubleSpillWithOffset] (the MIPS target): the arithmetic is on
    32-bit unsigned words; the constant [ABIStackAlignment] is declared
    outside these sources. *)
Definition alignDoubleSpillWithOffset (ABIStackAlignment pointer offset : Z) : Z :=
  Z.land ((pointer - offset) mod 2 ^ 32) (Z.lnot (ABIStackAlignment - 1) mod 2 ^ 32).

(** A collector that moves nothing, and a stack on which an exit frame was
    called from an optimized frame, that one through a rectifier from the
    entry frame. *)
Definition example_tracer_still : JSTracer :=
  {| trace_object := fun p => p; trace_script := fun p => p;
     trace_gcthing := fun p => p; trace_value := fun v => v |}.

Definition example_stack_rectifier : Stack :=
  {[ 1000 := example_header 6100 JitFrame_IonJS 24 (CalleeToken_Script 1);
     1032 := example_header 9000 JitFrame_Rectifier 0 (CalleeToken_Script 1);
     1048 := example_header 9500 JitFrame_Entry 0 (CalleeToken_Script 1) ]}.



(** ** The torn values of a safepoint *)

(** The addresses of the two halves of each torn value of a list, the tag
    first, in the order of the list. *)
Fixpoint nunboxAddresses (P : Platform) (hp : Heap) (stack : Stack) (it : JitFrameIterator)
    (l : list (LAllocation * LAllocation)) : option (list (Z * Z)) :=
  match l with
  | [] => Some []
  | tp :: rest =>
      t ← allocationAddress P hp stack it tp.1;
      p ← allocationAddress P hp stack it tp.2;
      l' ← nunboxAddresses P hp stack it rest;
      Some ((t, p) :: l')
  end.

(** Two words of memory that do not overlap. *)
Definition words_apart (a b : Z) : Prop := a + 4 <= b \/ b + 4 <= a.

(** The payload word of every entry lies apart from its tag word and from
    both words of every other entry. *)
Fixpoint payloads_apart (l : list (Z * Z)) : Prop :=
  match l with
  | [] => True
  | e :: rest =>
      words_apart e.1 e.2 /\
      Forall (fun e' => words_apart e.2 e'.1 /\ words_apart e.2 e'.2 /\
                        words_apart e'.2 e.1) rest /\
      payloads_apart rest
  end.

(** The value built from the tag word and the payload word found at the
    two addresses of an entry. *)
Definition tornValueAt (m : Mem) (e : Z * Z) : Z :=
  IMPL_TO_JSVAL {| s_tag := load32 m e.1; s_payload := load32 m e.2 |}.

(** The payload word after the collector has seen the value: the old word
    when the value stays, the low word of the relocated value otherwise. *)
Definition payloadAfter (trc : JSTracer) (m : Mem) (e : Z * Z) : Z :=
  if decide (trace_value trc (tornValueAt m e) = tornValueAt m e)
  then load32 m e.2
  else Z.land (trace_value trc (tornValueAt m e)) (2 ^ 32 - 1).

(** * Properties *)

(** ** Stepping *)

Lemma operator_incr_entry P (stack : Stack) it h :
  stack !! current_ it = Some h ->
  prevType h = JitFrame_Entry ->
  operator_incr P stack it =
    Some {| current_ := current_ it; type_ := JitFrame_Entry;
            returnAddressToFp_ := returnAddressToFp_ it;
            frameSize_ := prevFrameLocalSize h;
            mode_ := mode_ it; cachedSafepointIndex_ := None;
            bailoutData := bailoutData it |}.
Proof.
  intros Hh Hp. unfold operator_incr. rewrite Hh. simpl.
  destruct (decide (prevType h = JitFrame_Entry)); [reflexivity | contradiction].
Qed.

Lemma operator_incr_mode P (stack : Stack) it it' :
  operator_incr P stack it = Some it' -> mode_ it' = mode_ it.
Proof.
  unfold operator_incr. intros H.
  destruct (stack !! current_ it) as [h|]; simpl in H; [|discriminate].
  destruct (decide (prevType h = JitFrame_Entry)).
  - injection H as <-. reflexivity.
  - destruct (prevFp P it h); simpl in H; [|discriminate].
    injection H as <-. reflexivity.
Qed.

Lemma operator_incr_to_entry P (stack : Stack) it it' :
  operator_incr P stack it = Some it' ->
  type_ it' = JitFrame_Entry ->
  current_ it' = current_ it /\
  exists h, stack !! current_ it = Some h /\ prevType h = JitFrame_Entry.
Proof.
  unfold operator_incr. intros H Ht.
  destruct (stack !! current_ it) as [h|]; simpl in H; [|discriminate].
  destruct (decide (prevType h = JitFrame_Entry)) as [e|n].
  - injection H as <-. simpl. eauto.
  - destruct (prevFp P it h); simpl in H; [|discriminate].
    injection H as <-. simpl in Ht.
    destruct (prevType h); congruence.
Qed.

Lemma operator_incr_type P (stack : Stack) it it' :
  operator_incr P stack it = Some it' -> type_ it' <> JitFrame_Unwound_BaselineStub.
Proof.
  unfold operator_incr. intros H.
  destruct (stack !! current_ it) as [h|]; simpl in H; [|discriminate].
  destruct (decide (prevType h = JitFrame_Entry)).
  - injection H as <-. discriminate.
  - destruct (prevFp P it h); simpl in H; [|discriminate].
    injection H as <-. simpl. destruct (prevType h); discriminate.
Qed.

Lemma steps_type P (stack : Stack) n : forall it it',
  type_ it <> JitFrame_Unwound_BaselineStub ->
  steps P stack n it = Some it' -> type_ it' <> JitFrame_Unwound_BaselineStub.
Proof.
  induction n as [|n IH]; intros it it' Ht H; simpl in H.
  - injection H as <-. exact Ht.
  - destruct (operator_incr P stack it) as [it1|] eqn:H1; simpl in H; [|discriminate].
    apply (IH it1 it'); [|exact H]. eapply operator_incr_type. exact H1.
Qed.

Lemma JitFrameIterator_new_type forkJoin top bd :
  type_ (JitFrameIterator_new forkJoin top bd) <> JitFrame_Unwound_BaselineStub.
Proof. destruct bd; discriminate. Qed.

Lemma safepoint_type hp (stack : Stack) it si it' :
  safepoint hp stack it = Some (si, it') -> type_ it' = type_ it.
Proof.
  unfold safepoint. intros H.
  destruct (cachedSafepointIndex_ it) as [c|].
  - injection H as _ <-. reflexivity.
  - destruct (ionScript hp stack it) as [p|]; cbn [mbind option_bind] in H; [|discriminate].
    destruct (ionScripts hp !! p) as [s|]; cbn [mbind option_bind] in H; [|discriminate].
    destruct (getSafepointIndex s (returnAddressToFp_ it)) as [x|];
      cbn [mbind option_bind] in H; [|discriminate].
    injection H as _ <-. reflexivity.
Qed.

(** A call of [safepoint] leaves the index it returns in the cache, and
    what is read through the iterator afterwards is what was read before:
    the same index, the same spill base, the same machine state. *)
Lemma safepoint_fills_cache hp (stack : Stack) it si it' :
  safepoint hp stack it = Some (si, it') ->
  cachedSafepointIndex_ it' = Some si /\
  safepoint hp stack it' = Some (si, it') /\
  spillBase hp stack it' = spillBase hp stack it /\
  machineState hp stack it' = machineState hp stack it.
Proof.
  intros H.
  assert (Hit : cachedSafepointIndex_ it' = Some si /\
                (it' = it \/ it' = set_cachedSafepointIndex it (Some si))).
  { unfold safepoint in H.
    destruct (cachedSafepointIndex_ it) as [c|] eqn:Hc.
    - injection H as <- <-. split; [exact Hc | left; reflexivity].
    - destruct (ionScript hp stack it) as [q|]; cbn [mbind option_bind] in H; [|discriminate].
      destruct (ionScripts hp !! q) as [s|]; cbn [mbind option_bind] in H; [|discriminate].
      destruct (getSafepointIndex s (returnAddressToFp_ it)) as [x|];
        cbn [mbind option_bind] in H; [|discriminate].
      injection H as <- <-. split; [reflexivity | right; reflexivity]. }
  destruct Hit as [Hcache Hit].
  assert (Hagain : safepoint hp stack it' = Some (si, it')).
  { unfold safepoint. rewrite Hcache. reflexivity. }
  assert (Hbase : spillBase hp stack it' = spillBase hp stack it).
  { destruct Hit as [->| ->]; reflexivity. }
  split; [exact Hcache|]. split; [exact Hagain|]. split; [exact Hbase|].
  unfold machineState. rewrite Hagain, H, Hbase.
  destruct Hit as [->| ->]; reflexivity.
Qed.

Lemma visits_type P hp (stack : Stack) it :
  visits P hp stack it -> type_ it <> JitFrame_Unwound_BaselineStub.
Proof.
  induction 1 as [forkJoin top bd | it it' _ IH Hstep | it si it' _ IH Hsp].
  - apply JitFrameIterator_new_type.
  - eapply operator_incr_type. exact Hstep.
  - rewrite (safepoint_type hp stack it si it' Hsp). exact IH.
Qed.

(** C6 (as amended).  In every state of an iterator, whether its cache of
    the safepoint index is empty or has been filled by a call of
    [safepoint], a step to the caller leaves the cache empty and takes the
    size of the caller's locals and the caller's type from the descriptor
    stored in the current frame.  When the stored type is the entry frame,
    the type becomes the entry type and the address is left as it is.
    Otherwise the new address is the current address, plus the header size
    of the current type (of an optimized frame when the current frame is a
    fake exit frame), plus the locals size of the descriptor; the stored
    tags unwound-IonJS, unwound-BaselineJS and unwound-BaselineStub are
    exposed as the plain tags, and the unwound-rectifier tag is exposed as
    it is. *)
Theorem operator_incr_step P hp (stack : Stack) it h :
  visits P hp stack it ->
  stack !! current_ it = Some h ->
  exists it' sz,
    operator_incr P stack it = Some it' /\
    SizeOfFramePrefix P (type_ it) = Some sz /\
    cachedSafepointIndex_ it' = None /\
    frameSize_ it' = prevFrameLocalSize h /\
    (prevType h = JitFrame_Entry ->
       type_ it' = JitFrame_Entry /\ current_ it' = current_ it) /\
    (prevType h <> JitFrame_Entry ->
       current_ it' =
         current_ it +
         ((if isFakeExitFrame P (type_ it) (prevType h)
           then JitFrameLayout_Size P else sz) + prevFrameLocalSize h) /\
       returnAddressToFp_ it' = returnAddress h /\
       type_ it' =
         (if decide (prevType h = JitFrame_Unwound_Rectifier)
          then JitFrame_Unwound_Rectifier
          else plain_of_unwound (prevType h))).
Proof.
  intros Hvisits Hh.
  pose proof (visits_type P hp stack it Hvisits) as Ht.
  assert (Hsz : exists sz, SizeOfFramePrefix P (type_ it) = Some sz).
  { destruct (type_ it); simpl; eauto; contradiction. }
  destruct Hsz as [sz Hsz].
  destruct (decide (prevType h = JitFrame_Entry)) as [He|Hne].
  - eexists _, sz. rewrite (operator_incr_entry P stack it h Hh He). simpl.
    repeat split; auto; contradiction.
  - unfold operator_incr, prevFp. rewrite Hh. simpl.
    destruct (decide (prevType h = JitFrame_Entry)); [contradiction|].
    rewrite Hsz. simpl.
    destruct (isFakeExitFrame P (type_ it) (prevType h)); simpl;
      eexists _, sz; (split; [reflexivity|]); simpl;
      (repeat split; auto; try contradiction);
      destruct (prevType h); simpl; try reflexivity; contradiction.
Qed.

(** The iterator has stepped from the exit frame at 1000 to the optimized
    frame at 1032 and a call of [safepoint] has filled its cache; the step
    to the caller, a rectifier frame, empties it. *)
Lemma operator_incr_step_witness :
  cachedSafepointIndex_ (set_cachedSafepointIndex example_ion_iterator (Some example_safepoint))
    = Some example_safepoint /\
  exists it' sz,
    operator_incr example_platform example_stack_rectifier
      (set_cachedSafepointIndex example_ion_iterator (Some example_safepoint)) = Some it' /\
    SizeOfFramePrefix example_platform JitFrame_IonJS = Some sz /\
    cachedSafepointIndex_ it' = None /\
    frameSize_ it' = 0 /\
    (JitFrame_Rectifier = JitFrame_Entry ->
       type_ it' = JitFrame_Entry /\ current_ it' = 1032) /\
    (JitFrame_Rectifier <> JitFrame_Entry ->
       current_ it' = 1032 + ((if false then 16 else sz) + 0) /\
       returnAddressToFp_ it' = 9000 /\
       type_ it' = JitFrame_Rectifier).
Proof.
  split; [reflexivity|].
  apply (operator_incr_step example_platform example_heap_ion example_stack_rectifier
           (set_cachedSafepointIndex example_ion_iterator (Some example_safepoint))
           (example_header 9000 JitFrame_Rectifier 0 (CalleeToken_Script 1))).
  - apply (visits_safepoint _ _ _ example_ion_iterator example_safepoint);
      [|vm_compute; reflexivity].
    apply (visits_step _ _ _ (JitFrameIterator_new false 1000 None)); [|reflexivity].
    apply visits_new.
  - reflexivity.
Defined.

(** C6 (as stated) fails: a stored unwound-rectifier tag is not translated
    back to the rectifier tag; the iterator exposes it as it is. *)
Lemma operator_incr_keeps_unwound_rectifier :
  exists it',
    operator_incr example_platform example_stack_unwound_rectifier
      (example_iterator 1000 JitFrame_Exit 0 SequentialExecution None) = Some it' /\
    type_ it' = JitFrame_Unwound_Rectifier /\
    type_ it' <> plain_of_unwound JitFrame_Unwound_Rectifier.
Proof.
  eexists. split; [reflexivity|]. simpl. split; [reflexivity | discriminate].
Qed.

(** ** The invalidation check in parallel mode *)

Lemma JitFrameIterator_new_mode (forkJoin : bool) top bd :
  mode_ (JitFrameIterator_new forkJoin top bd) =
    (if forkJoin then ParallelExecution else SequentialExecution).
Proof. destruct bd; reflexivity. Qed.

Lemma steps_mode P (stack : Stack) n : forall it it',
  steps P stack n it = Some it' -> mode_ it' = mode_ it.
Proof.
  induction n as [|n IH]; intros it it' H; simpl in H.
  - injection H as <-. reflexivity.
  - destruct (operator_incr P stack it) as [it1|] eqn:H1; simpl in H; [|discriminate].
    rewrite (IH _ _ H). eapply operator_incr_mode. exact H1.
Qed.

Lemma checkInvalidation_parallel_mode hp (stack : Stack) it sc :
  mode_ it = ParallelExecution ->
  type_ it <> JitFrame_Bailout ->
  script hp stack it = Some sc ->
  checkInvalidation hp stack it = Some (false, None).
Proof.
  intros Hm Ht Hs.
  unfold checkInvalidation. rewrite Hs. simpl.
  unfold isBailoutJS. rewrite bool_decide_eq_false_2 by assumption.
  rewrite Hm. simpl. reflexivity.
Qed.

(** An iterator constructed in parallel mode stays in parallel mode however
    many steps it takes, and on every frame it stands on that is not the
    frame of a bailout in progress, its invalidation check answers false
    and stores nothing through its out-parameter. *)
Lemma checkInvalidation_parallel P hp (stack : Stack) top bd n it sc :
  steps P stack n (JitFrameIterator_new true top bd) = Some it ->
  type_ it <> JitFrame_Bailout ->
  script hp stack it = Some sc ->
  mode_ it = ParallelExecution /\
  checkInvalidation hp stack it = Some (false, None).
Proof.
  intros Hsteps Ht Hs.
  assert (Hm : mode_ it = ParallelExecution).
  { rewrite (steps_mode P stack n _ _ Hsteps). apply JitFrameIterator_new_mode. }
  split; [exact Hm|].
  apply (checkInvalidation_parallel_mode hp stack it sc Hm Ht Hs).
Qed.

(** C7.  The check does answer true in parallel mode, on the frame of a
    bailout in progress: an iterator that a fork-join context constructs
    while the activation has bailout data is in parallel mode and stands on
    a frame of type bailout; there the check never looks at the mode, it
    compares the artifact of the bailout, here the parallel artifact 7200
    of the callee, with the artifact the callee holds for sequential
    execution, 7000, and reports the frame as invalidated. *)
Lemma checkInvalidation_parallel_bailout_frame :
  mode_ example_parallel_bailout_iterator = ParallelExecution /\
  type_ example_parallel_bailout_iterator = JitFrame_Bailout /\
  script example_heap_parallel (example_stack_one_frame JitFrame_Entry)
    example_parallel_bailout_iterator
    = Some (example_script (Some 7000) (Some 7200) None None) /\
  bailout_ionScript <$> bailoutData example_parallel_bailout_iterator = Some 7200 /\
  checkInvalidation example_heap_parallel (example_stack_one_frame JitFrame_Entry)
    example_parallel_bailout_iterator = Some (true, Some 7200).
Proof. repeat split; reflexivity. Qed.

(** ** The bytecode position of a baseline frame *)

(** C3.  The pc of a baseline frame is the first answer among, in this
    order: the override pc left by scope unwinding, the pc recorded for
    debug mode OSR, the start of the script when the return address is the
    prologue entry or the post-debug-prologue address, the pc of the
    inline-cache entry for the return address, and the PC-mapping table. *)
Theorem baselineScriptAndPc_first_match hp (stack : Stack) it sc bf b :
  script hp stack it = Some sc ->
  baselineFrames hp !! fp it = Some bf ->
  baseline sc = Some b ->
  baselineScriptAndPc hp stack it true =
    Some (first_match (pc_resolution_order sc b bf (returnAddressToFp_ it))).
Proof.
  intros Hs Hbf Hb. unfold baselineScriptAndPc, pc_resolution_order.
  rewrite Hs. simpl. rewrite Hbf. simpl.
  destruct (unwoundScopeOverridePc bf =? 0) eqn:Ho; simpl; [|reflexivity].
  destruct (debugModeOSRInfo bf) as [info|]; simpl; [reflexivity|].
  rewrite Hb. simpl.
  destruct ((returnAddressToFp_ it =? prologueEntryAddr b)
            || (returnAddressToFp_ it =? postDebugPrologueAddr b)); simpl; [reflexivity|].
  destruct (maybeICEntryFromReturnAddress b (returnAddressToFp_ it)); reflexivity.
Qed.

Lemma baselineScriptAndPc_first_match_witness :
  baselineScriptAndPc
    (example_heap (example_script None None (Some example_baseline) None) ∅
       {[ 2000 := example_baseline_frame 0 None 3 ]} 0)
    ∅ (example_iterator 2000 JitFrame_BaselineJS 6100 SequentialExecution None) true
  = Some (first_match
            (pc_resolution_order (example_script None None (Some example_baseline) None)
               example_baseline (example_baseline_frame 0 None 3) 6100)).
Proof.
  apply (baselineScriptAndPc_first_match _ ∅
           (example_iterator 2000 JitFrame_BaselineJS 6100 SequentialExecution None)
           (example_script None None (Some example_baseline) None)
           (example_baseline_frame 0 None 3) example_baseline); reflexivity.
Defined.

(** ** Unwinding to the entry frame *)

Lemma HandleException_loop_walks P C it0 u0 itL uL n :
  walks P C it0 u0 itL uL n ->
  forall k, HandleException_loop P C (n + k) it0 u0 = HandleException_loop P C k itL uL.
Proof.
  induction 1 as [|it u it1 u1 it2 u2 n Hentry Hframe Hwalks IH]; intros k.
  - reflexivity.
  - simpl. rewrite Hentry, Hframe. simpl. apply IH.
Qed.

(** C10.  When the predecessor type stored in the current frame is the
    entry frame, the step to the caller makes the iterator's type the entry
    type and leaves its frame pointer where it was.  So when the exception
    handler has walked to the entry state without resuming anywhere, the
    stack pointer it resumes with, [fp()] of the iterator on the entry
    state, is the address of the last frame it left. *)
Theorem HandleException_resumes_at_last_frame P C bd u0 itL uL n uL' h :
  walks P C (JitFrameIterator_new false (u_jitTop u0) bd)
    (set_rfe u0 (set_rfe_kind (u_rfe u0) RESUME_ENTRY_FRAME)) itL uL n ->
  isEntry itL = false ->
  HandleException_handlers P C itL uL = Some (Fallthrough uL') ->
  u_stack uL' !! current_ itL = Some h ->
  prevType h = JitFrame_Entry ->
  (isScripted itL = true -> jsFrame itL = Some (fp itL)) ->
  exists itE,
    operator_incr P (u_stack uL') itL = Some itE /\
    type_ itE = JitFrame_Entry /\
    fp itE = fp itL /\
    forall fuel, (n + 2 <= fuel)%nat ->
      exists uF, HandleException P C fuel bd u0 = Some uF /\
                 rfe_kind (u_rfe uF) = rfe_kind (u_rfe uL') /\
                 rfe_stackPointer (u_rfe uF) = fp itE.
Proof.
  intros Hwalks HnotEntry Hhandlers Hh Hprev Hjs.
  pose proof (operator_incr_entry P (u_stack uL') itL h Hh Hprev) as Hincr.
  eexists. split; [exact Hincr|]. simpl. split; [reflexivity|]. split; [reflexivity|].
  intros fuel Hfuel.
  replace fuel with (n + S (S (fuel - n - 2)))%nat by lia.
  unfold HandleException. cbv zeta.
  change (u_jitTop (set_rfe u0 (set_rfe_kind (u_rfe u0) RESUME_ENTRY_FRAME)))
    with (u_jitTop u0).
  rewrite (HandleException_loop_walks P C _ _ itL uL n Hwalks).
  cbn [HandleException_loop]. rewrite HnotEntry.
  unfold HandleException_frame. rewrite Hhandlers. cbn [mbind option_bind].
  destruct (isScripted itL) eqn:Hscripted.
  - rewrite (Hjs eq_refl). cbn [fmap option_fmap option_map mbind option_bind].
    rewrite Hincr. cbn [mbind option_bind]. unfold fp. rewrite Hh.
    cbn [mbind option_bind]. unfold isEntry. simpl.
    eexists. split; [reflexivity|]. simpl. split; reflexivity.
  - cbn [mbind option_bind]. rewrite Hincr. cbn [mbind option_bind].
    unfold isEntry. simpl.
    eexists. split; [reflexivity|]. simpl. split; reflexivity.
Qed.

Lemma HandleException_resumes_at_last_frame_witness :
  exists itE,
    operator_incr example_platform (u_stack example_unwind_exit_ion) example_ion_iterator
      = Some itE /\
    type_ itE = JitFrame_Entry /\
    fp itE = fp example_ion_iterator /\
    forall fuel, (1 + 2 <= fuel)%nat ->
      exists uF,
        HandleException example_platform (example_collaborators false) fuel None
          example_unwind_exit_ion = Some uF /\
        rfe_kind (u_rfe uF) = rfe_kind (u_rfe example_unwind_exit_ion) /\
        rfe_stackPointer (u_rfe uF) = fp itE.
Proof.
  apply (HandleException_resumes_at_last_frame example_platform (example_collaborators false)
           None example_unwind_exit_ion
           example_ion_iterator example_unwind_exit_ion 1 example_unwind_exit_ion
           (example_header 9000 JitFrame_Entry 0 (CalleeToken_Script 1))).
  - apply (walks_step _ _ _ _ example_ion_iterator example_unwind_exit_ion);
      [reflexivity | reflexivity | apply walks_here].
  - reflexivity.
  - reflexivity.
  - reflexivity.
  - reflexivity.
  - intros _. reflexivity.
Defined.

(** Three turns of the loop are enough for the example stack, two are not. *)
Example HandleException_example_stackPointer :
  (fun u => (rfe_kind (u_rfe u), rfe_stackPointer (u_rfe u))) <$>
    HandleException example_platform (example_collaborators false) 3 None
      example_unwind_exit_ion
  = Some (RESUME_ENTRY_FRAME, 1032).
Proof. vm_compute. reflexivity. Qed.

Example HandleException_example_out_of_fuel :
  HandleException example_platform (example_collaborators false) 2 None
    example_unwind_exit_ion = None.
Proof. vm_compute. reflexivity. Qed.

(** ** Stack memory *)

Lemma store8_other (m : Mem) a v x : x <> a -> store8 m a v x = m x.
Proof. intros H. unfold store8. destruct (decide (x = a)); [contradiction | reflexivity]. Qed.

Lemma store8_same (m : Mem) a v : store8 m a v a = Z.land v 255.
Proof. unfold store8. destruct (decide (a = a)); [reflexivity | contradiction]. Qed.

Lemma store32_outside (m : Mem) a v x :
  x < a \/ a + 4 <= x -> store32 m a v x = m x.
Proof.
  intros H. unfold store32. rewrite !store8_other by lia. reflexivity.
Qed.

Lemma store64_outside (m : Mem) a v x :
  x < a \/ a + 8 <= x -> store64 m a v x = m x.
Proof.
  intros H. unfold store64. rewrite !store32_outside by lia. reflexivity.
Qed.

Lemma load32_agree (m m' : Mem) b :
  (forall x, b <= x < b + 4 -> m' x = m x) -> load32 m' b = load32 m b.
Proof.
  intros H. unfold load32, load8. rewrite !H by lia. reflexivity.
Qed.

Lemma load32_store32_disjoint (m : Mem) a v b :
  b + 4 <= a \/ a + 4 <= b -> load32 (store32 m a v) b = load32 m b.
Proof.
  intros H. apply load32_agree. intros x Hx. apply store32_outside. lia.
Qed.

Ltac bits_step :=
  first
    [ rewrite Z.lor_spec | rewrite Z.land_spec
    | match goal with
      | |- context [Z.testbit ?x ?i] => rewrite (Z.testbit_neg_r x i) by lia
      | |- context [Z.testbit (Z.shiftl ?x ?k) ?i] => rewrite (Z.shiftl_spec x k i) by lia
      | |- context [Z.testbit (Z.shiftr ?x ?k) ?i] => rewrite (Z.shiftr_spec x k i) by lia
      | |- context [Z.testbit (Z.ones ?k) ?i] => rewrite (Z.testbit_ones_nonneg k i) by lia
      end ].

Ltac bits_by_cases :=
  repeat bits_step;
  repeat match goal with
         | |- context [?a <? ?b] => destruct (Z.ltb_spec a b); try lia
         end;
  repeat first
    [ rewrite andb_false_r | rewrite andb_true_r
    | rewrite orb_false_r | rewrite orb_false_l | rewrite andb_false_l ];
  try reflexivity; try (f_equal; lia).

Lemma bytes_of_word v :
  Z.lor (Z.land (Z.land v 255) 255)
    (Z.lor (Z.shiftl (Z.land (Z.land (Z.shiftr v 8) 255) 255) 8)
       (Z.lor (Z.shiftl (Z.land (Z.land (Z.shiftr v 16) 255) 255) 16)
          (Z.shiftl (Z.land (Z.land (Z.shiftr v 24) 255) 255) 24)))
  = Z.land v (2 ^ 32 - 1).
Proof.
  change 255 with (Z.ones 8). change (2 ^ 32 - 1) with (Z.ones 32).
  apply Z.bits_inj'. intros n Hn.
  destruct (Z.lt_ge_cases n 8); [|destruct (Z.lt_ge_cases n 16);
    [|destruct (Z.lt_ge_cases n 24); [|destruct (Z.lt_ge_cases n 32)]]];
  bits_by_cases.
Qed.

Lemma load32_store32_same (m : Mem) a v :
  load32 (store32 m a v) a = Z.land v (2 ^ 32 - 1).
Proof.
  unfold load32, load8, store32.
  rewrite (store8_other _ (a + 3)), (store8_other _ (a + 2)), (store8_other _ (a + 1)),
    (store8_same _ a) by lia.
  rewrite (store8_other _ (a + 3) _ (a + 1)), (store8_other _ (a + 2) _ (a + 1)),
    (store8_same _ (a + 1)) by lia.
  rewrite (store8_other _ (a + 3) _ (a + 2)), (store8_same _ (a + 2)) by lia.
  rewrite (store8_same _ (a + 3)).
  apply bytes_of_word.
Qed.

Lemma load32_store64_low (m : Mem) a v :
  load32 (store64 m a v) a = Z.land v (2 ^ 32 - 1).
Proof.
  unfold store64. rewrite load32_store32_disjoint by lia. apply load32_store32_same.
Qed.

Lemma load32_range (m : Mem) a : 0 <= load32 m a < 2 ^ 32.
Proof.
  assert (H : load32 m a = Z.land (load32 m a) (Z.ones 32)).
  { unfold load32, load8. change 255 with (Z.ones 8).
    apply Z.bits_inj'. intros n Hn.
    destruct (Z.lt_ge_cases n 8); [|destruct (Z.lt_ge_cases n 16);
      [|destruct (Z.lt_ge_cases n 24); [|destruct (Z.lt_ge_cases n 32)]]];
    bits_by_cases. }
  rewrite H. rewrite Z.land_ones by lia. apply Z.mod_pos_bound. lia.
Qed.

Lemma IMPL_TO_JSVAL_halves tag payload :
  0 <= tag < 2 ^ 32 -> 0 <= payload < 2 ^ 32 ->
  Z.shiftr (IMPL_TO_JSVAL {| s_tag := tag; s_payload := payload |}) 32 = tag /\
  Z.land (IMPL_TO_JSVAL {| s_tag := tag; s_payload := payload |}) (2 ^ 32 - 1) = payload.
Proof.
  intros Ht Hp. unfold IMPL_TO_JSVAL. simpl.
  assert (Hpay : Z.shiftr payload 32 = 0).
  { rewrite Z.shiftr_div_pow2 by lia. apply Z.div_small. lia. }
  split.
  - rewrite Z.shiftr_lor, Z.shiftr_shiftl_l by lia. rewrite Hpay.
    rewrite Z.sub_diag, Z.shiftl_0_r, Z.lor_0_r. reflexivity.
  - change (2 ^ 32 - 1) with (Z.ones 32).
    rewrite Z.land_lor_distr_l.
    rewrite !Z.land_ones by lia.
    rewrite Z.shiftl_mul_pow2 by lia. rewrite Z.mod_mul by lia.
    rewrite Z.lor_0_l. apply Z.mod_small. lia.
Qed.

(** ** Torn values *)

Lemma IMPL_TO_JSVAL_loads (m : Mem) a b :
  Z.shiftr (IMPL_TO_JSVAL {| s_tag := load32 m a; s_payload := load32 m b |}) 32
    = load32 m a /\
  Z.land (IMPL_TO_JSVAL {| s_tag := load32 m a; s_payload := load32 m b |}) (2 ^ 32 - 1)
    = load32 m b.
Proof. apply IMPL_TO_JSVAL_halves; apply load32_range. Qed.

Lemma markNunboxSlot_payload_only P hp trc it st type payload t p :
  allocationAddress P hp (gc_stack st) it type = Some t ->
  allocationAddress P hp (gc_stack st) it payload = Some p ->
  t + 4 <= p \/ p + 4 <= t ->
  let v := IMPL_TO_JSVAL {| s_tag := load32 (gc_mem st) t;
                            s_payload := load32 (gc_mem st) p |} in
  exists st',
    markNunboxSlot P hp trc it st (type, payload) = Some st' /\
    gc_log st' = gc_log st ++ [Ev_TornValue v] /\
    gc_stack st' = gc_stack st /\
    only_word_written (gc_mem st) (gc_mem st') p /\
    load32 (gc_mem st') t = load32 (gc_mem st) t /\
    (trace_value trc v <> v ->
       load32 (gc_mem st') p = Z.land (trace_value trc v) (2 ^ 32 - 1)) /\
    (trace_value trc v = v -> gc_mem st' = gc_mem st).
Proof.
  intros Ht Hp Hsep v.
  unfold markNunboxSlot, ReadAllocation. cbn [fst snd].
  rewrite Ht, Hp. cbn [fmap option_fmap option_map mbind option_bind].
  fold v.
  destruct (decide (trace_value trc v = v)) as [Heq|Hne].
  - eexists. split; [reflexivity|]. cbn.
    repeat split; try reflexivity; intros; try reflexivity; contradiction.
  - unfold WriteAllocation. cbn [logEvent gc_stack gc_mem gc_log].
    rewrite Hp. cbn [mbind option_bind].
    eexists. split; [reflexivity|]. cbn [gc_stack gc_mem gc_log].
    split; [reflexivity|]. split; [reflexivity|].
    split; [intros x Hx; apply store32_outside; exact Hx|].
    split; [apply load32_store32_disjoint; lia|].
    split; [intros _|intros; contradiction].
    rewrite load32_store32_same. cbn [JSVAL_TO_IMPL s_payload].
    rewrite <- Z.land_assoc, Z.land_diag. reflexivity.
Qed.

Lemma hasRegister_located s reg a : regLocation (machine_ s) reg = Some a -> hasRegister s reg = true.
Proof. intros H. unfold hasRegister. apply bool_decide_eq_true_2. rewrite H. eauto. Qed.

Lemma traceAllocation_untyped_payload_only V trc s fs alloc rm t p :
  untyped_locations s alloc = Some (t, p) ->
  t + 4 <= p \/ p + 4 <= t ->
  let v := IMPL_TO_JSVAL {| s_tag := load32 (fs_mem fs) t;
                            s_payload := load32 (fs_mem fs) p |} in
  allocationValue V s fs alloc rm = Some v /\
  exists fs',
    traceAllocation V trc s false alloc fs = Some fs' /\
    fs_constants fs' = fs_constants fs /\
    only_word_written (fs_mem fs) (fs_mem fs') p /\
    load32 (fs_mem fs') t = load32 (fs_mem fs) t /\
    (isMarkable V v = true -> trace_value trc v <> v ->
       load32 (fs_mem fs') p = Z.land (trace_value trc v) (2 ^ 32 - 1)).
Proof.
  intros Hloc Hsep v.
  assert (Hval : forall rm', allocationValue V s fs alloc rm' = Some v).
  { intros rm'. destruct alloc; try discriminate; cbn in Hloc |- *;
      unfold fromRegister, fromStack, ReadFrameSlot;
      repeat match type of Hloc with
             | context [regLocation ?m ?r] => destruct (regLocation m r); try discriminate
             end; cbn in Hloc |- *; injection Hloc as <- <-; reflexivity. }
  split; [apply Hval|].
  assert (Hread : allocationReadable s false alloc RM_AlwaysDefault = true).
  { destruct alloc; try discriminate; cbn in Hloc |- *;
      repeat match type of Hloc with
             | context [regLocation (machine_ s) ?r] =>
                 let H := fresh in
                 destruct (regLocation (machine_ s) r) eqn:H; try discriminate;
                 rewrite (hasRegister_located s r _ H)
             end; reflexivity. }
  assert (Hwrite : forall w,
            exists fs', writeAllocationValuePayload s fs alloc w = Some fs' /\
                        fs_constants fs' = fs_constants fs /\
                        fs_mem fs' = store32 (fs_mem fs) p (Z.land w (2 ^ 32 - 1))).
  { intros w. destruct alloc; try discriminate; cbn in Hloc |- *;
      unfold machine_write, WriteFrameSlot;
      repeat match type of Hloc with
             | context [regLocation ?m ?r] => destruct (regLocation m r); try discriminate
             end; cbn in Hloc |- *; injection Hloc as <- <-;
      eexists; split; try reflexivity; split; reflexivity. }
  unfold traceAllocation. rewrite Hread, Hval. cbn [negb mbind option_bind].
  destruct (isMarkable V v) eqn:Hmark; cbn [negb].
  2:{ exists fs. repeat split; try reflexivity; intros; try reflexivity; discriminate. }
  destruct (decide (trace_value trc v = v)) as [Heq|Hne].
  - exists fs. repeat split; try reflexivity; intros; try reflexivity; contradiction.
  - destruct (Hwrite (trace_value trc v)) as (fs' & Hw & Hc & Hm).
    exists fs'. split; [exact Hw|]. split; [exact Hc|]. rewrite Hm.
    split; [intros x Hx; apply store32_outside; exact Hx|].
    split; [apply load32_store32_disjoint; lia|].
    intros _ _. rewrite load32_store32_same.
    rewrite <- Z.land_assoc, Z.land_diag. reflexivity.
Qed.

Lemma markNunboxSlot_step P hp trc it st tp t p :
  allocationAddress P hp (gc_stack st) it tp.1 = Some t ->
  allocationAddress P hp (gc_stack st) it tp.2 = Some p ->
  let v := tornValueAt (gc_mem st) (t, p) in
  exists st',
    markNunboxSlot P hp trc it st tp = Some st' /\
    gc_stack st' = gc_stack st /\
    gc_log st' = gc_log st ++ [Ev_TornValue v] /\
    gc_mem st' =
      (if decide (trace_value trc v = v) then gc_mem st
       else store32 (gc_mem st) p (Z.land (trace_value trc v) (2 ^ 32 - 1))).
Proof.
  intros Ht Hp v. unfold markNunboxSlot, ReadAllocation.
  rewrite Ht, Hp. cbn [fmap option_fmap option_map mbind option_bind].
  change (IMPL_TO_JSVAL {| s_tag := load32 (gc_mem st) t; s_payload := load32 (gc_mem st) p |})
    with v.
  destruct (decide (trace_value trc v = v)) as [Heq|Hne].
  - eexists. split; [reflexivity|]. repeat split.
  - unfold WriteAllocation. cbn [logEvent gc_stack gc_mem gc_log].
    rewrite Hp. cbn [mbind option_bind].
    eexists. split; [reflexivity|]. repeat split.
Qed.

Lemma tornValueAt_agree (m m' : Mem) e :
  load32 m' e.1 = load32 m e.1 -> load32 m' e.2 = load32 m e.2 ->
  tornValueAt m' e = tornValueAt m e.
Proof. intros H1 H2. unfold tornValueAt. rewrite H1, H2. reflexivity. Qed.

Lemma payloadAfter_agree trc (m m' : Mem) e :
  load32 m' e.1 = load32 m e.1 -> load32 m' e.2 = load32 m e.2 ->
  payloadAfter trc m' e = payloadAfter trc m e.
Proof.
  intros H1 H2. unfold payloadAfter.
  rewrite (tornValueAt_agree m m' e H1 H2), H2. reflexivity.
Qed.

(** The loop over the torn values of a safepoint, on the addresses of
    their halves. *)
Lemma markNunboxSlots_payload_only P hp trc it : forall pairs addrs st,
  nunboxAddresses P hp (gc_stack st) it pairs = Some addrs ->
  exists st',
    forEachM (markNunboxSlot P hp trc it) pairs st = Some st' /\
    gc_stack st' = gc_stack st /\
    (forall x, Forall (fun e => x < e.2 \/ e.2 + 4 <= x) addrs ->
               gc_mem st' x = gc_mem st x) /\
    (payloads_apart addrs ->
       gc_log st' =
         gc_log st ++ map (fun e => Ev_TornValue (tornValueAt (gc_mem st) e)) addrs /\
       Forall (fun e => load32 (gc_mem st') e.1 = load32 (gc_mem st) e.1 /\
                        load32 (gc_mem st') e.2 = payloadAfter trc (gc_mem st) e) addrs).
Proof.
  induction pairs as [|tp pairs IH]; intros addrs st Haddr.
  - injection Haddr as <-. exists st. cbn. rewrite app_nil_r.
    repeat split; auto.
  - cbn [nunboxAddresses] in Haddr.
    destruct (allocationAddress P hp (gc_stack st) it tp.1) as [t|] eqn:Ht;
      cbn [mbind option_bind] in Haddr; [|discriminate].
    destruct (allocationAddress P hp (gc_stack st) it tp.2) as [p|] eqn:Hp;
      cbn [mbind option_bind] in Haddr; [|discriminate].
    destruct (nunboxAddresses P hp (gc_stack st) it pairs) as [l|] eqn:Hl;
      cbn [mbind option_bind] in Haddr; [|discriminate].
    injection Haddr as <-.
    destruct (markNunboxSlot_step P hp trc it st tp t p Ht Hp)
      as (st1 & Hrun & Hstack1 & Hlog1 & Hmem1).
    destruct (IH l st1) as (st' & Hrun' & Hstack' & Hframe' & Hspec').
    { rewrite Hstack1. exact Hl. }
    assert (Hframe1 : forall x, x < p \/ p + 4 <= x -> gc_mem st1 x = gc_mem st x).
    { intros x Hx. rewrite Hmem1.
      destruct (decide _); [reflexivity | apply store32_outside; exact Hx]. }
    exists st'. cbn [forEachM]. rewrite Hrun. cbn [mbind option_bind].
    split; [exact Hrun'|]. split; [congruence|]. split.
    { intros x Hx. apply Forall_cons in Hx as [Hx Hrest].
      rewrite (Hframe' x Hrest). apply Hframe1. exact Hx. }
    intros (Htp & Hrest & Hapart).
    destruct (Hspec' Hapart) as [Hlog' Hwords'].
    assert (Hsame : Forall (fun e => load32 (gc_mem st1) e.1 = load32 (gc_mem st) e.1 /\
                                     load32 (gc_mem st1) e.2 = load32 (gc_mem st) e.2) l).
    { eapply Forall_impl; [exact Hrest|]. cbn beta.
      intros e (H1 & H2 & _). unfold words_apart in H1, H2. cbn [fst snd] in H1, H2.
      split; apply load32_agree; intros x Hx; apply Hframe1; lia. }
    split.
    + rewrite Hlog', Hlog1, <- app_assoc. cbn [app map]. do 2 f_equal.
      apply map_ext_Forall. eapply Forall_impl; [exact Hsame|]. cbn beta.
      intros e [H1 H2]. f_equal. apply tornValueAt_agree; assumption.
    + apply Forall_cons. split.
      * cbn [fst snd]. unfold words_apart in Htp. cbn [fst snd] in Htp. split.
        -- transitivity (load32 (gc_mem st1) t).
           ++ apply load32_agree. intros x Hx. apply Hframe'.
              eapply Forall_impl; [exact Hrest|]. cbn beta.
              intros e (_ & _ & H3). unfold words_apart in H3. cbn [fst snd] in H3. lia.
           ++ apply load32_agree. intros x Hx. apply Hframe1. lia.
        -- transitivity (load32 (gc_mem st1) p).
           ++ apply load32_agree. intros x Hx. apply Hframe'.
              eapply Forall_impl; [exact Hrest|]. cbn beta.
              intros e (_ & H2 & _). unfold words_apart in H2. cbn [fst snd] in H2. lia.
           ++ unfold payloadAfter. cbn [fst snd]. rewrite Hmem1.
              destruct (decide _); [reflexivity|].
              rewrite load32_store32_same, <- Z.land_assoc, Z.land_diag. reflexivity.
      * pose proof (conj Hwords' Hsame) as Hboth. apply Forall_and in Hboth.
        eapply Forall_impl; [exact Hboth|]. cbn beta.
        intros e [[H1 H2] [H3 H4]]. split; [congruence|].
        rewrite H2. apply payloadAfter_agree; assumption.
Qed.

Lemma tornValueAt_halves (m : Mem) e :
  Z.shiftr (tornValueAt m e) 32 = load32 m e.1 /\
  Z.land (tornValueAt m e) (2 ^ 32 - 1) = load32 m e.2.
Proof. apply IMPL_TO_JSVAL_loads. Qed.

(** C2.  In the tag/payload pair encoding, the marking walk of an
    optimized frame ([MarkIonJSFrame]), once it has marked the other roots
    of the safepoint, visits every torn value of the safepoint, in order,
    and completes.  When the two halves of the torn values lie in separate
    words, each value handed to the collector is the value built from the
    tag word and the payload word: its upper half is the tag, its lower
    half the payload.  When the collector relocates it, the payload word
    becomes the payload of the relocated value; all the tag words keep their
    contents, and no byte outside the payload words is written.  The same
    holds for the untyped allocations traced through a snapshot
    ([traceAllocation], [writeAllocationValuePayload]) in each of the four
    register/stack combinations. *)
Theorem torn_value_write_back_payload_only
    P hp trc it st sp st1 addrs V s fs alloc rm t' p' :
  MarkIonJSFrame_roots P hp trc it st = Some (sp, st1) ->
  nunboxAddresses P hp (gc_stack st1) it (nunboxSlots sp) = Some addrs ->
  payloads_apart addrs ->
  untyped_locations s alloc = Some (t', p') ->
  words_apart t' p' ->
  let v' := tornValueAt (fs_mem fs) (t', p') in
  (exists st',
     MarkIonJSFrame P hp trc it st = Some st' /\
     gc_stack st' = gc_stack st1 /\
     gc_log st' =
       gc_log st1 ++ map (fun e => Ev_TornValue (tornValueAt (gc_mem st1) e)) addrs /\
     Forall (fun e =>
               Z.shiftr (tornValueAt (gc_mem st1) e) 32 = load32 (gc_mem st1) e.1 /\
               Z.land (tornValueAt (gc_mem st1) e) (2 ^ 32 - 1) = load32 (gc_mem st1) e.2 /\
               load32 (gc_mem st') e.1 = load32 (gc_mem st1) e.1 /\
               load32 (gc_mem st') e.2 = payloadAfter trc (gc_mem st1) e) addrs /\
     (forall x, Forall (fun e => x < e.2 \/ e.2 + 4 <= x) addrs ->
                gc_mem st' x = gc_mem st1 x))
  /\
  (allocationValue V s fs alloc rm = Some v' /\
   Z.shiftr v' 32 = load32 (fs_mem fs) t' /\
   Z.land v' (2 ^ 32 - 1) = load32 (fs_mem fs) p' /\
   exists fs',
     traceAllocation V trc s false alloc fs = Some fs' /\
     fs_constants fs' = fs_constants fs /\
     only_word_written (fs_mem fs) (fs_mem fs') p' /\
     load32 (fs_mem fs') t' = load32 (fs_mem fs) t' /\
     (isMarkable V v' = true -> trace_value trc v' <> v' ->
        load32 (fs_mem fs') p' = Z.land (trace_value trc v') (2 ^ 32 - 1))).
Proof.
  intros Hroots Haddr Hapart Hloc Hsep' v'.
  split.
  - destruct (markNunboxSlots_payload_only P hp trc it (nunboxSlots sp) addrs st1 Haddr)
      as (st' & Hrun & Hstack & Hframe & Hspec).
    destruct (Hspec Hapart) as [Hlog Hwords].
    exists st'. unfold MarkIonJSFrame. rewrite Hroots. cbn [mbind option_bind fst snd].
    split; [exact Hrun|]. split; [exact Hstack|]. split; [exact Hlog|].
    split; [|exact Hframe].
    eapply Forall_impl; [exact Hwords|]. cbn beta. intros e [H1 H2].
    destruct (tornValueAt_halves (gc_mem st1) e) as [H3 H4]. auto.
  - destruct (tornValueAt_halves (fs_mem fs) (t', p')) as [H1 H2].
    destruct (traceAllocation_untyped_payload_only V trc s fs alloc rm t' p' Hloc Hsep')
      as (Hval & fs' & Hrun & Hcst & Hframe & Htag & Hpay).
    split; [exact Hval|]. split; [exact H1|]. split; [exact H2|].
    exists fs'. repeat split; assumption.
Qed.

(** The frame at 2000 of the example: the safepoint has one torn value, the
    tag in register 3, saved at 1932, and the payload in the stack slot 16,
    at 1984; the collector moves the object by 0x100. *)
Lemma torn_value_write_back_payload_only_witness :
  exists sp st1,
    MarkIonJSFrame_roots example_platform example_heap_ion example_tracer
      (example_frame_iterator SequentialExecution) example_gcstate = Some (sp, st1) /\
    nunboxAddresses example_platform example_heap_ion (gc_stack st1)
      (example_frame_iterator SequentialExecution) (nunboxSlots sp) = Some [(1932, 1984)] /\
    tornValueAt (gc_mem st1) (1932, 1984) = 0xFFFFFF8800001234 /\
    payloadAfter example_tracer (gc_mem st1) (1932, 1984) = 0x1334 /\
    (exists st',
       MarkIonJSFrame example_platform example_heap_ion example_tracer
         (example_frame_iterator SequentialExecution) example_gcstate = Some st' /\
       gc_stack st' = gc_stack st1 /\
       gc_log st' =
         gc_log st1
         ++ map (fun e => Ev_TornValue (tornValueAt (gc_mem st1) e)) [(1932, 1984)] /\
       Forall (fun e =>
                 Z.shiftr (tornValueAt (gc_mem st1) e) 32 = load32 (gc_mem st1) e.1 /\
                 Z.land (tornValueAt (gc_mem st1) e) (2 ^ 32 - 1) = load32 (gc_mem st1) e.2 /\
                 load32 (gc_mem st') e.1 = load32 (gc_mem st1) e.1 /\
                 load32 (gc_mem st') e.2 = payloadAfter example_tracer (gc_mem st1) e)
         [(1932, 1984)] /\
       (forall x, Forall (fun e => x < e.2 \/ e.2 + 4 <= x) [(1932, 1984)] ->
                  gc_mem st' x = gc_mem st1 x))
    /\
    (allocationValue example_values (example_snapshot [])
       (example_framestate example_torn_mem) (UNTYPED_REG_STACK 3 16) RM_AlwaysDefault
       = Some (tornValueAt example_torn_mem (1932, 1984)) /\
     Z.shiftr (tornValueAt example_torn_mem (1932, 1984)) 32
       = load32 example_torn_mem 1932 /\
     Z.land (tornValueAt example_torn_mem (1932, 1984)) (2 ^ 32 - 1)
       = load32 example_torn_mem 1984 /\
     exists fs',
       traceAllocation example_values example_tracer (example_snapshot []) false
         (UNTYPED_REG_STACK 3 16) (example_framestate example_torn_mem) = Some fs' /\
       fs_constants fs' = [0xFFFFFF8200000000] /\
       only_word_written example_torn_mem (fs_mem fs') 1984 /\
       load32 (fs_mem fs') 1932 = load32 example_torn_mem 1932 /\
       (isMarkable example_values (tornValueAt example_torn_mem (1932, 1984)) = true ->
        trace_value example_tracer (tornValueAt example_torn_mem (1932, 1984))
          <> tornValueAt example_torn_mem (1932, 1984) ->
          load32 (fs_mem fs') 1984
          = Z.land (trace_value example_tracer (tornValueAt example_torn_mem (1932, 1984)))
              (2 ^ 32 - 1))).
Proof.
  eexists _, _. split; [reflexivity|].
  split; [vm_compute; reflexivity|].
  split; [vm_compute; reflexivity|].
  split; [vm_compute; reflexivity|].
  eapply (torn_value_write_back_payload_only example_platform example_heap_ion example_tracer
            (example_frame_iterator SequentialExecution) example_gcstate _ _ [(1932, 1984)]
            example_values (example_snapshot []) (example_framestate example_torn_mem)
            (UNTYPED_REG_STACK 3 16) RM_AlwaysDefault 1932 1984).
  - reflexivity.
  - vm_compute. reflexivity.
  - cbn. unfold words_apart. cbn. repeat split; [lia | constructor].
  - reflexivity.
  - unfold words_apart. lia.
Defined.

(** ** Float32 allocations in a floating-point register *)

Lemma pun_double_to_float_low d : pun_double_to_float d = Z.land d (2 ^ 32 - 1).
Proof. unfold pun_double_to_float. apply load32_store64_low. Qed.

Lemma load64_low (m : Mem) a : Z.land (load64 m a) (2 ^ 32 - 1) = load32 m a.
Proof.
  unfold load64.
  pose proof (load32_range m a) as Hlo. pose proof (load32_range m (a + 4)) as Hhi.
  change (2 ^ 32 - 1) with (Z.ones 32).
  rewrite Z.land_lor_distr_l, !Z.land_ones by lia.
  rewrite Z.shiftl_mul_pow2 by lia. rewrite Z.mod_mul by lia.
  rewrite Z.lor_0_r. apply Z.mod_small. exact Hlo.
Qed.

(** C9.  A float32 allocation in a floating-point register is read as the
    float32 whose encoding is the low 32 bits of the register: the bits are
    taken as they are (they are the first four bytes of the saved
    register), and no conversion of the double is applied to them. *)
Theorem float32_register_read_is_low_bits V s fs fpuReg rm a :
  regLocation (machine_fpu s) fpuReg = Some a ->
  allocationValue V s fs (FLOAT32_REG fpuReg) rm
    = Some (Float32Value V (Z.land (load64 (fs_mem fs) a) (2 ^ 32 - 1))) /\
  Z.land (load64 (fs_mem fs) a) (2 ^ 32 - 1) = load32 (fs_mem fs) a.
Proof.
  intros Ha. split; [|apply load64_low].
  unfold allocationValue, fromFloatRegister. rewrite Ha.
  cbn [fmap option_fmap option_map mbind option_bind].
  rewrite pun_double_to_float_low. reflexivity.
Qed.

(** The register holds the encoding of the double 1.0; what is read is the
    float32 of encoding 0, not the float32 1.0 (encoding 0x3F800000). *)
Lemma float32_register_read_is_low_bits_witness :
  allocationValue example_values (example_snapshot [])
    (example_framestate (store64 (fun _ => 0) 1800 0x3FF0000000000000))
    (FLOAT32_REG 0) RM_Normal
    = Some (Float32Value example_values
              (Z.land (load64 (store64 (fun _ => 0) 1800 0x3FF0000000000000) 1800)
                 (2 ^ 32 - 1))) /\
  Z.land (load64 (store64 (fun _ => 0) 1800 0x3FF0000000000000) 1800) (2 ^ 32 - 1)
    = load32 (store64 (fun _ => 0) 1800 0x3FF0000000000000) 1800.
Proof.
  apply (float32_register_read_is_low_bits example_values (example_snapshot [])
           (example_framestate (store64 (fun _ => 0) 1800 0x3FF0000000000000))
           0 RM_Normal 1800).
  reflexivity.
Defined.

Example float32_register_read_not_converted :
  allocationValue example_values (example_snapshot [])
    (example_framestate (store64 (fun _ => 0) 1800 0x3FF0000000000000))
    (FLOAT32_REG 0) RM_Normal = Some 0.
Proof. vm_compute. reflexivity. Qed.

(** ** Marking an invalidated frame *)


Lemma foldl_mark_log {A} (f : GCState -> A -> GCState) (g : A -> TraceEvent) l :
  (forall s x, gc_stack (f s x) = gc_stack s /\ gc_log (f s x) = gc_log s ++ [g x]) ->
  forall st, gc_stack (foldl f st l) = gc_stack st /\
             gc_log (foldl f st l) = gc_log st ++ map g l.
Proof.
  intros Hf. induction l as [|x l IH]; intros st; simpl.
  - rewrite app_nil_r. split; reflexivity.
  - destruct (IH (f st x)) as [H1 H2]. destruct (Hf st x) as [H3 H4].
    rewrite H1, H2, H3, H4, <- app_assoc. split; reflexivity.
Qed.

Lemma markSpills_log trc sp regs : forall spill st,
  gc_stack (markSpills trc sp regs spill st) = gc_stack st /\
  gc_log (markSpills trc sp regs spill st) = gc_log st ++ spillRoots sp regs spill.
Proof.
  induction regs as [|r rs IH]; intros spill st; simpl.
  - rewrite app_nil_r. split; reflexivity.
  - destruct (Z.testbit (gcSpills sp) r); [|destruct (Z.testbit (valueSpills sp) r)];
      match goal with |- context [markSpills trc sp rs _ ?s] =>
        destruct (IH (spill - 4) s) as [H1 H2] end;
      rewrite H1, H2; simpl; rewrite <- ?app_assoc; split; reflexivity.
Qed.







(** The marking of the invalidated example frame: the callee token, the
    recorded artifact, [this], the slots of the safepoint, the one spilled
    register that holds a pointer, and the torn value; the payload of the
    torn value is relocated and its tag is left alone. *)
Example MarkIonJSFrame_invalidated_log :
  gc_log <$> MarkIonJSFrame example_platform example_heap_invalidated example_tracer
               (example_invalidated_iterator SequentialExecution) example_gcstate
  = Some [Ev_CalleeToken (CalleeToken_Script 1); Ev_IonScriptTrace 7100;
          Ev_ValueRoot 2016; Ev_GCThingRoot 1992; Ev_ValueRoot 1976;
          Ev_GCThingRoot 1928; Ev_TornValue 0xFFFFFF8800001234].
Proof. vm_compute. reflexivity. Qed.

Example MarkIonJSFrame_invalidated_torn_words :
  (fun st => (load32 (gc_mem st) 1932, load32 (gc_mem st) 1984)) <$>
    MarkIonJSFrame example_platform example_heap_invalidated example_tracer
      (example_invalidated_iterator SequentialExecution) example_gcstate
  = Some (0xFFFFFF88, 0x1334).
Proof. vm_compute. reflexivity. Qed.

(** ** Catch dispatch in a baseline frame *)

Lemma set_returnAddressToFp_fp it returnAddr : fp (set_returnAddressToFp it returnAddr) = fp it.
Proof. reflexivity. Qed.

Lemma onExceptionUnwindHook_fp C it u verdict u1 it1 :
  onExceptionUnwindHook C it u = (verdict, u1, it1) -> fp it1 = fp it.
Proof.
  unfold onExceptionUnwindHook, callOnExceptionUnwind. intros H.
  destruct (u_exceptionPending u && compartment_isDebuggee C && getPendingException_ok C
            && negb (isGeneratorClosing C (u_pendingException u))).
  - destruct (Debugger_onExceptionUnwind C it u) as [[status u'] ra].
    injection H as _ _ <-. reflexivity.
  - injection H as _ _ <-. reflexivity.
Qed.

Lemma onExceptionUnwindHook_rfe C it u verdict u1 it1 :
  onExceptionUnwindHook C it u = (verdict, u1, it1) -> u_rfe u1 = u_rfe u.
Proof.
  unfold onExceptionUnwindHook, callOnExceptionUnwind. intros H.
  destruct (u_exceptionPending u && compartment_isDebuggee C && getPendingException_ok C
            && negb (isGeneratorClosing C (u_pendingException u))).
  - destruct (Debugger_onExceptionUnwind C it u) as [[status u'] ra].
    injection H as _ <- _. reflexivity.
  - injection H as _ <- _. reflexivity.
Qed.

(** Outside a debuggee compartment the hook is not called. *)
Lemma onExceptionUnwindHook_not_debuggee C it u :
  compartment_isDebuggee C = false -> onExceptionUnwindHook C it u = (None, u, it).
Proof.
  intros Hdbg. unfold onExceptionUnwindHook. rewrite Hdbg.
  rewrite andb_false_r. reflexivity.
Qed.

Lemma tryNoteLoop_catch P C it scp sc bf b u unwound :
  scripts (u_heap u) !! scp = Some sc ->
  baseline sc = Some b ->
  baselineFrames (u_heap u) !! fp it = Some bf ->
  2 <= frameStackDepth bf sc ->
  u_exceptionPending u = true ->
  getPendingException_ok C = true ->
  isGeneratorClosing C (u_pendingException u) = false ->
  exists u',
    tryNoteLoop P C it scp sc 15 [catch_10_20] (u, unwound)
      = Some (Returned (u', UnwindScopeToTryPc C sc catch_10_20)) /\
    rfe_kind (u_rfe u') = RESUME_CATCH /\
    rfe_target (u_rfe u') = nativeCodeForPC b (script_main sc + 20) /\
    warmUpCounter <$> scripts (u_heap u') !! scp = Some 0 /\
    u_exceptionPending u' = true /\
    u_pendingException u' = u_pendingException u.
Proof.
  intros Hsc Hb Hbf Hdepth Hpend Hok Hclosing.
  unfold tryNoteLoop, tryNoteStep, catch_10_20.
  cbn [tn_start tn_length tn_stackDepth tn_kind].
  change (15 <? 10) with false. change ((10 + 10) mod 2 ^ 32 <=? 15) with false.
  cbn iota. rewrite Hbf. cbn [mbind option_bind].
  destruct (frameStackDepth bf sc <? 2) eqn:Hlt; [apply Z.ltb_lt in Hlt; lia|].
  rewrite Hpend. cbn [set_rfe u_exceptionPending u_pendingException u_heap].
  rewrite Hok, Hclosing. cbn [negb]. rewrite Hb. cbn [mbind option_bind].
  rewrite Hpend. cbn [mbind option_bind].
  eexists. split; [reflexivity|].
  cbn [u_rfe set_rfe set_heap u_heap rfe_kind rfe_target set_rfe_resume scripts
       with_scripts u_exceptionPending u_pendingException].
  split; [reflexivity|]. split; [f_equal; lia|].
  split; [|split; [exact Hpend | reflexivity]].
  rewrite lookup_alter_eq, Hsc. reflexivity.
Qed.

(** C5 (as amended).  A baseline frame standing at the pc of offset 15 with
    an exception pending and no forced return being propagated.  When the
    debugger's hook on the unwinding of an exception, if it is called, does
    not ask for a return, and in the state it leaves the exception that is
    pending can be fetched and is not the closing of a generator, the
    script has the one CATCH region [10, 20) at stack depth 2 and the frame
    has at least two values on its stack, then the handler resumes with
    kind RESUME_CATCH at the native code for the pc of offset 20 and resets
    the warm-up counter of the script. *)
Theorem HandleExceptionBaseline_catch P C it u scp verdict u1 it1 sc bf b :
  scriptPtr (u_heap u) (u_stack u) it = Some scp ->
  baselineScriptAndPc (u_heap u) (u_stack u) it true = Some (Some (script_main sc + 15)) ->
  u_exceptionPending u = true ->
  u_propagatingForcedReturn u = false ->
  onExceptionUnwindHook C it u = (verdict, u1, it1) ->
  verdict <> Some JSTRAP_RETURN ->
  u_exceptionPending u1 = true ->
  getPendingException_ok C = true ->
  isGeneratorClosing C (u_pendingException u1) = false ->
  scripts (u_heap u1) !! scp = Some sc ->
  baseline sc = Some b ->
  trynotes sc = Some [catch_10_20] ->
  baselineFrames (u_heap u1) !! fp it = Some bf ->
  2 <= frameStackDepth bf sc ->
  exists u',
    HandleExceptionBaseline P C it u 0 false
      = Some (u', UnwindScopeToTryPc C sc catch_10_20, false, it1) /\
    rfe_kind (u_rfe u') = RESUME_CATCH /\
    rfe_target (u_rfe u') = nativeCodeForPC b (script_main sc + 20) /\
    warmUpCounter <$> scripts (u_heap u') !! scp = Some 0.
Proof.
  intros Hptr Hpc Hpend Hforced Hhook Hverdict Hpend1 Hok Hclosing Hsc Hb Htn Hbf Hdepth.
  unfold HandleExceptionBaseline.
  rewrite Hptr. cbn [mbind option_bind]. rewrite Hpc. cbn [mbind option_bind].
  rewrite Hforced, Hhook.
  rewrite <- (onExceptionUnwindHook_fp C it u verdict u1 it1 Hhook) in Hbf.
  destruct (tryNoteLoop_catch P C it1 scp sc bf b u1 0)
    as (u' & Hrun & Hkind & Htarget & Hwarm & _); try assumption.
  assert (Hrest : HandleExceptionBaseline_tryNotes P C it1 scp (script_main sc + 15) u1 0 false
                  = Some (u', UnwindScopeToTryPc C sc catch_10_20, false)).
  { unfold HandleExceptionBaseline_tryNotes.
    rewrite Hsc. cbn [mbind option_bind]. rewrite Htn.
    replace ((script_main sc + 15 - script_main sc) mod 2 ^ 32) with 15
      by (replace (script_main sc + 15 - script_main sc) with 15 by lia; reflexivity).
    rewrite Hrun. reflexivity. }
  exists u'. split; [|repeat split; assumption].
  destruct verdict as [[| | |]|]; try (rewrite Hrest; reflexivity). contradiction.
Qed.

Lemma HandleExceptionBaseline_catch_witness :
  exists u',
    HandleExceptionBaseline example_platform (example_collaborators false)
      example_catch_iterator example_catch_unwind 0 false
      = Some (u', UnwindScopeToTryPc (example_collaborators false)
                    (example_script None None (Some example_baseline) (Some [catch_10_20]))
                    catch_10_20, false, example_catch_iterator) /\
    rfe_kind (u_rfe u') = RESUME_CATCH /\
    rfe_target (u_rfe u') = nativeCodeForPC example_baseline (5008 + 20) /\
    warmUpCounter <$> scripts (u_heap u') !! 1 = Some 0.
Proof.
  apply (HandleExceptionBaseline_catch example_platform (example_collaborators false)
           example_catch_iterator example_catch_unwind 1 None example_catch_unwind
           example_catch_iterator
           (example_script None None (Some example_baseline) (Some [catch_10_20]))
           (example_baseline_frame 0 None 3) example_baseline).
  - reflexivity.
  - reflexivity.
  - reflexivity.
  - reflexivity.
  - reflexivity.
  - discriminate.
  - reflexivity.
  - reflexivity.
  - reflexivity.
  - reflexivity.
  - reflexivity.
  - reflexivity.
  - reflexivity.
  - vm_compute. discriminate.
Defined.

(** C5 (as stated) fails: in the same scenario, with the same ordinary
    exception pending, in a compartment under a debugger whose hook on the
    unwinding of the exception asks for a return, the catch block is
    passed by; the handler forces a return and the warm-up counter keeps
    its value. *)
Lemma HandleExceptionBaseline_debugger_return_skips_catch :
  u_exceptionPending example_catch_unwind = true /\
  isGeneratorClosing (example_collaborators true)
    (u_pendingException example_catch_unwind) = false /\
  compartment_isDebuggee (example_collaborators true) = true /\
  (Debugger_onExceptionUnwind (example_collaborators true)
     example_catch_iterator example_catch_unwind).1.1 = JSTRAP_RETURN /\
  trynotes <$> scripts example_catch_heap !! 1 = Some (Some [catch_10_20]) /\
  baselineScriptAndPc example_catch_heap ∅ example_catch_iterator true
    = Some (Some (5008 + 15)) /\
  (fun bf => frameStackDepth bf (example_script None None (Some example_baseline)
                                   (Some [catch_10_20])))
    <$> baselineFrames example_catch_heap !! 2000 = Some 2 /\
  (fun r => rfe_kind (u_rfe r.1.1.1)) <$>
    HandleExceptionBaseline example_platform (example_collaborators true)
      example_catch_iterator example_catch_unwind 0 false
    = Some RESUME_FORCED_RETURN /\
  (fun r => warmUpCounter <$> scripts (u_heap r.1.1.1) !! 1) <$>
    HandleExceptionBaseline example_platform (example_collaborators true)
      example_catch_iterator example_catch_unwind 0 false
    = Some (Some 42).
Proof. repeat split; vm_compute; reflexivity. Qed.

(** ** The results of recover instructions *)

Lemma recoverLoop_runs key f ini last : forall rest done s st vec,
  recover_ s = done ++ rest ++ [last] ->
  numInstructionsRead s = S (length done) ->
  instructionResults_ s = Some key ->
  ionRecovery_ st !! key = Some {| results_ := Some vec; frame_ := f; initialized_ := ini |} ->
  length vec = length (done ++ rest) ->
  Forall evaluable rest ->
  exists st',
    recoverLoop (length rest) s st = Some (true, st') /\
    ionRecovery_ st' =
      <[key := {| results_ := Some (run_recover rest (length done) vec);
                  frame_ := f; initialized_ := ini |}]> (ionRecovery_ st) /\
    executed st' = executed st ++ recover_indices rest (length done) /\
    invalidated st' = invalidated st.
Proof.
  induction rest as [|i rest IH]; intros done s st vec Htab Hread Hres Hkey Hlen Hev.
  - exists st. simpl. rewrite app_nil_r. repeat split; try reflexivity.
    symmetry. apply insert_id. exact Hkey.
  - assert (Hins : instruction s = Some i).
    { unfold instruction. rewrite Htab, Hread.
      replace (S (length done) - 1)%nat with (length done + 0)%nat by lia.
      rewrite lookup_app_r by lia. replace (length done + 0 - length done)%nat with 0%nat by lia.
      reflexivity. }
    assert (Htab' : recover_ s = (done ++ [i]) ++ rest ++ [last]).
    { rewrite Htab, <- app_assoc. reflexivity. }
    assert (Hlen' : length (done ++ [i]) = S (length done)).
    { rewrite length_app. simpl. lia. }
    inversion Hev as [|? ? Hi Hrest]; subst.
    cbn [recoverLoop length]. rewrite Hins. cbn [mbind option_bind].
    destruct i as [pcOffset nops|nops eval].
    + cbn [isResumePoint]. unfold skipInstruction. rewrite Hins. cbn [mbind option_bind].
      destruct (IH (done ++ [RResumePoint pcOffset nops])
                  (nextInstruction (skipAllocations s (numOperands_of (RResumePoint pcOffset nops))))
                  st vec)
        as (st' & Hrun & Hmap & Hex & Hinv); try assumption.
      * cbn. rewrite Hlen'. f_equal. exact Hread.
      * rewrite Hlen, <- app_assoc. reflexivity.
      * exists st'. rewrite Hrun. rewrite Hlen' in Hmap, Hex.
        repeat split; assumption.
    + cbn [isResumePoint]. unfold RInstruction_recover.
      rewrite Hres. cbn [mbind option_bind]. rewrite Hkey. cbn [mbind option_bind results_].
      destruct (Hi vec) as [v Hv]. rewrite Hv.
      unfold storeInstructionResult. rewrite Hres. cbn [mbind option_bind].
      rewrite Hkey. cbn [mbind option_bind results_ frame_ initialized_].
      rewrite Hread. replace (S (length done) - 1)%nat with (length done) by lia.
      destruct (decide (length done < length vec)%nat) as [Hlt|Hge].
      2:{ rewrite Hlen, length_app in Hge. simpl in Hge. lia. }
      cbn [mbind option_bind].
      match goal with |- context [recoverLoop _ _ ?st1] => set (st1' := st1) end.
      destruct (IH (done ++ [RRecover nops eval]) (nextInstruction s) st1'
                  (<[length done := v]> vec))
        as (st' & Hrun & Hmap & Hex & Hinv); try assumption.
      * cbn. rewrite Hlen'. f_equal. exact Hread.
      * unfold st1'. cbn [ionRecovery_]. apply lookup_insert_eq.
      * rewrite length_insert, Hlen, <- app_assoc. reflexivity.
      * exists st'. rewrite Hrun. rewrite Hlen' in Hmap, Hex.
        split; [reflexivity|].
        unfold st1' in Hmap, Hex, Hinv. cbn [ionRecovery_ executed invalidated] in Hmap, Hex, Hinv.
        rewrite insert_insert_eq in Hmap.
        cbn [run_recover recover_indices]. rewrite Hv.
        split; [exact Hmap|]. split; [rewrite Hex, <- app_assoc; reflexivity | exact Hinv].
Qed.

Lemma recover_indices_ge body : forall i x, x ∈ recover_indices body i -> (i <= x)%nat.
Proof.
  induction body as [|ins body IH]; intros i x Hx; simpl in Hx.
  - inversion Hx.
  - destruct ins.
    + apply IH in Hx. lia.
    + apply elem_of_cons in Hx as [->|Hx]; [lia|]. apply IH in Hx. lia.
Qed.

Lemma recover_indices_NoDup body : forall i, NoDup (recover_indices body i).
Proof.
  induction body as [|ins body IH]; intros i; simpl.
  - constructor.
  - destruct ins; [apply IH|].
    constructor; [|apply IH].
    intros Hin. apply recover_indices_ge in Hin. lia.
Qed.

Lemma recover_indices_app body last : forall i,
  isResumePoint last = true ->
  recover_indices (body ++ [last]) i = recover_indices body i.
Proof.
  induction body as [|ins body IH]; intros i Hlast; simpl.
  - destruct last; [reflexivity | discriminate].
  - destruct ins; rewrite IH by assumption; reflexivity.
Qed.

Lemma run_recover_length body : forall i vec, length (run_recover body i vec) = length vec.
Proof.
  induction body as [|ins body IH]; intros i vec; simpl; [reflexivity|].
  destruct ins as [? ?|? eval]; [apply IH|].
  destruct (eval vec); [|reflexivity]. rewrite IH. apply length_insert.
Qed.

(** C4.  For a frame that has no results registered on the activation yet:
    the first request for recover results (with the invalidation, when it
    is asked for, and the two allocations succeeding, and every recover
    instruction evaluable) registers a results vector for the frame, every
    slot starting as the magic bailout value, and evaluates every recover
    instruction of the table once, in order, each result stored in the slot
    of its instruction, no slot written twice.  A later request for the
    same frame answers from the registered results; it changes nothing and
    executes no recover instruction. *)
Theorem initInstructionResults_memoized V R s s2 fallback st body last :
  recover_ (fallback_snapshot fallback) = body ++ [last] ->
  isResumePoint last = true ->
  numInstructionsRead (fallback_snapshot fallback) = 1%nat ->
  recover_ s = recover_ (fallback_snapshot fallback) ->
  recover_ s2 = recover_ (fallback_snapshot fallback) ->
  body <> [] ->
  Forall evaluable body ->
  maybeIonFrameRecovery st (fallback_jsFrame fallback) = None ->
  (consequence fallback = Fallback_Invalidate -> invalidate_ok R = true) ->
  registerIonFrameRecovery_ok R = true ->
  make_unique_ok R = true ->
  growBy_ok R = true ->
  let fp := fallback_jsFrame fallback in
  let vec := run_recover body 0 (replicate (length body) (MagicValue_JS_ION_BAILOUT V)) in
  exists st1,
    initInstructionResults V R s fallback st
      = Some (true, set_instructionResults s (Some fp), st1) /\
    maybeIonFrameRecovery st1 fp
      = Some {| results_ := Some vec; frame_ := fp; initialized_ := true |} /\
    length vec = length body /\
    executed st1 = executed st ++ recover_indices (body ++ [last]) 0 /\
    NoDup (recover_indices (body ++ [last]) 0) /\
    initInstructionResults V R s2 fallback st1
      = Some (true, set_instructionResults s2 (Some fp), st1).
Proof.
  intros Htab Hlast Hread Hs Hs2 Hbody Hev Hnone Hinval Hreg Hmake Hgrow. cbv zeta.
  set (fp := fallback_jsFrame fallback) in *.
  set (vec := run_recover body 0 (replicate (length body) (MagicValue_JS_ION_BAILOUT V))).
  assert (Hlenb : (0 < length body)%nat).
  { destruct body; [contradiction | simpl; lia]. }
  assert (Hnum : forall r, recover_ r = recover_ (fallback_snapshot fallback) ->
                           numInstructions r = S (length body)).
  { intros r Hr. unfold numInstructions. rewrite Hr, Htab, length_app. simpl. lia. }
  rewrite recover_indices_app by assumption.
  set (st0 := if bool_decide (consequence fallback = Fallback_Invalidate)
              then {| ionRecovery_ := ionRecovery_ st; executed := executed st;
                      invalidated := invalidated st ++ [ionScript_ s] |}
              else st).
  assert (Hst0 : ionRecovery_ st0 = ionRecovery_ st /\ executed st0 = executed st).
  { unfold st0. destruct (bool_decide _); split; reflexivity. }
  destruct Hst0 as [Hmap0 Hex0].
  set (tmp := {| results_ := None; frame_ := fp; initialized_ := false |}).
  set (magic := replicate (length body) (MagicValue_JS_ION_BAILOUT V)).
  set (ready := {| results_ := Some magic; frame_ := fp; initialized_ := true |}).
  set (sta := set_ionRecovery (set_ionRecovery st0 (<[fp := tmp]> (ionRecovery_ st0)))
                (<[fp := ready]> (<[fp := tmp]> (ionRecovery_ st0)))).
  destruct (recoverLoop_runs fp fp true last body []
              (set_instructionResults (fallback_snapshot fallback) (Some fp)) sta magic)
    as (st1 & Hrun & Hmap & Hex & _).
  { exact Htab. } { exact Hread. } { reflexivity. }
  { unfold sta. cbn [ionRecovery_ set_ionRecovery]. apply lookup_insert_eq. }
  { unfold magic. rewrite length_replicate. reflexivity. }
  { exact Hev. }
  exists st1.
  assert (Hlook1 : maybeIonFrameRecovery st1 fp
                   = Some {| results_ := Some vec; frame_ := fp; initialized_ := true |}).
  { unfold maybeIonFrameRecovery. rewrite Hmap. apply lookup_insert_eq. }
  split; [|split; [exact Hlook1|split; [|split; [|split]]]].
  - unfold initInstructionResults.
    destruct (decide (numInstructions s = 1%nat)) as [H1|_].
    { rewrite (Hnum s Hs) in H1. lia. }
    cbv zeta. fold fp. rewrite Hnone. fold st0.
    assert (Hguard : bool_decide (consequence fallback = Fallback_Invalidate)
                     && negb (invalidate_ok R) = false).
    { destruct (bool_decide (consequence fallback = Fallback_Invalidate)) eqn:Hc;
        [|reflexivity].
      apply bool_decide_eq_true_1 in Hc. rewrite (Hinval Hc). reflexivity. }
    rewrite Hguard. unfold registerIonFrameRecovery. rewrite Hreg.
    cbn [frame_]. fold tmp.
    unfold computeInstructionResults. cbn [ionRecovery_ set_ionRecovery].
    rewrite lookup_insert_eq. cbn [mbind option_bind initialized_ negb tmp].
    rewrite (Hnum _ eq_refl).
    unfold RInstructionResults_init.
    replace (Z.of_nat (S (length body)) - 1) with (Z.of_nat (length body)) by lia.
    destruct (Z.of_nat (length body) =? 0) eqn:Hz; [apply Z.eqb_eq in Hz; lia|].
    rewrite Hmake, Hgrow.
    destruct (0 <? Z.of_nat (length body)) eqn:Hp; [|apply Z.ltb_ge in Hp; lia].
    cbn [andb negb results_ frame_]. rewrite Nat2Z.id. fold magic.
    change (frame_ tmp) with fp. fold ready.
    change (numInstructions (set_instructionResults (fallback_snapshot fallback) (Some fp)))
      with (numInstructions (fallback_snapshot fallback)).
    rewrite (Hnum _ eq_refl).
    change (numInstructionsRead (set_instructionResults (fallback_snapshot fallback) (Some fp)))
      with (numInstructionsRead (fallback_snapshot fallback)).
    rewrite Hread. replace (S (length body) - 1)%nat with (length body) by lia.
    fold sta. rewrite Hrun. reflexivity.
  - unfold vec. rewrite run_recover_length. apply length_replicate.
  - rewrite Hex. unfold sta. cbn [executed set_ionRecovery]. rewrite Hex0. reflexivity.
  - apply recover_indices_NoDup.
  - unfold initInstructionResults.
    destruct (decide (numInstructions s2 = 1%nat)) as [H1|_].
    { rewrite (Hnum s2 Hs2) in H1. lia. }
    cbv zeta. fold fp. rewrite Hlook1. reflexivity.
Qed.

Lemma initInstructionResults_memoized_witness :
  exists st1,
    initInstructionResults example_values example_resources
      (example_snapshot example_recover_table)
      (example_fallback example_recover_table Fallback_Invalidate) example_recover_state
      = Some (true,
              set_instructionResults (example_snapshot example_recover_table) (Some 2000),
              st1) /\
    maybeIonFrameRecovery st1 2000
      = Some {| results_ := Some [7; MagicValue_JS_ION_BAILOUT example_values; 8];
                frame_ := 2000; initialized_ := true |} /\
    length [7; MagicValue_JS_ION_BAILOUT example_values; 8] = 3%nat /\
    executed st1 = [] ++ [0; 2]%nat /\
    NoDup [0; 2]%nat /\
    initInstructionResults example_values example_resources
      (example_snapshot example_recover_table)
      (example_fallback example_recover_table Fallback_Invalidate) st1
      = Some (true,
              set_instructionResults (example_snapshot example_recover_table) (Some 2000),
              st1).
Proof.
  refine (initInstructionResults_memoized example_values example_resources
            (example_snapshot example_recover_table) (example_snapshot example_recover_table)
            (example_fallback example_recover_table Fallback_Invalidate)
            example_recover_state
            [ RRecover 0 (fun _ => Some 7); RResumePoint 3 2;
              RRecover 1 (fun vec => Some (default 0 (vec !! 0%nat) + 1)) ]
            (RResumePoint 9 4) _ _ _ _ _ _ _ _ _ _ _ _).
  - reflexivity.
  - reflexivity.
  - reflexivity.
  - reflexivity.
  - reflexivity.
  - discriminate.
  - repeat constructor; simpl; intros; eauto.
  - reflexivity.
  - reflexivity.
  - reflexivity.
  - reflexivity.
  - reflexivity.
Defined.

(** C8.  When the recover table holds one instruction only, the trailing
    resume-point marker, [initInstructionResults] returns at once: nothing
    is registered and nothing evaluated.  [computeInstructionResults] on
    results that are registered but not initialized marks them initialized
    with no vector at all, so with zero entries, whether or not allocation
    would succeed, and evaluates no recover instruction. *)
Theorem single_resume_point_short_circuits V R s fallback st key r :
  numInstructions s = 1%nat ->
  ionRecovery_ st !! key = Some r ->
  initialized_ r = false ->
  results_ r = None ->
  initInstructionResults V R s fallback st = Some (true, s, st) /\
  exists st',
    computeInstructionResults V R s key st = Some (true, st') /\
    ionRecovery_ st' !! key
      = Some {| results_ := None; frame_ := frame_ r; initialized_ := true |} /\
    executed st' = executed st /\
    invalidated st' = invalidated st.
Proof.
  intros Hone Hkey Hini Hres. split.
  - unfold initInstructionResults.
    destruct (decide (numInstructions s = 1%nat)); [reflexivity | contradiction].
  - unfold computeInstructionResults. rewrite Hkey. cbn [mbind option_bind].
    rewrite Hini, Hone. cbn [negb]. change (Z.of_nat 1 - 1) with 0.
    unfold RInstructionResults_init. cbn [Z.eqb]. rewrite Hres.
    eexists. split; [reflexivity|]. cbn [ionRecovery_ set_ionRecovery executed invalidated].
    rewrite lookup_insert_eq. repeat split; reflexivity.
Qed.

Lemma single_resume_point_short_circuits_witness :
  initInstructionResults example_values example_resources
    (example_snapshot [RResumePoint 9 4])
    (example_fallback [RResumePoint 9 4] Fallback_Invalidate)
    (set_ionRecovery example_recover_state
       {[ 2000 := {| results_ := None; frame_ := 2000; initialized_ := false |} ]})
  = Some (true, example_snapshot [RResumePoint 9 4],
          set_ionRecovery example_recover_state
            {[ 2000 := {| results_ := None; frame_ := 2000; initialized_ := false |} ]}) /\
  exists st',
    computeInstructionResults example_values example_resources
      (example_snapshot [RResumePoint 9 4]) 2000
      (set_ionRecovery example_recover_state
         {[ 2000 := {| results_ := None; frame_ := 2000; initialized_ := false |} ]})
      = Some (true, st') /\
    ionRecovery_ st' !! 2000
      = Some {| results_ := None; frame_ := 2000; initialized_ := true |} /\
    executed st' = [] /\
    invalidated st' = [].
Proof.
  apply (single_resume_point_short_circuits example_values example_resources
           (example_snapshot [RResumePoint 9 4])
           (example_fallback [RResumePoint 9 4] Fallback_Invalidate)
           (set_ionRecovery example_recover_state
              {[ 2000 := {| results_ := None; frame_ := 2000; initialized_ := false |} ]})
           2000 {| results_ := None; frame_ := 2000; initialized_ := false |});
    reflexivity.
Defined.

(** * Further properties of the frame code *)

(** ** The baseline artifact *)

Lemma forallb_seqZ (p : Z -> bool) n :
  forallb p (seqZ 0 n) = true -> forall b, 0 <= b < n -> p b = true.
Proof.
  intros H b Hb. rewrite forallb_forall in H. apply H.
  apply list_elem_of_In, elem_of_seqZ. lia.
Qed.

Lemma ValidSlotLocation_cases loc :
  ValidSlotLocation loc = true -> loc = 0 \/ loc = 1 \/ loc = 3.
Proof.
  unfold ValidSlotLocation, SlotInR0, SlotInR1, SlotIgnore. intros H.
  destruct (Z.eqb_spec loc 0); [auto|].
  destruct (Z.eqb_spec loc 1); [auto|].
  destruct (Z.eqb_spec loc 3); [auto|]. discriminate.
Qed.

(** X1.  What [MakeSlotInfo] packs, the three decoders give back: the
    number of unsynced slots is 0, 1 or 2 by the overload used, and the
    locations of the top slot and of the next slot are the valid
    locations that were passed. *)
Theorem PCMappingSlotInfo_decodes_what_was_made top next :
  ValidSlotLocation top = true ->
  ValidSlotLocation next = true ->
  numUnsynced MakeSlotInfo0 = 0 /\
  (numUnsynced (MakeSlotInfo1 top) = 1 /\
   topSlotLocation (MakeSlotInfo1 top) = top) /\
  (numUnsynced (MakeSlotInfo2 top next) = 2 /\
   topSlotLocation (MakeSlotInfo2 top next) = top /\
   nextSlotLocation (MakeSlotInfo2 top next) = next).
Proof.
  intros Ht Hn.
  destruct (ValidSlotLocation_cases top Ht) as [->|[->| ->]];
    destruct (ValidSlotLocation_cases next Hn) as [->|[->| ->]];
    vm_compute; auto.
Qed.

Lemma PCMappingSlotInfo_decodes_what_was_made_witness :
  numUnsynced MakeSlotInfo0 = 0 /\
  (numUnsynced (MakeSlotInfo1 SlotIgnore) = 1 /\
   topSlotLocation (MakeSlotInfo1 SlotIgnore) = SlotIgnore) /\
  (numUnsynced (MakeSlotInfo2 SlotIgnore SlotInR1) = 2 /\
   topSlotLocation (MakeSlotInfo2 SlotIgnore SlotInR1) = SlotIgnore /\
   nextSlotLocation (MakeSlotInfo2 SlotIgnore SlotInR1) = SlotInR1).
Proof.
  apply (PCMappingSlotInfo_decodes_what_was_made SlotIgnore SlotInR1); reflexivity.
Defined.

(** X2.  A byte whose two top bits are clear and that records two
    unsynced slots at valid locations is made again from its decoded
    fields: decoding loses nothing of such a byte. *)
Theorem PCMappingSlotInfo_made_from_decoded b :
  0 <= b < 64 ->
  numUnsynced (PCMappingSlotInfo_new b) = 2 ->
  ValidSlotLocation (topSlotLocation (PCMappingSlotInfo_new b)) = true ->
  ValidSlotLocation (nextSlotLocation (PCMappingSlotInfo_new b)) = true ->
  toByte (MakeSlotInfo2 (topSlotLocation (PCMappingSlotInfo_new b))
            (nextSlotLocation (PCMappingSlotInfo_new b))) = b.
Proof.
  intros Hb Hn _ _.
  pose (p := fun b =>
    implb (numUnsynced (PCMappingSlotInfo_new b) =? 2)
      (toByte (MakeSlotInfo2 (topSlotLocation (PCMappingSlotInfo_new b))
                 (nextSlotLocation (PCMappingSlotInfo_new b))) =? b)).
  assert (H : p b = true).
  { apply (forallb_seqZ p 64); [vm_compute; reflexivity | exact Hb]. }
  unfold p in H. rewrite Hn in H. simpl in H. apply Z.eqb_eq. exact H.
Qed.

Lemma PCMappingSlotInfo_made_from_decoded_witness :
  toByte (MakeSlotInfo2 (topSlotLocation (PCMappingSlotInfo_new 30))
            (nextSlotLocation (PCMappingSlotInfo_new 30))) = 30.
Proof.
  apply (PCMappingSlotInfo_made_from_decoded 30); [lia | reflexivity..].
Defined.

Lemma shiftl_1_testbit k i : 0 <= k -> Z.testbit (Z.shiftl 1 k) i = (k =? i).
Proof. intros Hk. rewrite Z.shiftl_1_l. apply Z.pow2_bits_eqb. exact Hk. Qed.

Lemma flag_test_bit f k : 0 <= k -> flag_test f (Z.shiftl 1 k) = Z.testbit f k.
Proof.
  intros Hk. unfold flag_test.
  destruct (Z.testbit f k) eqn:E.
  - destruct (Z.eqb_spec (Z.land f (Z.shiftl 1 k)) 0) as [H0|]; [|reflexivity].
    assert (Hb : Z.testbit (Z.land f (Z.shiftl 1 k)) k = true).
    { rewrite Z.land_spec, E, shiftl_1_testbit, Z.eqb_refl by lia. reflexivity. }
    rewrite H0, Z.bits_0 in Hb. discriminate.
  - assert (H0 : Z.land f (Z.shiftl 1 k) = 0).
    { apply Z.bits_inj'. intros n Hn.
      rewrite Z.land_spec, shiftl_1_testbit, Z.bits_0 by lia.
      destruct (Z.eqb_spec k n) as [->|]; [rewrite E|]; auto using andb_false_r. }
    rewrite H0. reflexivity.
Qed.

Lemma flag_set_bit f k i :
  0 <= k -> Z.testbit (flag_set f (Z.shiftl 1 k)) i = Z.testbit f i || (k =? i).
Proof. intros Hk. unfold flag_set. rewrite Z.lor_spec, shiftl_1_testbit by lia. reflexivity. Qed.

Lemma flag_clear_bit f k i :
  0 <= f < 2 ^ 32 -> 0 <= k -> 0 <= i ->
  Z.testbit (flag_clear f (Z.shiftl 1 k)) i = Z.testbit f i && negb (k =? i).
Proof.
  intros Hf Hk Hi. unfold flag_clear. rewrite Z.land_spec.
  destruct (Z.lt_ge_cases i 32) as [Hlt|Hge].
  - rewrite Z.mod_pow2_bits_low by lia.
    rewrite Z.lnot_spec, shiftl_1_testbit by lia. reflexivity.
  - rewrite Z.mod_pow2_bits_high by lia.
    assert (Hfi : Z.testbit f i = false).
    { destruct (Z.eq_dec f 0) as [->|Hne]; [apply Z.bits_0|].
      apply Z.bits_above_log2; [lia|].
      assert (Z.log2 f < 32) by (apply Z.log2_lt_pow2; lia). lia. }
    rewrite Hfi. reflexivity.
Qed.

Lemma flag_set_range f k : 0 <= f < 2 ^ 32 -> 0 <= k < 32 -> 0 <= flag_set f (Z.shiftl 1 k) < 2 ^ 32.
Proof.
  intros Hf Hk. unfold flag_set.
  assert (H1 : 0 <= Z.shiftl 1 k < 2 ^ 32).
  { rewrite Z.shiftl_1_l. split; [lia|]. apply Z.pow_lt_mono_r; lia. }
  split; [apply Z.lor_nonneg; lia|].
  destruct (Z.eq_dec (Z.lor f (Z.shiftl 1 k)) 0) as [->|Hne]; [lia|].
  apply Z.log2_lt_pow2; [assert (0 <= Z.lor f (Z.shiftl 1 k)) by (apply Z.lor_nonneg; lia); lia|].
  rewrite Z.log2_lor by lia.
  apply Z.max_lub_lt.
  - destruct (Z.eq_dec f 0) as [->|]; [simpl; lia|]. apply Z.log2_lt_pow2; lia.
  - rewrite Z.shiftl_1_l, Z.log2_pow2; lia.
Qed.

Lemma flag_clear_range f F : 0 <= f < 2 ^ 32 -> 0 <= flag_clear f F < 2 ^ 32.
Proof.
  intros Hf. unfold flag_clear.
  assert (Hm : 0 <= Z.lnot F mod 2 ^ 32) by (apply Z.mod_pos_bound; lia).
  assert (H0 : 0 <= Z.land f (Z.lnot F mod 2 ^ 32)) by (apply Z.land_nonneg; lia).
  split; [exact H0|].
  destruct (Z.eq_dec (Z.land f (Z.lnot F mod 2 ^ 32)) 0) as [->|Hne]; [lia|].
  apply Z.log2_lt_pow2; [lia|].
  pose proof (Z.log2_land f (Z.lnot F mod 2 ^ 32) ltac:(lia) Hm) as Hl.
  destruct (Z.eq_dec f 0) as [->|Hf0]; [rewrite Z.land_0_l in Hne; contradiction|].
  assert (Z.log2 f < 32) by (apply Z.log2_lt_pow2; lia). lia.
Qed.

(** X3.  On a 32-bit flag word: a flag that was set reads as set and a
    flag that was cleared reads as clear; of a set and a clear of the same
    flag the later one wins; the word stays a 32-bit word. *)
Theorem BaselineScript_flag_set_then_cleared f :
  0 <= f < 2 ^ 32 ->
  (active (setActive f) = true /\ active (resetActive f) = false /\
   resetActive (setActive f) = resetActive f /\
   setActive (resetActive f) = setActive f) /\
  (ionCompiledOrInlined (setIonCompiledOrInlined f) = true /\
   ionCompiledOrInlined (clearIonCompiledOrInlined f) = false /\
   clearIonCompiledOrInlined (setIonCompiledOrInlined f) = clearIonCompiledOrInlined f /\
   setIonCompiledOrInlined (clearIonCompiledOrInlined f) = setIonCompiledOrInlined f) /\
  (modifiesArguments (setModifiesArguments f) = true /\
   hasDebugInstrumentation (setHasDebugInstrumentation f) = true) /\
  (0 <= setActive f < 2 ^ 32 /\ 0 <= resetActive f < 2 ^ 32 /\
   0 <= setIonCompiledOrInlined f < 2 ^ 32 /\
   0 <= clearIonCompiledOrInlined f < 2 ^ 32).
Proof.
  intros Hf.
  assert (Hsc : forall k, 0 <= k < 32 ->
            flag_test (flag_set f (Z.shiftl 1 k)) (Z.shiftl 1 k) = true /\
            flag_test (flag_clear f (Z.shiftl 1 k)) (Z.shiftl 1 k) = false /\
            flag_clear (flag_set f (Z.shiftl 1 k)) (Z.shiftl 1 k) = flag_clear f (Z.shiftl 1 k) /\
            flag_set (flag_clear f (Z.shiftl 1 k)) (Z.shiftl 1 k) = flag_set f (Z.shiftl 1 k)).
  { intros k Hk.
    pose proof (flag_set_range f k Hf Hk) as Hr.
    repeat split.
    - rewrite flag_test_bit, flag_set_bit, Z.eqb_refl by lia. apply orb_true_r.
    - rewrite flag_test_bit, flag_clear_bit, Z.eqb_refl by lia. apply andb_false_r.
    - apply Z.bits_inj'. intros n Hn.
      rewrite !flag_clear_bit, flag_set_bit by lia.
      destruct (Z.testbit f n), (k =? n); reflexivity.
    - apply Z.bits_inj'. intros n Hn.
      rewrite !flag_set_bit, flag_clear_bit by lia.
      destruct (Z.testbit f n), (k =? n); reflexivity. }
  split; [apply (Hsc 1); lia|].
  split; [apply (Hsc 4); lia|].
  split; [split; [apply (Hsc 2); lia | apply (Hsc 3); lia]|].
  repeat split;
    try (apply (flag_set_range f 1 Hf); lia);
    try (apply (flag_set_range f 4 Hf); lia);
    try (apply (flag_clear_range f _ Hf)).
Qed.

Lemma BaselineScript_flag_set_then_cleared_witness :
  (active (setActive 9) = true /\ active (resetActive 9) = false /\
   resetActive (setActive 9) = resetActive 9 /\
   setActive (resetActive 9) = setActive 9) /\
  (ionCompiledOrInlined (setIonCompiledOrInlined 9) = true /\
   ionCompiledOrInlined (clearIonCompiledOrInlined 9) = false /\
   clearIonCompiledOrInlined (setIonCompiledOrInlined 9) = clearIonCompiledOrInlined 9 /\
   setIonCompiledOrInlined (clearIonCompiledOrInlined 9) = setIonCompiledOrInlined 9) /\
  (modifiesArguments (setModifiesArguments 9) = true /\
   hasDebugInstrumentation (setHasDebugInstrumentation 9) = true) /\
  (0 <= setActive 9 < 2 ^ 32 /\ 0 <= resetActive 9 < 2 ^ 32 /\
   0 <= setIonCompiledOrInlined 9 < 2 ^ 32 /\
   0 <= clearIonCompiledOrInlined 9 < 2 ^ 32).
Proof. apply (BaselineScript_flag_set_then_cleared 9). lia. Defined.

(** X4.  No operation on one flag disturbs another: marking a script
    active or inactive leaves the three other readable flags as they
    were, and setting any other flag, or clearing the compiled-or-inlined
    flag, leaves the active flag as it was. *)
Theorem BaselineScript_flags_independent f :
  0 <= f < 2 ^ 32 ->
  (modifiesArguments (setActive f) = modifiesArguments f /\
   hasDebugInstrumentation (setActive f) = hasDebugInstrumentation f /\
   ionCompiledOrInlined (setActive f) = ionCompiledOrInlined f) /\
  (modifiesArguments (resetActive f) = modifiesArguments f /\
   hasDebugInstrumentation (resetActive f) = hasDebugInstrumentation f /\
   ionCompiledOrInlined (resetActive f) = ionCompiledOrInlined f) /\
  (active (setNeedsArgsObj f) = active f /\
   active (setModifiesArguments f) = active f /\
   active (setHasDebugInstrumentation f) = active f /\
   active (setIonCompiledOrInlined f) = active f /\
   active (clearIonCompiledOrInlined f) = active f) /\
  (modifiesArguments (clearIonCompiledOrInlined f) = modifiesArguments f /\
   hasDebugInstrumentation (clearIonCompiledOrInlined f) = hasDebugInstrumentation f).
Proof.
  intros Hf.
  assert (Hs : forall j k, 0 <= j -> 0 <= k -> j <> k ->
            flag_test (flag_set f (Z.shiftl 1 j)) (Z.shiftl 1 k) = flag_test f (Z.shiftl 1 k)).
  { intros j k Hj Hk Hjk. rewrite !flag_test_bit, flag_set_bit by lia.
    destruct (Z.eqb_spec j k); [contradiction | apply orb_false_r]. }
  assert (Hc : forall j k, 0 <= j -> 0 <= k -> j <> k ->
            flag_test (flag_clear f (Z.shiftl 1 j)) (Z.shiftl 1 k) = flag_test f (Z.shiftl 1 k)).
  { intros j k Hj Hk Hjk. rewrite !flag_test_bit, flag_clear_bit by lia.
    destruct (Z.eqb_spec j k); [contradiction | apply andb_true_r]. }
  repeat split;
    first [ apply (Hs 1 2) | apply (Hs 1 3) | apply (Hs 1 4)
          | apply (Hc 1 2) | apply (Hc 1 3) | apply (Hc 1 4)
          | apply (Hs 0 1) | apply (Hs 2 1) | apply (Hs 3 1) | apply (Hs 4 1)
          | apply (Hc 4 1) | apply (Hc 4 2) | apply (Hc 4 3) ]; lia.
Qed.

Lemma BaselineScript_flags_independent_witness :
  (modifiesArguments (setActive 20) = modifiesArguments 20 /\
   hasDebugInstrumentation (setActive 20) = hasDebugInstrumentation 20 /\
   ionCompiledOrInlined (setActive 20) = ionCompiledOrInlined 20) /\
  (modifiesArguments (resetActive 20) = modifiesArguments 20 /\
   hasDebugInstrumentation (resetActive 20) = hasDebugInstrumentation 20 /\
   ionCompiledOrInlined (resetActive 20) = ionCompiledOrInlined 20) /\
  (active (setNeedsArgsObj 20) = active 20 /\
   active (setModifiesArguments 20) = active 20 /\
   active (setHasDebugInstrumentation 20) = active 20 /\
   active (setIonCompiledOrInlined 20) = active 20 /\
   active (clearIonCompiledOrInlined 20) = active 20) /\
  (modifiesArguments (clearIonCompiledOrInlined 20) = modifiesArguments 20 /\
   hasDebugInstrumentation (clearIonCompiledOrInlined 20) = hasDebugInstrumentation 20).
Proof. apply (BaselineScript_flags_independent 20). lia. Defined.

(** ** Exit frames and the walk *)

(** X5.  [EnsureExitFrame] changes nothing but the stored predecessor
    type; afterwards that type is the entry type or an unwound one, the
    unwound type names the type that was stored, and a second call changes
    nothing. *)
Theorem EnsureExitFrame_idempotent h :
  EnsureExitFrame (EnsureExitFrame h) = EnsureExitFrame h /\
  EnsureExitFrame h = changePrevType h (prevType (EnsureExitFrame h)) /\
  (prevType (EnsureExitFrame h) = JitFrame_Entry \/
   isUnwound (prevType (EnsureExitFrame h)) = true) /\
  plain_of_unwound (prevType (EnsureExitFrame h)) =
    (if bool_decide (prevType h = JitFrame_Exit \/ prevType h = JitFrame_Bailout)
     then JitFrame_IonJS else plain_of_unwound (prevType h)).
Proof.
  destruct h as [ra pt sz ct na].
  destruct pt; cbn; repeat split; auto.
Qed.

(** X6.  A frame that [EnsureExitFrame] has turned into an exit frame
    leads a new walk to the caller the frame led to before: from a scripted
    frame whose stored predecessor is an optimized frame, a baseline frame,
    a baseline stub or a rectifier, the step taken by an iterator that
    starts at that frame as an exit frame reaches the same address, return
    address and locals size; the type is the same too, except that a
    rectifier is seen as an unwound rectifier. *)
Theorem EnsureExitFrame_same_caller P (stack : Stack) it h it1 forkJoin :
  isScripted it = true ->
  stack !! current_ it = Some h ->
  prevType h = JitFrame_IonJS \/ prevType h = JitFrame_BaselineJS \/
    prevType h = JitFrame_BaselineStub \/ prevType h = JitFrame_Rectifier ->
  isFakeExitFrame P JitFrame_Exit (prevType (EnsureExitFrame h)) = true ->
  operator_incr P stack it = Some it1 ->
  exists it2,
    operator_incr P (<[current_ it := EnsureExitFrame h]> stack)
      (JitFrameIterator_new forkJoin (current_ it) None) = Some it2 /\
    current_ it2 = current_ it1 /\
    returnAddressToFp_ it2 = returnAddressToFp_ it1 /\
    frameSize_ it2 = frameSize_ it1 /\
    type_ it2 =
      (if decide (type_ it1 = JitFrame_Rectifier) then JitFrame_Unwound_Rectifier
       else type_ it1).
Proof.
  intros Hs Hh Hp Hfake H1.
  assert (Hsz : SizeOfFramePrefix P (type_ it) = Some (JitFrameLayout_Size P)).
  { unfold isScripted, isBaselineJS, isIonJS, isBailoutJS in Hs.
    destruct (type_ it); simpl in Hs; try discriminate; reflexivity. }
  unfold operator_incr, prevFp in H1. rewrite Hh, Hsz in H1. simpl in H1.
  unfold operator_incr, prevFp. simpl. rewrite lookup_insert_eq. simpl.
  rewrite Hfake.
  destruct Hp as [Hp|[Hp|[Hp|Hp]]];
    destruct h as [ra pt sz ct na]; simpl in *; subst pt; simpl in *;
    destruct (isFakeExitFrame P (type_ it) _); simpl in H1;
    injection H1 as <-; eexists; (split; [reflexivity|]); simpl; auto.
Qed.

Lemma EnsureExitFrame_same_caller_witness :
  exists it2,
    operator_incr example_platform
      (<[2000 := EnsureExitFrame (example_header 6100 JitFrame_BaselineStub 24
                                    (CalleeToken_Script 1))]>
         (example_stack_one_frame JitFrame_BaselineStub))
      (JitFrameIterator_new false 2000 None) = Some it2 /\
    current_ it2 = 2040 /\
    returnAddressToFp_ it2 = 6100 /\
    frameSize_ it2 = 24 /\
    type_ it2 = JitFrame_BaselineStub.
Proof.
  apply (EnsureExitFrame_same_caller example_platform
           (example_stack_one_frame JitFrame_BaselineStub)
           (example_frame_iterator SequentialExecution)
           (example_header 6100 JitFrame_BaselineStub 24 (CalleeToken_Script 1))
           {| current_ := 2040; type_ := JitFrame_BaselineStub;
              returnAddressToFp_ := 6100; frameSize_ := 24;
              mode_ := SequentialExecution; cachedSafepointIndex_ := None;
              bailoutData := None |} false);
    try reflexivity.
  right. right. left. reflexivity.
Defined.

Lemma operator_incr_plain_type P (stack : Stack) it it' :
  operator_incr P stack it = Some it' ->
  type_ it' <> JitFrame_Unwound_IonJS /\ type_ it' <> JitFrame_Unwound_BaselineJS /\
  type_ it' <> JitFrame_Unwound_BaselineStub.
Proof.
  unfold operator_incr. intros H.
  destruct (stack !! current_ it) as [h|]; simpl in H; [|discriminate].
  destruct (decide (prevType h = JitFrame_Entry)).
  - injection H as <-. repeat split; discriminate.
  - destruct (prevFp P it h); simpl in H; [|discriminate].
    injection H as <-. simpl. destruct (prevType h); repeat split; discriminate.
Qed.

Lemma steps_plain_type P (stack : Stack) n : forall it it',
  (type_ it <> JitFrame_Unwound_IonJS /\ type_ it <> JitFrame_Unwound_BaselineJS /\
   type_ it <> JitFrame_Unwound_BaselineStub) ->
  steps P stack n it = Some it' ->
  type_ it' <> JitFrame_Unwound_IonJS /\ type_ it' <> JitFrame_Unwound_BaselineJS /\
  type_ it' <> JitFrame_Unwound_BaselineStub.
Proof.
  induction n as [|n IH]; intros it it' Ht H; simpl in H.
  - injection H as <-. exact Ht.
  - destruct (operator_incr P stack it) as [it1|] eqn:H1; simpl in H; [|discriminate].
    apply (IH it1 it'); [|exact H]. eapply operator_incr_plain_type. exact H1.
Qed.

(** X7.  The loop of [MarkJitActivation] never reaches a [MOZ_CRASH] of
    its switch: a frame an iterator stands on, after any number of steps
    from its construction and before the entry frame, has a type the
    switch marks (or knowingly skips); the unwound tags of optimized and
    baseline frames and of baseline stubs never reach it. *)
Theorem MarkJitActivation_switch_total P (stack : Stack) forkJoin top bd n it :
  steps P stack n (JitFrameIterator_new forkJoin top bd) = Some it ->
  isEntry it = false ->
  is_Some (MarkJitActivation_switch (type_ it)) /\
  type_ it <> JitFrame_Unwound_IonJS /\ type_ it <> JitFrame_Unwound_BaselineJS /\
  type_ it <> JitFrame_Unwound_BaselineStub.
Proof.
  intros Hsteps Hne.
  assert (H0 : type_ (JitFrameIterator_new forkJoin top bd) <> JitFrame_Unwound_IonJS /\
               type_ (JitFrameIterator_new forkJoin top bd) <> JitFrame_Unwound_BaselineJS /\
               type_ (JitFrameIterator_new forkJoin top bd) <> JitFrame_Unwound_BaselineStub).
  { destruct bd; repeat split; discriminate. }
  pose proof (steps_plain_type P stack n _ _ H0 Hsteps) as (H1 & H2 & H3).
  split; [|auto].
  unfold isEntry in Hne.
  destruct (type_ it); simpl in *; try (eexists; reflexivity); try contradiction; discriminate.
Qed.

Lemma MarkJitActivation_switch_total_witness :
  is_Some (MarkJitActivation_switch JitFrame_IonJS) /\
  JitFrame_IonJS <> JitFrame_Unwound_IonJS /\ JitFrame_IonJS <> JitFrame_Unwound_BaselineJS /\
  JitFrame_IonJS <> JitFrame_Unwound_BaselineStub.
Proof.
  apply (MarkJitActivation_switch_total example_platform example_stack_exit_ion
           false 1000 None 1
           {| current_ := 1032; type_ := JitFrame_IonJS; returnAddressToFp_ := 6100;
              frameSize_ := 24; mode_ := SequentialExecution;
              cachedSafepointIndex_ := None; bailoutData := None |});
    reflexivity.
Defined.

Lemma SizeOfFramePrefix_nonneg P (stack : Stack) t sz :
  sizes_nonneg P stack -> SizeOfFramePrefix P t = Some sz -> 0 <= sz.
Proof.
  intros (H1 & H2 & H3 & H4 & H5 & H6 & _) H.
  destruct t; simpl in H; try discriminate; injection H as <-; assumption.
Qed.

Lemma operator_incr_address P (stack : Stack) it it' :
  sizes_nonneg P stack ->
  operator_incr P stack it = Some it' -> current_ it <= current_ it'.
Proof.
  intros Hs H. unfold operator_incr in H.
  destruct (stack !! current_ it) as [h|] eqn:Hh; simpl in H; [|discriminate].
  destruct (decide (prevType h = JitFrame_Entry)).
  - injection H as <-. simpl. lia.
  - unfold prevFp in H.
    destruct (SizeOfFramePrefix P (type_ it)) as [sz|] eqn:Hsz; simpl in H; [|discriminate].
    pose proof (SizeOfFramePrefix_nonneg P stack _ _ Hs Hsz) as Hsz0.
    assert (Hl : 0 <= prevFrameLocalSize h).
    { destruct Hs as (_ & _ & _ & _ & _ & _ & Hall). exact (Hall _ _ Hh). }
    destruct Hs as (_ & Hj & _).
    destruct (isFakeExitFrame P (type_ it) (prevType h)); simpl in H;
      injection H as <-; simpl; lia.
Qed.

(** X8.  With the unsigned sizes of the sources, the walk never goes back:
    after any number of steps the iterator stands at an address that is not
    below the one it started from. *)
Theorem steps_address_monotone P (stack : Stack) n : forall it it',
  sizes_nonneg P stack ->
  steps P stack n it = Some it' -> current_ it <= current_ it'.
Proof.
  induction n as [|n IH]; intros it it' Hs H; simpl in H.
  - injection H as <-. lia.
  - destruct (operator_incr P stack it) as [it1|] eqn:H1; simpl in H; [|discriminate].
    pose proof (operator_incr_address P stack it it1 Hs H1).
    pose proof (IH it1 it' Hs H). lia.
Qed.

Lemma steps_address_monotone_witness :
  current_ (JitFrameIterator_new false 1000 None) <= current_ example_ion_iterator.
Proof.
  apply (steps_address_monotone example_platform example_stack_exit_ion 1
           (JitFrameIterator_new false 1000 None) example_ion_iterator).
  - unfold sizes_nonneg. simpl. repeat split; try lia.
    apply (bool_decide_unpack
             (map_Forall (fun _ h => 0 <= prevFrameLocalSize h) example_stack_exit_ion)).
    vm_compute. exact I.
  - reflexivity.
Defined.

(** ** Leaving parallel execution *)

Lemma advanceUntil_steps stop P (stack : Stack) : forall n it it' fuel,
  steps P stack n it = Some it' ->
  stop it' = true ->
  (forall k itk, (k < n)%nat -> steps P stack k it = Some itk -> stop itk = false) ->
  (n < fuel)%nat ->
  advanceUntil stop P stack fuel it = Some it'.
Proof.
  induction n as [|n IH]; intros it it' fuel Hsteps Hstop Hbefore Hfuel;
    (destruct fuel as [|fuel]; [lia|]); simpl in *.
  - injection Hsteps as <-. rewrite Hstop. reflexivity.
  - rewrite (Hbefore 0%nat it) by (try lia; reflexivity).
    destruct (operator_incr P stack it) as [it1|] eqn:H1; simpl in *; [|discriminate].
    apply (IH it1 it' fuel); try assumption; try lia.
    intros k itk Hk Hs. apply (Hbefore (S k) itk); [lia|].
    simpl. rewrite H1. exact Hs.
Qed.

Lemma steps_last P (stack : Stack) : forall n it it',
  steps P stack (S n) it = Some it' ->
  exists itp, steps P stack n it = Some itp /\ operator_incr P stack itp = Some it'.
Proof.
  induction n as [|n IH]; intros it it' H.
  - simpl in H. destruct (operator_incr P stack it) as [it1|] eqn:H1; simpl in H;
      [|discriminate]. injection H as <-. exists it. split; [reflexivity | exact H1].
  - change (steps P stack (S (S n)) it)
      with (operator_incr P stack it ≫= steps P stack (S n)) in H.
    destruct (operator_incr P stack it) as [it1|] eqn:H1; simpl in H; [|discriminate].
    destruct (IH it1 it' H) as (itp & Hp & Hlast).
    exists itp. split; [|exact Hlast]. simpl. rewrite H1. exact Hp.
Qed.

(** X9.  [HandleParallelFailure] ends at the entry frame: when the walk
    from the top of the stack meets its first optimized frame after [n]
    steps and, [m] steps further, the entry position, then with enough
    fuel the function records the bailout kind read at that optimized
    frame, sets the resume kind to RESUME_ENTRY_FRAME and the stack pointer
    to the address of the frame whose header names the entry frame as its
    caller; the other fields of the resume record are left as they were. *)
Theorem HandleParallelFailure_resumes_at_entry P (stack : Stack) top bd bailoutKind rfe
    n m itI itE fuel :
  steps P stack n (JitFrameIterator_new true top bd) = Some itI ->
  isIonJS itI = true ->
  (forall k itk, (k < n)%nat ->
     steps P stack k (JitFrameIterator_new true top bd) = Some itk -> isIonJS itk = false) ->
  steps P stack m itI = Some itE ->
  done itE = true ->
  (forall k itk, (k < m)%nat -> steps P stack k itI = Some itk -> done itk = false) ->
  (n < fuel)%nat -> (m < fuel)%nat ->
  HandleParallelFailure P stack fuel top bd bailoutKind rfe =
    Some ({| rfe_framePointer := rfe_framePointer rfe;
             rfe_stackPointer := current_ itE;
             rfe_target := rfe_target rfe;
             rfe_kind := RESUME_ENTRY_FRAME;
             rfe_exception := rfe_exception rfe |}, bailoutKind itI) /\
  exists h, stack !! current_ itE = Some h /\ prevType h = JitFrame_Entry.
Proof.
  intros HsI HI HbI HsE HE HbE Hn Hm. split.
  - unfold HandleParallelFailure.
    rewrite (advanceUntil_steps isIonJS P stack n _ itI fuel HsI HI HbI Hn).
    cbn [mbind option_bind].
    rewrite (advanceUntil_steps done P stack m itI itE fuel HsE HE HbE Hm).
    reflexivity.
  - destruct m as [|m].
    + simpl in HsE. injection HsE as <-.
      unfold done, isEntry, isIonJS in *.
      apply bool_decide_eq_true in HI, HE. congruence.
    + destruct (steps_last P stack m itI itE HsE) as (itp & _ & Hlast).
      unfold done, isEntry in HE. apply bool_decide_eq_true in HE.
      destruct (operator_incr_to_entry P stack itp itE Hlast HE) as (Hc & h & Hh & Hp).
      exists h. rewrite Hc. auto.
Qed.

Lemma HandleParallelFailure_resumes_at_entry_witness :
  HandleParallelFailure example_platform example_stack_exit_ion 3 1000 None
    (fun it => returnAddressToFp_ it) example_rfe =
    Some ({| rfe_framePointer := 0; rfe_stackPointer := 1032; rfe_target := 0;
             rfe_kind := RESUME_ENTRY_FRAME; rfe_exception := 0 |}, 6100) /\
  exists h, example_stack_exit_ion !! 1032 = Some h /\ prevType h = JitFrame_Entry.
Proof.
  apply (HandleParallelFailure_resumes_at_entry example_platform example_stack_exit_ion
           1000 None (fun it => returnAddressToFp_ it) example_rfe 1 1
           {| current_ := 1032; type_ := JitFrame_IonJS; returnAddressToFp_ := 6100;
              frameSize_ := 24; mode_ := ParallelExecution;
              cachedSafepointIndex_ := None; bailoutData := None |}
           {| current_ := 1032; type_ := JitFrame_Entry; returnAddressToFp_ := 6100;
              frameSize_ := 0; mode_ := ParallelExecution;
              cachedSafepointIndex_ := None; bailoutData := None |} 3).
  - reflexivity.
  - reflexivity.
  - intros k itk Hk Hs. destruct k as [|k]; [|lia].
    simpl in Hs. injection Hs as <-. reflexivity.
  - reflexivity.
  - reflexivity.
  - intros k itk Hk Hs. destruct k as [|k]; [|lia].
    simpl in Hs. injection Hs as <-. reflexivity.
  - lia.
  - lia.
Defined.

Lemma operator_incr_at_entry P (stack : Stack) itp itE :
  operator_incr P stack itp = Some itE ->
  type_ itE = JitFrame_Entry ->
  operator_incr P stack itE = Some itE.
Proof.
  intros H Ht.
  destruct (operator_incr_to_entry P stack itp itE H Ht) as (Hc & h & Hh & Hp).
  rewrite (operator_incr_entry P stack itp h Hh Hp) in H. injection H as <-.
  unfold operator_incr. simpl. rewrite Hh. simpl.
  destruct (decide (prevType h = JitFrame_Entry)); [reflexivity | contradiction].
Qed.

Lemma advanceUntil_stuck stop P (stack : Stack) it :
  operator_incr P stack it = Some it -> stop it = false ->
  forall fuel, advanceUntil stop P stack fuel it = None.
Proof.
  intros Hfix Hstop. induction fuel as [|fuel IH]; simpl; [reflexivity|].
  rewrite Hstop, Hfix. exact IH.
Qed.

Lemma advanceUntil_not_yet stop P (stack : Stack) : forall n it it',
  steps P stack n it = Some it' ->
  (forall k itk, (k < n)%nat -> steps P stack k it = Some itk -> stop itk = false) ->
  (forall fuel, advanceUntil stop P stack fuel it' = None) ->
  forall fuel, advanceUntil stop P stack fuel it = None.
Proof.
  induction n as [|n IH]; intros it it' Hsteps Hbefore Hend fuel; simpl in Hsteps.
  - injection Hsteps as <-. apply Hend.
  - destruct fuel as [|fuel]; [reflexivity|]. simpl.
    rewrite (Hbefore 0%nat it) by (try lia; reflexivity).
    destruct (operator_incr P stack it) as [it1|] eqn:H1; simpl in *; [|discriminate].
    apply (IH it1 it'); try assumption.
    intros k itk Hk Hs. apply (Hbefore (S k) itk); [lia|].
    simpl. rewrite H1. exact Hs.
Qed.

(** X10.  [HandleParallelFailure] needs an optimized frame on the stack:
    when the walk from the top of the stack comes to the entry position
    without having met one, a further step leaves the iterator where it
    is, the first loop of the function has no end, and the function
    returns for no amount of fuel. *)
Theorem HandleParallelFailure_needs_optimized_frame P (stack : Stack) top bd bailoutKind rfe
    n itE :
  steps P stack n (JitFrameIterator_new true top bd) = Some itE ->
  done itE = true ->
  (forall k itk, (k < n)%nat ->
     steps P stack k (JitFrameIterator_new true top bd) = Some itk -> isIonJS itk = false) ->
  operator_incr P stack itE = Some itE /\
  forall fuel, HandleParallelFailure P stack fuel top bd bailoutKind rfe = None.
Proof.
  intros Hsteps HE Hbefore.
  unfold done, isEntry in HE. apply bool_decide_eq_true in HE.
  assert (Hfix : operator_incr P stack itE = Some itE).
  { destruct n as [|n].
    - simpl in Hsteps. injection Hsteps as <-. destruct bd; discriminate.
    - destruct (steps_last P stack n _ itE Hsteps) as (itp & _ & Hlast).
      exact (operator_incr_at_entry P stack itp itE Hlast HE). }
  split; [exact Hfix|]. intros fuel. unfold HandleParallelFailure.
  rewrite (advanceUntil_not_yet isIonJS P stack n _ itE Hsteps Hbefore); [reflexivity|].
  apply advanceUntil_stuck; [exact Hfix|].
  unfold isIonJS. rewrite HE. reflexivity.
Qed.

Lemma HandleParallelFailure_needs_optimized_frame_witness :
  operator_incr example_platform (example_stack_one_frame JitFrame_Entry)
    {| current_ := 2000; type_ := JitFrame_Entry; returnAddressToFp_ := 0;
       frameSize_ := 24; mode_ := ParallelExecution;
       cachedSafepointIndex_ := None; bailoutData := None |}
  = Some {| current_ := 2000; type_ := JitFrame_Entry; returnAddressToFp_ := 0;
            frameSize_ := 24; mode_ := ParallelExecution;
            cachedSafepointIndex_ := None; bailoutData := None |} /\
  forall fuel,
    HandleParallelFailure example_platform (example_stack_one_frame JitFrame_Entry)
      fuel 2000 None (fun it => returnAddressToFp_ it) example_rfe = None.
Proof.
  apply (HandleParallelFailure_needs_optimized_frame example_platform
           (example_stack_one_frame JitFrame_Entry) 2000 None
           (fun it => returnAddressToFp_ it) example_rfe 1).
  - reflexivity.
  - reflexivity.
  - intros k itk Hk Hs. destruct k as [|k]; [|lia].
    simpl in Hs. injection Hs as <-. reflexivity.
Defined.

(** ** Exceptions in a baseline frame *)

Lemma tryNoteStep_not_applicable P C it scp sc pcOffset u w tn bf :
  baselineFrames (u_heap u) !! fp it = Some bf ->
  tryNoteApplies tn pcOffset (frameStackDepth bf sc) = false ->
  tryNoteStep P C it scp sc pcOffset (u, w) tn = Some (Fallthrough (u, w)).
Proof.
  intros Hbf Happ. unfold tryNoteApplies in Happ. unfold tryNoteStep.
  destruct (Z.ltb_spec pcOffset (tn_start tn)); [reflexivity|].
  destruct (Z.leb_spec ((tn_start tn + tn_length tn) mod 2 ^ 32) pcOffset); [reflexivity|].
  rewrite Hbf. cbn [mbind option_bind].
  destruct (Z.ltb_spec (frameStackDepth bf sc) (tn_stackDepth tn)); [reflexivity|].
  exfalso.
  destruct (Z.leb_spec (tn_start tn) pcOffset); [|lia].
  destruct (Z.ltb_spec pcOffset ((tn_start tn + tn_length tn) mod 2 ^ 32)); [|lia].
  destruct (Z.leb_spec (tn_stackDepth tn) (frameStackDepth bf sc)); [|lia].
  discriminate.
Qed.

Lemma tryNoteLoop_not_applicable P C it scp sc pcOffset u w bf : forall tns,
  baselineFrames (u_heap u) !! fp it = Some bf ->
  Forall (fun tn => tryNoteApplies tn pcOffset (frameStackDepth bf sc) = false) tns ->
  tryNoteLoop P C it scp sc pcOffset tns (u, w) = Some (Fallthrough (u, w)).
Proof.
  induction tns as [|tn tns IH]; intros Hbf Hall; [reflexivity|].
  apply Forall_cons in Hall as [Htn Hall]. cbn [tryNoteLoop].
  rewrite (tryNoteStep_not_applicable P C it scp sc pcOffset u w tn bf Hbf Htn).
  cbn [mbind option_bind]. apply IH; assumption.
Qed.

(** X11.  An exception no try note applies to passes through a baseline
    frame and leaves nothing behind but what the debugger's hook has done:
    when no forced return is being propagated, the hook, if it is called,
    does not ask for a return, what is pending in the state the hook leaves
    is not the closing of a generator, and every try note of the script
    either does not hold the pc in its region or lies deeper than the stack
    of the frame (the depth being the unsigned difference the handler
    computes), the handler returns the state the hook has left, with the
    resume record as it was, and reports no unwound scope and no call of
    the debug epilogue.  Outside a debuggee compartment that state is the
    one the handler was given. *)
Theorem HandleExceptionBaseline_no_applicable_note
    P C it u scp pc verdict u1 it1 sc bf tns :
  scriptPtr (u_heap u) (u_stack u) it = Some scp ->
  baselineScriptAndPc (u_heap u) (u_stack u) it true = Some (Some pc) ->
  u_propagatingForcedReturn u = false ->
  onExceptionUnwindHook C it u = (verdict, u1, it1) ->
  verdict <> Some JSTRAP_RETURN ->
  (u_exceptionPending u1 = true -> getPendingException_ok C = true ->
   isGeneratorClosing C (u_pendingException u1) = false) ->
  scripts (u_heap u1) !! scp = Some sc ->
  baselineFrames (u_heap u1) !! fp it = Some bf ->
  trynotes sc = Some tns ->
  Forall (fun tn => tryNoteApplies tn ((pc - script_main sc) mod 2 ^ 32)
                      (frameStackDepth bf sc) = false) tns ->
  HandleExceptionBaseline P C it u 0 false = Some (u1, 0, false, it1) /\
  u_rfe u1 = u_rfe u /\
  (compartment_isDebuggee C = false -> u1 = u /\ it1 = it).
Proof.
  intros Hptr Hpc Hforced Hhook Hverdict Hclosing Hsc Hbf Htn Hall.
  split; [|split].
  - unfold HandleExceptionBaseline.
    rewrite Hptr. cbn [mbind option_bind]. rewrite Hpc. cbn [mbind option_bind].
    rewrite Hforced, Hhook.
    rewrite <- (onExceptionUnwindHook_fp C it u verdict u1 it1 Hhook) in Hbf.
    assert (Hrest : HandleExceptionBaseline_tryNotes P C it1 scp pc u1 0 false
                    = Some (u1, 0, false)).
    { unfold HandleExceptionBaseline_tryNotes.
      rewrite Hsc. cbn [mbind option_bind]. rewrite Htn.
      rewrite (tryNoteLoop_not_applicable P C it1 scp sc _ u1 0 bf tns Hbf Hall).
      cbn [mbind option_bind]. unfold HandleClosingGeneratorReturn.
      destruct (u_exceptionPending u1); cbn [negb]; [|reflexivity].
      destruct (getPendingException_ok C); cbn [negb]; [|reflexivity].
      rewrite (Hclosing eq_refl eq_refl). reflexivity. }
    destruct verdict as [[| | |]|]; try (rewrite Hrest; reflexivity). contradiction.
  - apply (onExceptionUnwindHook_rfe C it u verdict u1 it1 Hhook).
  - intros Hdbg. rewrite (onExceptionUnwindHook_not_debuggee C it u Hdbg) in Hhook.
    injection Hhook as _ <- <-. split; reflexivity.
Qed.

Lemma HandleExceptionBaseline_no_applicable_note_witness :
  HandleExceptionBaseline example_platform (example_collaborators false)
    (example_iterator 2000 JitFrame_BaselineJS 6120 SequentialExecution None)
    example_catch_unwind 0 false
  = Some (example_catch_unwind, 0, false,
          example_iterator 2000 JitFrame_BaselineJS 6120 SequentialExecution None) /\
  u_rfe example_catch_unwind = u_rfe example_catch_unwind /\
  (compartment_isDebuggee (example_collaborators false) = false ->
   example_catch_unwind = example_catch_unwind /\
   example_iterator 2000 JitFrame_BaselineJS 6120 SequentialExecution None
   = example_iterator 2000 JitFrame_BaselineJS 6120 SequentialExecution None).
Proof.
  apply (HandleExceptionBaseline_no_applicable_note example_platform
           (example_collaborators false)
           (example_iterator 2000 JitFrame_BaselineJS 6120 SequentialExecution None)
           example_catch_unwind 1 (5008 + 30) None example_catch_unwind
           (example_iterator 2000 JitFrame_BaselineJS 6120 SequentialExecution None)
           (example_script None None (Some example_baseline) (Some [catch_10_20]))
           (example_baseline_frame 0 None 3) [catch_10_20]);
    try reflexivity.
  - discriminate.
  - repeat constructor.
Defined.




(** The wrapped depth is what decides: a frame with fewer value slots than
    its script has fixed slots, which the assertion of the handler rules
    out and a release build lets through, has a depth of many values, and
    the catch region applies to it. *)
Example tryNoteApplies_wrapped_depth :
  frameStackDepth (example_baseline_frame 0 None 0)
    (example_script None None (Some example_baseline) (Some [catch_10_20])) = 2 ^ 32 - 1 /\
  tryNoteApplies catch_10_20 15
    (frameStackDepth (example_baseline_frame 0 None 0)
       (example_script None None (Some example_baseline) (Some [catch_10_20]))) = true.
Proof. split; reflexivity. Qed.

Lemma tryNoteLoop_skips_prefix P C it scp sc pcOffset u w bf : forall pre rest,
  baselineFrames (u_heap u) !! fp it = Some bf ->
  Forall (fun tn => tryNoteApplies tn pcOffset (frameStackDepth bf sc) = false) pre ->
  tryNoteLoop P C it scp sc pcOffset (pre ++ rest) (u, w)
  = tryNoteLoop P C it scp sc pcOffset rest (u, w).
Proof.
  induction pre as [|tn pre IH]; intros rest Hbf Hall; [reflexivity|].
  apply Forall_cons in Hall as [Htn Hall]. cbn [app tryNoteLoop].
  rewrite (tryNoteStep_not_applicable P C it scp sc pcOffset u w tn bf Hbf Htn).
  cbn [mbind option_bind]. apply IH; assumption.
Qed.

(** X13.  The first try note that applies decides, and a finally block
    takes every pending exception.  When no forced return is asked for
    (none is being propagated, and the debugger's hook, if it is called,
    does not answer with a return), an exception is pending in the state
    the hook leaves, be it the closing of a generator, and the first note
    of the table that applies to the pc and to the depth of the stack is of
    kind finally, the handler resumes with kind RESUME_FINALLY at the
    native code for the pc at the end of the region, hands over the
    exception in the resume record (the undefined value when it cannot be
    fetched), and clears the pending exception; the heap, and with it the
    warm-up counter of the script, is as the hook has left it. *)
Theorem HandleExceptionBaseline_finally
    P C it u scp pc verdict u1 it1 sc bf b pre tn post :
  scriptPtr (u_heap u) (u_stack u) it = Some scp ->
  baselineScriptAndPc (u_heap u) (u_stack u) it true = Some (Some pc) ->
  u_propagatingForcedReturn u = false ->
  onExceptionUnwindHook C it u = (verdict, u1, it1) ->
  verdict <> Some JSTRAP_RETURN ->
  u_exceptionPending u1 = true ->
  scripts (u_heap u1) !! scp = Some sc ->
  baseline sc = Some b ->
  baselineFrames (u_heap u1) !! fp it = Some bf ->
  trynotes sc = Some (pre ++ tn :: post) ->
  Forall (fun tn => tryNoteApplies tn ((pc - script_main sc) mod 2 ^ 32)
                      (frameStackDepth bf sc) = false) pre ->
  tryNoteApplies tn ((pc - script_main sc) mod 2 ^ 32) (frameStackDepth bf sc) = true ->
  tn_kind tn = JSTRY_FINALLY ->
  exists u',
    HandleExceptionBaseline P C it u 0 false
      = Some (u', UnwindScopeToTryPc C sc tn, false, it1) /\
    rfe_kind (u_rfe u') = RESUME_FINALLY /\
    rfe_target (u_rfe u') = nativeCodeForPC b (script_main sc + tn_start tn + tn_length tn) /\
    rfe_exception (u_rfe u') =
      (if getPendingException_ok C then u_pendingException u1
       else UndefinedValue (values C)) /\
    u_exceptionPending u' = false /\
    u_heap u' = u_heap u1.
Proof.
  intros Hptr Hpc Hforced Hhook Hverdict Hpend Hsc Hb Hbf Htn Hpre Happ Hkind.
  rewrite <- (onExceptionUnwindHook_fp C it u verdict u1 it1 Hhook) in Hbf.
  assert (Hrest : exists u',
            HandleExceptionBaseline_tryNotes P C it1 scp pc u1 0 false
              = Some (u', UnwindScopeToTryPc C sc tn, false) /\
            rfe_kind (u_rfe u') = RESUME_FINALLY /\
            rfe_target (u_rfe u')
              = nativeCodeForPC b (script_main sc + tn_start tn + tn_length tn) /\
            rfe_exception (u_rfe u') =
              (if getPendingException_ok C then u_pendingException u1
               else UndefinedValue (values C)) /\
            u_exceptionPending u' = false /\
            u_heap u' = u_heap u1).
  { unfold HandleExceptionBaseline_tryNotes.
    rewrite Hsc. cbn [mbind option_bind]. rewrite Htn.
    rewrite (tryNoteLoop_skips_prefix P C it1 scp sc _ u1 0 bf pre (tn :: post) Hbf Hpre).
    cbn [tryNoteLoop]. unfold tryNoteStep.
    unfold tryNoteApplies in Happ.
    destruct (Z.leb_spec (tn_start tn) ((pc - script_main sc) mod 2 ^ 32)) as [Hs|];
      [|discriminate].
    destruct (Z.ltb_spec ((pc - script_main sc) mod 2 ^ 32)
                ((tn_start tn + tn_length tn) mod 2 ^ 32)) as [He|]; [|discriminate].
    destruct (Z.leb_spec (tn_stackDepth tn) (frameStackDepth bf sc)) as [Hd|];
      [|discriminate].
    destruct (Z.ltb_spec ((pc - script_main sc) mod 2 ^ 32) (tn_start tn)); [lia|].
    destruct (Z.leb_spec ((tn_start tn + tn_length tn) mod 2 ^ 32)
                ((pc - script_main sc) mod 2 ^ 32)); [lia|].
    rewrite Hbf. cbn [mbind option_bind].
    destruct (Z.ltb_spec (frameStackDepth bf sc) (tn_stackDepth tn)); [lia|].
    rewrite Hkind, Hpend.
    cbn [set_rfe u_exceptionPending u_pendingException u_heap u_rfe].
    rewrite Hpend, Hb. cbn [mbind option_bind].
    eexists. split; [reflexivity|]. cbn. repeat split. }
  destruct Hrest as (u' & Hrun & Hprops).
  exists u'. split; [|exact Hprops].
  unfold HandleExceptionBaseline.
  rewrite Hptr. cbn [mbind option_bind]. rewrite Hpc. cbn [mbind option_bind].
  rewrite Hforced, Hhook.
  destruct verdict as [[| | |]|]; try (rewrite Hrun; reflexivity). contradiction.
Qed.

(** The closing of a generator is pending in a frame whose first applicable
    note is a finally block. *)
Lemma HandleExceptionBaseline_finally_witness :
  exists u',
    HandleExceptionBaseline example_platform (example_collaborators false)
      example_catch_iterator
      (set_pending example_finally_unwind true example_generator_closing) 0 false
      = Some (u', 5018, false, example_catch_iterator) /\
    rfe_kind (u_rfe u') = RESUME_FINALLY /\
    rfe_target (u_rfe u') = nativeCodeForPC example_baseline (5008 + 10 + 10) /\
    rfe_exception (u_rfe u') = example_generator_closing /\
    u_exceptionPending u' = false /\
    u_heap u' = u_heap example_finally_unwind.
Proof.
  apply (HandleExceptionBaseline_finally example_platform (example_collaborators false)
           example_catch_iterator
           (set_pending example_finally_unwind true example_generator_closing)
           1 (5008 + 15) None
           (set_pending example_finally_unwind true example_generator_closing)
           example_catch_iterator
           (example_script None None (Some example_baseline) (Some example_finally_notes))
           (example_baseline_frame 0 None 3) example_baseline
           [ {| tn_kind := JSTRY_LOOP; tn_stackDepth := 3; tn_start := 0; tn_length := 40 |} ]
           {| tn_kind := JSTRY_FINALLY; tn_stackDepth := 2; tn_start := 10; tn_length := 10 |}
           []);
    try reflexivity.
  - discriminate.
  - repeat constructor.
Defined.

(** The resume record of a forced return out of the baseline frame of an
    iterator. *)
Lemma ForcedReturn_outcome P C it pc u called :
  let r := DebugEpilogue C (fp it) pc true u in
  let u' := (ForcedReturn P C it pc u called).1 in
  (ForcedReturn P C it pc u called).2 = (if r.1 then called else true) /\
  set_rfe u' (u_rfe u) = set_rfe r.2 (u_rfe u) /\
  u_rfe u' =
    (if r.1
     then {| rfe_framePointer := fp it - BaselineFrame_FramePointerOffset P;
             rfe_stackPointer :=
               fp it - BaselineFrame_FramePointerOffset P - BaselineFrame_Size P;
             rfe_target := rfe_target (u_rfe u);
             rfe_kind := RESUME_FORCED_RETURN;
             rfe_exception := rfe_exception (u_rfe u) |}
     else u_rfe u).
Proof.
  unfold ForcedReturn, callDebugEpilogue.
  destruct (DebugEpilogue C (fp it) pc true u) as [[|] ue]; cbn; repeat split.
Qed.

(** X14.  The closing of a generator ends in a forced return: in a frame
    whose script has no try notes, with the closing of a generator as the
    pending exception and no forced return being propagated, the handler
    clears the pending exception and sets the return value of the frame to
    the undefined value, and then calls the debug epilogue.  When the
    epilogue agrees, the handler resumes with kind RESUME_FORCED_RETURN,
    the frame pointer of the baseline frame and the address of the baseline
    frame as the stack pointer; when the epilogue fails, the resume record
    is as it was and the handler reports that the epilogue has been
    called.  Apart from the resume record, the state is the one the
    epilogue has left. *)
Theorem HandleExceptionBaseline_closing_generator P C it u scp sc bf pc :
  scriptPtr (u_heap u) (u_stack u) it = Some scp ->
  scripts (u_heap u) !! scp = Some sc ->
  baselineScriptAndPc (u_heap u) (u_stack u) it true = Some (Some pc) ->
  baselineFrames (u_heap u) !! fp it = Some bf ->
  trynotes sc = None ->
  u_exceptionPending u = true ->
  getPendingException_ok C = true ->
  isGeneratorClosing C (u_pendingException u) = true ->
  u_propagatingForcedReturn u = false ->
  exists u0 u',
    updateBaselineFrame (setReturnValue (UndefinedValue (values C))) it
      (set_pending u false (u_pendingException u)) = Some u0 /\
    u_exceptionPending u0 = false /\
    baselineFrames (u_heap u0) !! fp it
      = Some (setReturnValue (UndefinedValue (values C)) bf) /\
    let r := DebugEpilogue C (fp it) pc true u0 in
    HandleExceptionBaseline P C it u 0 false = Some (u', 0, negb r.1, it) /\
    set_rfe u' (u_rfe u) = set_rfe r.2 (u_rfe u) /\
    u_rfe u' =
      (if r.1
       then {| rfe_framePointer := fp it - BaselineFrame_FramePointerOffset P;
               rfe_stackPointer :=
                 fp it - BaselineFrame_FramePointerOffset P - BaselineFrame_Size P;
               rfe_target := rfe_target (u_rfe u);
               rfe_kind := RESUME_FORCED_RETURN;
               rfe_exception := rfe_exception (u_rfe u) |}
       else u_rfe u).
Proof.
  intros Hptr Hsc Hpc Hbf Htn Hpend Hok Hclosing Hforced.
  assert (Hhook : onExceptionUnwindHook C it u = (None, u, it)).
  { unfold onExceptionUnwindHook. rewrite Hclosing, !andb_false_r. reflexivity. }
  unfold updateBaselineFrame at 1. cbn [set_pending u_heap]. rewrite Hbf.
  cbn [mbind option_bind].
  eexists. eexists. split; [reflexivity|]. split; [reflexivity|].
  split; [cbn; apply lookup_insert_eq|].
  cbv zeta.
  match goal with
  | |- context [DebugEpilogue C (fp it) pc true ?x] =>
      destruct (ForcedReturn_outcome P C it pc x false) as (Hcalled & Hstate & Hrfe)
  end.
  cbv zeta in Hcalled, Hstate, Hrfe.
  split; [|split; [exact Hstate | exact Hrfe]].
  unfold HandleExceptionBaseline.
  rewrite Hptr. cbn [mbind option_bind]. rewrite Hpc. cbn [mbind option_bind].
  rewrite Hforced, Hhook. unfold HandleExceptionBaseline_tryNotes.
  rewrite Hsc. cbn [mbind option_bind]. rewrite Htn.
  unfold HandleClosingGeneratorReturn. rewrite Hpend, Hok, Hclosing. cbn [negb].
  unfold updateBaselineFrame. cbn [set_pending u_heap]. rewrite Hbf.
  cbn [mbind option_bind]. change (0 =? 0) with true. cbn [negb].
  cbn [mbind option_bind fst snd]. rewrite Hcalled.
  match goal with
  | |- context [negb (fst ?d)] => destruct (fst d)
  end; reflexivity.
Qed.

Lemma HandleExceptionBaseline_closing_generator_witness :
  exists u0 u',
    updateBaselineFrame (setReturnValue (UndefinedValue (values (example_collaborators false))))
      example_catch_iterator
      (set_pending
         (set_pending
            (example_unwind
               (example_heap (example_script None None (Some example_baseline) None)
                  ∅ {[ 2000 := example_baseline_frame 0 None 3 ]} 0) ∅ true 1000)
            true example_generator_closing)
         false example_generator_closing) = Some u0 /\
    u_exceptionPending u0 = false /\
    baselineFrames (u_heap u0) !! fp example_catch_iterator
      = Some (setReturnValue (UndefinedValue (values (example_collaborators false)))
                (example_baseline_frame 0 None 3)) /\
    let r := DebugEpilogue (example_collaborators false) (fp example_catch_iterator)
               (5008 + 15) true u0 in
    HandleExceptionBaseline example_platform (example_collaborators false)
      example_catch_iterator
      (set_pending
         (example_unwind
            (example_heap (example_script None None (Some example_baseline) None)
               ∅ {[ 2000 := example_baseline_frame 0 None 3 ]} 0) ∅ true 1000)
         true example_generator_closing) 0 false
      = Some (u', 0, negb r.1, example_catch_iterator) /\
    set_rfe u' example_rfe = set_rfe r.2 example_rfe /\
    u_rfe u' =
      (if r.1
       then {| rfe_framePointer := 2000 - 4;
               rfe_stackPointer := 2000 - 4 - 32;
               rfe_target := 0;
               rfe_kind := RESUME_FORCED_RETURN;
               rfe_exception := 0 |}
       else example_rfe).
Proof.
  apply (HandleExceptionBaseline_closing_generator example_platform
           (example_collaborators false) example_catch_iterator
           (set_pending
              (example_unwind
                 (example_heap (example_script None None (Some example_baseline) None)
                    ∅ {[ 2000 := example_baseline_frame 0 None 3 ]} 0) ∅ true 1000)
              true example_generator_closing)
           1 (example_script None None (Some example_baseline) None)
           (example_baseline_frame 0 None 3) (5008 + 15));
    reflexivity.
Defined.



(** ** Forced returns and the recompile info of a baseline frame *)

(** X16.  A forced return passes every try note by: when a forced return
    is being propagated, or the debugger's hook on the unwinding of a
    catchable exception asks for a return, the handler reads no try note of
    the script, not even a finally; with the propagation flag cleared, or
    in the state the hook has left, it calls the debug epilogue.  When the
    epilogue agrees, the handler resumes with kind RESUME_FORCED_RETURN at
    the frame pointer of the baseline frame with the address of the
    baseline frame as the stack pointer; when the epilogue fails, the
    resume record is as it was and the handler reports that the epilogue
    has been called.  Apart from the resume record, the state is the one
    the epilogue has left. *)
Theorem HandleExceptionBaseline_forced_return P C it u scp pc u0 it0 :
  scriptPtr (u_heap u) (u_stack u) it = Some scp ->
  baselineScriptAndPc (u_heap u) (u_stack u) it true = Some (Some pc) ->
  (u_propagatingForcedReturn u = true /\
   u0 = clearPropagatingForcedReturn u /\ it0 = it) \/
  (u_propagatingForcedReturn u = false /\
   onExceptionUnwindHook C it u = (Some JSTRAP_RETURN, u0, it0)) ->
  let r := DebugEpilogue C (fp it) pc true u0 in
  exists u',
    HandleExceptionBaseline P C it u 0 false = Some (u', 0, negb r.1, it0) /\
    set_rfe u' (u_rfe u) = set_rfe r.2 (u_rfe u) /\
    u_rfe u' =
      (if r.1
       then {| rfe_framePointer := fp it - BaselineFrame_FramePointerOffset P;
               rfe_stackPointer :=
                 fp it - BaselineFrame_FramePointerOffset P - BaselineFrame_Size P;
               rfe_target := rfe_target (u_rfe u);
               rfe_kind := RESUME_FORCED_RETURN;
               rfe_exception := rfe_exception (u_rfe u) |}
       else u_rfe u).
Proof.
  intros Hptr Hpc Hwhy r.
  assert (Hfp : fp it0 = fp it).
  { destruct Hwhy as [(_ & _ & ->)|(_ & Hhook)]; [reflexivity|].
    apply (onExceptionUnwindHook_fp C it u _ u0 it0 Hhook). }
  assert (Hrfe : u_rfe u0 = u_rfe u).
  { destruct Hwhy as [(_ & -> & _)|(_ & Hhook)]; [reflexivity|].
    apply (onExceptionUnwindHook_rfe C it u _ u0 it0 Hhook). }
  destruct (ForcedReturn_outcome P C it0 pc u0 false) as (Hcalled & Hstate & Hout).
  cbv zeta in Hcalled, Hstate, Hout. rewrite Hfp, Hrfe in *. fold r in Hcalled, Hstate, Hout.
  exists (ForcedReturn P C it0 pc u0 false).1.
  split; [|split; [exact Hstate | exact Hout]].
  unfold HandleExceptionBaseline.
  rewrite Hptr. cbn [mbind option_bind]. rewrite Hpc. cbn [mbind option_bind].
  destruct Hwhy as [(Hprop & -> & ->)|(Hprop & Hhook)]; rewrite Hprop.
  - destruct (ForcedReturn P C it pc (clearPropagatingForcedReturn u) false) as [u2 c2].
    cbn [fst snd] in *. rewrite Hcalled. destruct r.1; reflexivity.
  - rewrite Hhook.
    destruct (ForcedReturn P C it0 pc u0 false) as [u2 c2].
    cbn [fst snd] in *. rewrite Hcalled. destruct r.1; reflexivity.
Qed.

(** The debugger answers the unwinding of the exception by a return: the
    catch region of the script is passed by. *)
Lemma HandleExceptionBaseline_forced_return_witness :
  let u0 := (example_hook_return example_catch_iterator example_catch_unwind).1.2 in
  let r := DebugEpilogue (example_collaborators true) (fp example_catch_iterator)
             (5008 + 15) true u0 in
  exists u',
    HandleExceptionBaseline example_platform (example_collaborators true)
      example_catch_iterator example_catch_unwind 0 false
      = Some (u', 0, negb r.1, example_catch_iterator) /\
    set_rfe u' example_rfe = set_rfe r.2 example_rfe /\
    u_rfe u' =
      (if r.1
       then {| rfe_framePointer := 2000 - 4;
               rfe_stackPointer := 2000 - 4 - 32;
               rfe_target := 0;
               rfe_kind := RESUME_FORCED_RETURN;
               rfe_exception := 0 |}
       else example_rfe).
Proof.
  apply (HandleExceptionBaseline_forced_return example_platform (example_collaborators true)
           example_catch_iterator example_catch_unwind 1 (5008 + 15)
           (example_hook_return example_catch_iterator example_catch_unwind).1.2
           example_catch_iterator).
  - reflexivity.
  - reflexivity.
  - right. split; reflexivity.
Defined.

Lemma updateBaselineFrame_deletes it u u' :
  updateBaselineFrame deleteDebugModeOSRInfo it u = Some u' ->
  exists bf, baselineFrames (u_heap u') !! fp it = Some bf /\ debugModeOSRInfo bf = None.
Proof.
  unfold updateBaselineFrame. intros H.
  destruct (baselineFrames (u_heap u) !! fp it) as [bf|]; cbn [mbind option_bind] in H;
    [|discriminate].
  injection H as <-. exists (deleteDebugModeOSRInfo bf). cbn.
  rewrite lookup_insert_eq. split; reflexivity.
Qed.

Lemma HandleExceptionBaseline_fp P C it u w called u' w' called' it' :
  HandleExceptionBaseline P C it u w called = Some (u', w', called', it') -> fp it' = fp it.
Proof.
  unfold HandleExceptionBaseline. intros H.
  destruct (scriptPtr (u_heap u) (u_stack u) it) as [scp|]; cbn [mbind option_bind] in H;
    [|discriminate].
  destruct (baselineScriptAndPc (u_heap u) (u_stack u) it true) as [opc|];
    cbn [mbind option_bind] in H; [|discriminate].
  destruct opc as [pc|]; cbn [mbind option_bind] in H; [|discriminate].
  destruct (u_propagatingForcedReturn u).
  { destruct (ForcedReturn P C it pc (clearPropagatingForcedReturn u) called) as [u2 c2].
    injection H as _ _ _ <-. reflexivity. }
  destruct (onExceptionUnwindHook C it u) as [[verdict u1] it1] eqn:Hhook.
  apply onExceptionUnwindHook_fp in Hhook. rewrite <- Hhook.
  assert (Hrest : (r ← HandleExceptionBaseline_tryNotes P C it1 scp pc u1 w called;
                   Some (r, it1)) = Some (u', w', called', it') -> fp it' = fp it1).
  { destruct (HandleExceptionBaseline_tryNotes P C it1 scp pc u1 w called) as [r|];
      cbn [mbind option_bind]; [|discriminate].
    intros [= _ <-]. reflexivity. }
  destruct verdict as [[| | |]|]; try (apply Hrest; exact H).
  destruct (ForcedReturn P C it1 pc u1 called) as [u2 c2].
  injection H as _ _ _ <-. reflexivity.
Qed.

(** X17.  The recompile info of a baseline frame does not outlive the
    handling of the frame: however the handling of a baseline frame in the
    loop of [HandleException] ends, resuming in the frame or going on to
    the caller, the frame holds no debug-mode OSR info afterwards. *)
Theorem HandleException_baseline_deletes_OSR_info P C it u o :
  HandleException_baseline P C it u = Some o ->
  exists bf,
    baselineFrames (u_heap (match o with Returned u' | Fallthrough u' => u' end)) !! fp it
      = Some bf /\
    debugModeOSRInfo bf = None.
Proof.
  unfold HandleException_baseline. intros H.
  destruct (HandleExceptionBaseline P C it u 0 false) as [[[[u1 w1] c1] it1]|] eqn:HB;
    cbn [mbind option_bind] in H; [|discriminate].
  apply HandleExceptionBaseline_fp in HB. rewrite <- HB.
  assert (Hend : forall (k : Unwind -> LoopOutcome Unwind) u0,
            (forall x, k x = Returned x \/ k x = Fallthrough x) ->
            k <$> updateBaselineFrame deleteDebugModeOSRInfo it1 u0 = Some o ->
            exists bf,
              baselineFrames
                (u_heap (match o with Returned u' | Fallthrough u' => u' end)) !! fp it1
                = Some bf /\
              debugModeOSRInfo bf = None).
  { intros k u0 Hk H0.
    destruct (updateBaselineFrame deleteDebugModeOSRInfo it1 u0) as [u2|] eqn:H1;
      simpl in H0; [|discriminate].
    injection H0 as <-. apply updateBaselineFrame_deletes in H1.
    destruct (Hk u2) as [-> | ->]; exact H1. }
  destruct (negb (bool_decide (rfe_kind (u_rfe u1) = RESUME_ENTRY_FRAME))).
  { apply (Hend Returned u1); auto. }
  destruct (updateBaselineFrame unsetPushedSPSFrame it1 u1) as [u2|];
    cbn [mbind option_bind] in H; [|discriminate].
  destruct (baselineFrames (u_heap u2) !! fp it1) as [bf|]; cbn [mbind option_bind] in H;
    [|discriminate].
  destruct (bf_isDebuggee bf && negb c1); [|apply (Hend Fallthrough u2); auto].
  destruct (if negb (w1 =? 0)
            then updateBaselineFrame (setUnwoundScopeOverridePc w1) it1 u2
            else Some u2) as [u3|]; cbn [mbind option_bind] in H; [|discriminate].
  destruct (baselineScriptAndPc (u_heap u3) (u_stack u3) it1 true) as [opc|];
    cbn [mbind option_bind] in H; [|discriminate].
  destruct opc as [pc|]; cbn [mbind option_bind] in H; [|discriminate].
  destruct (callDebugEpilogue C it1 pc false u3) as [[|] u4].
  - apply (Hend Returned _ ltac:(auto) H).
  - apply (Hend Fallthrough _ ltac:(auto) H).
Qed.

Lemma HandleException_baseline_deletes_OSR_info_witness :
  exists bf,
    baselineFrames
      (u_heap
         (match
            default (Fallthrough example_catch_unwind)
              (HandleException_baseline example_platform (example_collaborators false)
                 example_catch_iterator
                 (example_unwind
                    (example_heap
                       (example_script None None (Some example_baseline)
                          (Some [catch_10_20]))
                       ∅ {[ 2000 := example_baseline_frame 0 (Some {| osr_pc := 5023 |}) 3 ]} 0)
                    ∅ true 1000))
          with Returned u' | Fallthrough u' => u' end))
      !! fp example_catch_iterator = Some bf /\
    debugModeOSRInfo bf = None.
Proof.
  apply (HandleException_baseline_deletes_OSR_info example_platform
           (example_collaborators false) example_catch_iterator
           (example_unwind
              (example_heap
                 (example_script None None (Some example_baseline) (Some [catch_10_20]))
                 ∅ {[ 2000 := example_baseline_frame 0 (Some {| osr_pc := 5023 |}) 3 ]} 0)
              ∅ true 1000)).
  vm_compute. reflexivity.
Defined.

(** ** What unwinding leaves of the stack *)

Lemma retagged_refl patched (stack : Stack) : retagged patched stack stack.
Proof.
  intros a. destruct (stack !! a) as [h|]; [|exact I].
  repeat split; auto.
Qed.

Lemma retagged_trans patched (s1 s2 s3 : Stack) :
  retagged patched s1 s2 -> retagged patched s2 s3 -> retagged patched s1 s3.
Proof.
  intros H12 H23 a. specialize (H12 a). specialize (H23 a).
  destruct (s1 !! a) as [h1|], (s2 !! a) as [h2|], (s3 !! a) as [h3|]; try tauto.
  destruct H12 as (A1 & A2 & A3 & A4 & A5), H23 as (B1 & B2 & B3 & B4 & B5).
  repeat split; try congruence.
  - intros Hp. rewrite (B4 Hp). apply A4. exact Hp.
  - destruct B5 as [B5|B5]; [|right; exact B5]. rewrite B5. exact A5.
Qed.

Lemma retagged_EnsureExitFrame patched (stack : Stack) c h :
  stack !! c = Some h -> retagged patched stack (<[c := EnsureExitFrame h]> stack).
Proof.
  intros Hh a. destruct (decide (a = c)) as [->|Hne].
  - rewrite lookup_insert_eq, Hh.
    destruct h as [ra pt sz ct na]. destruct pt; cbn; auto 10.
  - rewrite lookup_insert_ne by congruence. apply retagged_refl.
Qed.

Lemma unwinds_refl patched u : unwinds patched u u.
Proof. split; [apply retagged_refl | left; reflexivity]. Qed.

Lemma unwinds_same patched u u' :
  u_stack u' = u_stack u -> u_jitTop u' = u_jitTop u -> unwinds patched u u'.
Proof. intros Hs Hj. split; [rewrite Hs; apply retagged_refl | left; exact Hj]. Qed.

Lemma unwinds_trans patched u1 u2 u3 :
  unwinds patched u1 u2 -> unwinds patched u2 u3 -> unwinds patched u1 u3.
Proof.
  intros [R12 J12] [R23 J23]. split; [eapply retagged_trans; eassumption|].
  destruct J23 as [J23|J23]; [|right; exact J23].
  destruct J12 as [J12|J12]; [left; congruence|].
  right. destruct J12 as (h & Hh & Ht). specialize (R23 (u_jitTop u2)).
  rewrite Hh in R23. unfold jitTop_is_exit. rewrite J23.
  destruct (u_stack u3 !! u_jitTop u2) as [h'|]; [|contradiction].
  exists h'. split; [reflexivity|].
  destruct R23 as (_ & _ & _ & _ & [Hsame|Hunw]);
    [rewrite Hsame; exact Ht | right; exact Hunw].
Qed.

Lemma callDebugEpilogue_unwinds patched C it pc ok u :
  collaborators_unwind patched C -> unwinds patched u (callDebugEpilogue C it pc ok u).2.
Proof.
  intros (_ & _ & Hepi). unfold callDebugEpilogue.
  specialize (Hepi (fp it) pc ok u).
  destruct (DebugEpilogue C (fp it) pc ok u) as [r u']. exact Hepi.
Qed.

Lemma onExceptionUnwindHook_unwinds patched C it u verdict u1 it1 :
  collaborators_unwind patched C ->
  onExceptionUnwindHook C it u = (verdict, u1, it1) -> unwinds patched u u1.
Proof.
  intros (_ & Hhook & _). unfold onExceptionUnwindHook, callOnExceptionUnwind. intros H.
  destruct (u_exceptionPending u && compartment_isDebuggee C && getPendingException_ok C
            && negb (isGeneratorClosing C (u_pendingException u))).
  - specialize (Hhook it u).
    destruct (Debugger_onExceptionUnwind C it u) as [[status u'] ra].
    injection H as _ <- _. exact Hhook.
  - injection H as _ <- _. apply unwinds_refl.
Qed.

Lemma ForcedReturn_unwinds patched P C it pc u called :
  collaborators_unwind patched C -> unwinds patched u (ForcedReturn P C it pc u called).1.
Proof.
  intros HC. unfold ForcedReturn.
  pose proof (callDebugEpilogue_unwinds patched C it pc true u HC) as H.
  destruct (callDebugEpilogue C it pc true u) as [[|] u']; exact H.
Qed.

Lemma updateBaselineFrame_unwinds patched f it u u' :
  updateBaselineFrame f it u = Some u' -> unwinds patched u u'.
Proof.
  unfold updateBaselineFrame. intros H.
  destruct (baselineFrames (u_heap u) !! fp it); simpl in H; [|discriminate].
  injection H as <-. apply unwinds_same; reflexivity.
Qed.

Lemma HandleClosingGeneratorReturn_unwinds patched P C it pc w u called r :
  collaborators_unwind patched C ->
  HandleClosingGeneratorReturn P C it pc w u called = Some r -> unwinds patched u r.1.
Proof.
  intros HC. unfold HandleClosingGeneratorReturn. intros H.
  destruct (negb (u_exceptionPending u)); [injection H as <-; apply unwinds_refl|].
  destruct (negb (getPendingException_ok C)); [injection H as <-; apply unwinds_refl|].
  destruct (negb (isGeneratorClosing C (u_pendingException u)));
    [injection H as <-; apply unwinds_refl|].
  destruct (updateBaselineFrame _ it (set_pending u false (u_pendingException u)))
    as [u1|] eqn:H1; cbn [mbind option_bind] in H; [|discriminate].
  assert (S1 : unwinds patched u u1).
  { apply (updateBaselineFrame_unwinds patched) in H1. exact H1. }
  destruct (negb (w =? 0)).
  - destruct (baselineFrames (u_heap u1) !! fp it) as [bf|]; cbn [mbind option_bind] in H;
      [|discriminate].
    destruct (bf_isDebuggee bf).
    + destruct (updateBaselineFrame _ it u1) as [u2|] eqn:H2;
        cbn [mbind option_bind] in H; [|discriminate].
      injection H as <-. apply (updateBaselineFrame_unwinds patched) in H2.
      eapply unwinds_trans; [exact S1|].
      eapply unwinds_trans; [exact H2|]. apply ForcedReturn_unwinds. exact HC.
    + cbn [mbind option_bind] in H. injection H as <-.
      eapply unwinds_trans; [exact S1|]. apply ForcedReturn_unwinds. exact HC.
  - injection H as <-. eapply unwinds_trans; [exact S1|].
    apply ForcedReturn_unwinds. exact HC.
Qed.

Lemma tryNoteStep_unwinds patched P C it scp sc pcOffset u w tn o :
  tryNoteStep P C it scp sc pcOffset (u, w) tn = Some o ->
  match o with Returned (u', _) | Fallthrough (u', _) => unwinds patched u u' end.
Proof.
  unfold tryNoteStep. intros H.
  repeat (first
    [ discriminate
    | match type of H with
      | Some _ = Some _ => injection H as <-; apply unwinds_same; reflexivity
      | context [if ?c then _ else _] => destruct c
      | context [match tn_kind tn with _ => _ end] => destruct (tn_kind tn)
      | context [baselineFrames ?h !! ?k ≫= _] =>
          destruct (baselineFrames h !! k); cbn [mbind option_bind] in H
      | context [baseline sc ≫= _] => destruct (baseline sc); cbn [mbind option_bind] in H
      end ]).
Qed.

Lemma tryNoteLoop_unwinds patched P C it scp sc pcOffset : forall tns u w o,
  tryNoteLoop P C it scp sc pcOffset tns (u, w) = Some o ->
  match o with Returned (u', _) | Fallthrough (u', _) => unwinds patched u u' end.
Proof.
  induction tns as [|tn tns IH]; intros u w o H.
  - injection H as <-. apply unwinds_refl.
  - cbn [tryNoteLoop] in H.
    destruct (tryNoteStep P C it scp sc pcOffset (u, w) tn) as [o1|] eqn:H1;
      cbn [mbind option_bind] in H; [|discriminate].
    apply (tryNoteStep_unwinds patched) in H1. destruct o1 as [[u1 w1]|[u1 w1]].
    + injection H as <-. exact H1.
    + specialize (IH u1 w1 o H).
      destruct o as [[u2 w2]|[u2 w2]]; eapply unwinds_trans; eassumption.
Qed.

Lemma HandleExceptionBaseline_tryNotes_unwinds patched P C it scp pc u w called r :
  collaborators_unwind patched C ->
  HandleExceptionBaseline_tryNotes P C it scp pc u w called = Some r ->
  unwinds patched u r.1.1.
Proof.
  intros HC. unfold HandleExceptionBaseline_tryNotes. intros H.
  destruct (scripts (u_heap u) !! scp) as [sc|]; cbn [mbind option_bind] in H; [|discriminate].
  destruct (trynotes sc) as [tns|].
  - destruct (tryNoteLoop P C it scp sc _ tns (u, w)) as [o|] eqn:Hl;
      cbn [mbind option_bind] in H; [|discriminate].
    apply (tryNoteLoop_unwinds patched) in Hl. destruct o as [[u1 w1]|[u1 w1]].
    + injection H as <-. exact Hl.
    + destruct (HandleClosingGeneratorReturn P C it pc w1 u1 called) as [r0|] eqn:Hc;
        cbn [mbind option_bind] in H; [|discriminate].
      injection H as <-.
      apply (HandleClosingGeneratorReturn_unwinds patched P C it pc w1 u1 called r0 HC) in Hc.
      eapply unwinds_trans; eassumption.
  - destruct (HandleClosingGeneratorReturn P C it pc w u called) as [r0|] eqn:Hc;
      cbn [mbind option_bind] in H; [|discriminate].
    injection H as <-.
    apply (HandleClosingGeneratorReturn_unwinds patched P C it pc w u called r0 HC) in Hc.
    exact Hc.
Qed.

Lemma HandleExceptionBaseline_unwinds patched P C it u w called r :
  collaborators_unwind patched C ->
  HandleExceptionBaseline P C it u w called = Some r -> unwinds patched u r.1.1.1.
Proof.
  intros HC. unfold HandleExceptionBaseline. intros H.
  destruct (scriptPtr (u_heap u) (u_stack u) it) as [scp|]; cbn [mbind option_bind] in H;
    [|discriminate].
  destruct (baselineScriptAndPc (u_heap u) (u_stack u) it true) as [opc|];
    cbn [mbind option_bind] in H; [|discriminate].
  destruct opc as [pc|]; cbn [mbind option_bind] in H; [|discriminate].
  destruct (u_propagatingForcedReturn u).
  { pose proof (ForcedReturn_unwinds patched P C it pc (clearPropagatingForcedReturn u)
                  called HC) as S.
    destruct (ForcedReturn P C it pc (clearPropagatingForcedReturn u) called) as [u1 c1].
    injection H as <-. eapply unwinds_trans; [|exact S]. apply unwinds_same; reflexivity. }
  destruct (onExceptionUnwindHook C it u) as [[verdict u1] it1] eqn:Hhook.
  apply (onExceptionUnwindHook_unwinds patched C it u verdict u1 it1 HC) in Hhook.
  assert (Hrest : (r0 ← HandleExceptionBaseline_tryNotes P C it1 scp pc u1 w called;
                   Some (r0, it1)) = Some r -> unwinds patched u r.1.1.1).
  { destruct (HandleExceptionBaseline_tryNotes P C it1 scp pc u1 w called) as [r0|] eqn:Hn;
      cbn [mbind option_bind]; [|discriminate].
    intros [= <-].
    apply (HandleExceptionBaseline_tryNotes_unwinds patched P C it1 scp pc u1 w called r0 HC)
      in Hn.
    eapply unwinds_trans; eassumption. }
  destruct verdict as [[| | |]|]; try (apply Hrest; exact H).
  pose proof (ForcedReturn_unwinds patched P C it1 pc u1 called HC) as S.
  destruct (ForcedReturn P C it1 pc u1 called) as [u2 c2].
  injection H as <-. eapply unwinds_trans; eassumption.
Qed.

Lemma HandleException_baseline_unwinds patched P C it u o :
  collaborators_unwind patched C ->
  HandleException_baseline P C it u = Some o ->
  match o with Returned u' | Fallthrough u' => unwinds patched u u' end.
Proof.
  intros HC. unfold HandleException_baseline. intros H.
  destruct (HandleExceptionBaseline P C it u 0 false) as [[[[u1 w1] c1] it1]|] eqn:H1;
    cbn [mbind option_bind] in H; [|discriminate].
  apply (HandleExceptionBaseline_unwinds patched P C it u 0 false _ HC) in H1. cbn in H1.
  assert (Hupd : forall f (k : Unwind -> LoopOutcome Unwind) u0 o0,
            unwinds patched u u0 ->
            k <$> updateBaselineFrame f it1 u0 = Some o0 ->
            (forall x, k x = Returned x \/ k x = Fallthrough x) ->
            match o0 with Returned u' | Fallthrough u' => unwinds patched u u' end).
  { intros f k u0 o0 S0 H0 Hk.
    destruct (updateBaselineFrame f it1 u0) as [u2|] eqn:H2; simpl in H0; [|discriminate].
    injection H0 as <-. apply (updateBaselineFrame_unwinds patched) in H2.
    destruct (Hk u2) as [-> | ->]; eapply unwinds_trans; eassumption. }
  destruct (negb (bool_decide (rfe_kind (u_rfe u1) = RESUME_ENTRY_FRAME))).
  { apply (Hupd _ Returned u1 o H1 H). auto. }
  destruct (updateBaselineFrame unsetPushedSPSFrame it1 u1) as [u2|] eqn:H2;
    cbn [mbind option_bind] in H; [|discriminate].
  apply (updateBaselineFrame_unwinds patched) in H2.
  assert (S2 : unwinds patched u u2) by (eapply unwinds_trans; eassumption).
  destruct (baselineFrames (u_heap u2) !! fp it1) as [bf|]; cbn [mbind option_bind] in H;
    [|discriminate].
  destruct (bf_isDebuggee bf && negb c1); [|apply (Hupd _ Fallthrough u2 o S2 H); auto].
  destruct (if negb (w1 =? 0)
            then updateBaselineFrame (setUnwoundScopeOverridePc w1) it1 u2
            else Some u2) as [u3|] eqn:H3; cbn [mbind option_bind] in H; [|discriminate].
  assert (S3 : unwinds patched u u3).
  { destruct (negb (w1 =? 0)).
    - apply (updateBaselineFrame_unwinds patched) in H3.
      eapply unwinds_trans; eassumption.
    - injection H3 as <-. exact S2. }
  destruct (baselineScriptAndPc (u_heap u3) (u_stack u3) it1 true) as [opc|];
    cbn [mbind option_bind] in H; [|discriminate].
  destruct opc as [pc|]; cbn [mbind option_bind] in H; [|discriminate].
  pose proof (callDebugEpilogue_unwinds patched C it1 pc false u3 HC) as S4.
  destruct (callDebugEpilogue C it1 pc false u3) as [[|] u4]; cbn [snd] in S4.
  - apply (Hupd _ Returned _ o) in H; auto.
    eapply unwinds_trans; [exact S3|].
    eapply unwinds_trans; [exact S4|]. apply unwinds_same; reflexivity.
  - apply (Hupd _ Fallthrough _ o) in H; auto.
    eapply unwinds_trans; eassumption.
Qed.

Lemma HandleException_handlers_unwinds patched P C it u o :
  collaborators_unwind patched C ->
  HandleException_handlers P C it u = Some o ->
  match o with Returned u' | Fallthrough u' => unwinds patched u u' end.
Proof.
  intros HC. unfold HandleException_handlers. intros H.
  destruct (isIonJS it).
  - destruct (checkInvalidation (u_heap u) (u_stack u) it) as [r|];
      cbn [mbind option_bind] in H; [|discriminate].
    assert (S : unwinds patched u
                  (decrementIfInvalidated r (HandleExceptionIon_frames C it u))).
    { destruct HC as (HIon & _ & _). specialize (HIon it u).
      destruct r as [[|] [p|]]; exact HIon. }
    destruct (bool_decide _); injection H as <-; exact S.
  - destruct (isBaselineJS it).
    + apply (HandleException_baseline_unwinds patched P C it u o HC) in H. exact H.
    + injection H as <-. apply unwinds_refl.
Qed.

Lemma HandleException_frame_unwinds patched P C it u o :
  collaborators_unwind patched C ->
  HandleException_frame P C it u = Some o ->
  match o with Resume u' | NextFrame _ u' => unwinds patched u u' end.
Proof.
  intros HC. unfold HandleException_frame. intros H.
  destruct (HandleException_handlers P C it u) as [o1|] eqn:H1;
    cbn [mbind option_bind] in H; [|discriminate].
  apply (HandleException_handlers_unwinds patched P C it u o1 HC) in H1.
  destruct o1 as [u1|u1]; [injection H as <-; exact H1|].
  destruct (if isScripted it then Some <$> jsFrame it else Some None) as [current|];
    cbn [mbind option_bind] in H; [|discriminate].
  destruct (operator_incr P (u_stack u1) it) as [it'|]; cbn [mbind option_bind] in H;
    [|discriminate].
  destruct current as [c|].
  - destruct (u_stack u1 !! c) as [h|] eqn:Hh; cbn [mbind option_bind] in H; [|discriminate].
    injection H as <-. eapply unwinds_trans; [exact H1|]. split.
    + cbn. apply retagged_EnsureExitFrame. exact Hh.
    + right. exists (EnsureExitFrame h). cbn. rewrite lookup_insert_eq.
      split; [reflexivity|]. destruct h as [ra pt sz ct na]. destruct pt; cbn; auto.
  - injection H as <-. exact H1.
Qed.

(** X18.  [HandleException] itself rewrites nothing of a frame header but
    the stored predecessor type, through [EnsureExitFrame].  Given
    collaborators outside these sources (the handler of optimized frames,
    the debugger's hook on the unwinding of an exception, the debug
    epilogue) that keep every frame of the stack with its locals size, its
    callee token and its number of actual arguments, change a stored
    predecessor type to an unwound one at most, and leave [jitTop] as it is
    or at an exit frame, the whole of [HandleException] does the same:
    every frame is still there with these three fields, its predecessor
    type is the old one or an unwound one, and [jitTop] holds the address
    it held at the start or names a frame turned into an exit frame.  The
    return addresses are kept as well when the collaborators keep them
    ([patched] is false); the debugger's hook may patch them by
    recompiling scripts on the stack ([patched] is true), and then nothing
    is said of them. *)
Theorem HandleException_retags_only patched P C fuel bd u u' :
  collaborators_unwind patched C ->
  HandleException P C fuel bd u = Some u' ->
  unwinds patched u u'.
Proof.
  intros HC. unfold HandleException.
  set (u0 := set_rfe u _). set (it0 := JitFrameIterator_new _ _ _).
  assert (S0 : unwinds patched u u0) by (apply unwinds_same; reflexivity).
  intros H. eapply unwinds_trans; [exact S0|].
  clearbody it0. clear S0. revert H. generalize u0 it0. clear u0 it0 u.
  induction fuel as [|fuel IH]; intros u it H; [discriminate|].
  cbn [HandleException_loop] in H.
  destruct (isEntry it).
  { injection H as <-. apply unwinds_same; reflexivity. }
  destruct (HandleException_frame P C it u) as [o|] eqn:Hf; cbn [mbind option_bind] in H;
    [|discriminate].
  apply (HandleException_frame_unwinds patched P C it u o HC) in Hf.
  destruct o as [u1|it1 u1].
  - injection H as <-. exact Hf.
  - eapply unwinds_trans; [exact Hf|]. apply (IH u1 it1 H).
Qed.

(** Collaborators that leave the state alone, on a stack where an exit
    frame was called from an optimized frame and that one through a
    rectifier from the entry frame. *)
Lemma HandleException_retags_only_witness :
  exists u',
    HandleException example_platform (example_collaborators_with false example_hook_continue)
      4 None (example_unwind example_heap_ion example_stack_rectifier true 1000) = Some u' /\
    unwinds false (example_unwind example_heap_ion example_stack_rectifier true 1000) u'.
Proof.
  eexists. split; [vm_compute; reflexivity|].
  apply (HandleException_retags_only false example_platform
           (example_collaborators_with false example_hook_continue) 4 None
           (example_unwind example_heap_ion example_stack_rectifier true 1000)).
  - split; [|split]; intros; apply unwinds_refl.
  - vm_compute. reflexivity.
Defined.

(** ** Slots and allocations of a frame *)

Lemma load8_store32 (m : Mem) a v :
  load8 (store32 m a v) a = Z.land v 255.
Proof.
  unfold load8, store32.
  rewrite (store8_other _ (a + 3)), (store8_other _ (a + 2)), (store8_other _ (a + 1)),
    store8_same by lia.
  change 255 with (Z.ones 8). apply Z.bits_inj'. intros n Hn. bits_by_cases.
Qed.

Lemma int32_of_word_range w : - 2 ^ 31 <= int32_of_word w < 2 ^ 31.
Proof.
  unfold int32_of_word. pose proof (Z.mod_pos_bound w (2 ^ 32) ltac:(lia)).
  destruct (Z.ltb_spec (w mod 2 ^ 32) (2 ^ 31)); lia.
Qed.

Lemma int32_of_word_mod w : int32_of_word w mod 2 ^ 32 = w mod 2 ^ 32.
Proof.
  unfold int32_of_word.
  destruct (Z.ltb_spec (w mod 2 ^ 32) (2 ^ 31)).
  - apply Z.mod_mod. lia.
  - replace (w mod 2 ^ 32 - 2 ^ 32) with (w mod 2 ^ 32 + (-1) * 2 ^ 32) by lia.
    rewrite Z.mod_add by lia. apply Z.mod_mod. lia.
Qed.

Lemma int32_of_word_low w : int32_of_word (Z.land w (2 ^ 32 - 1)) = int32_of_word w.
Proof.
  unfold int32_of_word. change (2 ^ 32 - 1) with (Z.ones 32).
  rewrite Z.land_ones by lia. rewrite Z.mod_mod by lia. reflexivity.
Qed.

(** X19.  A frame slot gives back what was written to it: after
    [WriteFrameSlot], [ReadFrameSlot] of the same slot yields the 32 bits
    of the word written, [ReadFrameInt32Slot] yields that word as a signed
    32-bit integer (the number from -2^31 up to 2^31 - 1 that agrees with
    the value modulo 2^32), [ReadFrameBooleanSlot] tells whether its lowest
    byte is not zero, and no byte of the stack outside the four bytes at
    the offset of the slot has changed, so that a slot four or more bytes
    away reads as before. *)
Theorem WriteFrameSlot_then_read (m : Mem) fp slot value :
  ReadFrameSlot (WriteFrameSlot m fp slot value) fp slot = Z.land value (2 ^ 32 - 1) /\
  ReadFrameInt32Slot (WriteFrameSlot m fp slot value) fp slot = int32_of_word value /\
  - 2 ^ 31 <= ReadFrameInt32Slot (WriteFrameSlot m fp slot value) fp slot < 2 ^ 31 /\
  ReadFrameInt32Slot (WriteFrameSlot m fp slot value) fp slot mod 2 ^ 32 = value mod 2 ^ 32 /\
  ReadFrameBooleanSlot (WriteFrameSlot m fp slot value) fp slot
    = negb (Z.land value 255 =? 0) /\
  only_word_written m (WriteFrameSlot m fp slot value) (fp + OffsetOfFrameSlot slot) /\
  forall slot', slot + 4 <= slot' \/ slot' + 4 <= slot ->
    ReadFrameSlot (WriteFrameSlot m fp slot value) fp slot' = ReadFrameSlot m fp slot'.
Proof.
  assert (Hint : ReadFrameInt32Slot (WriteFrameSlot m fp slot value) fp slot
                 = int32_of_word value).
  { unfold ReadFrameInt32Slot, WriteFrameSlot.
    rewrite load32_store32_same. apply int32_of_word_low. }
  split; [apply load32_store32_same|]. split; [exact Hint|].
  split; [rewrite Hint; apply int32_of_word_range|].
  split; [rewrite Hint; apply int32_of_word_mod|].
  unfold ReadFrameSlot, ReadFrameBooleanSlot, WriteFrameSlot, OffsetOfFrameSlot.
  split; [rewrite load8_store32; reflexivity|]. split.
  - intros x Hx. apply store32_outside. lia.
  - intros slot' Hs. apply load32_store32_disjoint. lia.
Qed.

(** A word with its top bit set is read as a negative integer. *)
Example ReadFrameInt32Slot_negative :
  ReadFrameInt32Slot (WriteFrameSlot (fun _ => 0) 2000 16 0xDEADBEC0) 2000 16 = -559038784.
Proof. vm_compute. reflexivity. Qed.

(** X20.  What [WriteAllocation] stores, [ReadAllocation] reads: a write
    to a register, a stack slot or an argument of a frame succeeds exactly
    when the read does; afterwards the same allocation reads as the 32
    bits of the value written, the frame headers and the trace are as
    before, and only the four bytes of the allocation have changed. *)
Theorem WriteAllocation_then_read P hp it st a value :
  (is_Some (WriteAllocation P hp it st a value) <-> is_Some (ReadAllocation P hp it st a)) /\
  forall st', WriteAllocation P hp it st a value = Some st' ->
    ReadAllocation P hp it st' a = Some (Z.land value (2 ^ 32 - 1)) /\
    gc_stack st' = gc_stack st /\
    gc_log st' = gc_log st /\
    exists addr, allocationAddress P hp (gc_stack st) it a = Some addr /\
                 only_word_written (gc_mem st) (gc_mem st') addr.
Proof.
  unfold WriteAllocation, ReadAllocation.
  destruct (allocationAddress P hp (gc_stack st) it a) as [addr|] eqn:Ha; simpl.
  - split; [split; intros _; eexists; reflexivity|].
    intros st' H. injection H as <-. simpl. rewrite Ha. simpl.
    rewrite load32_store32_same. repeat split.
    exists addr. split; [reflexivity|]. intros x Hx. apply store32_outside. exact Hx.
  - split; [split; intros [? H]; discriminate|]. intros st' H. discriminate.
Qed.

Lemma seqZ_split n r :
  0 <= r < n -> seqZ 0 n = seqZ 0 r ++ [r] ++ seqZ (r + 1) (n - r - 1).
Proof.
  intros Hr.
  replace (seqZ 0 n) with (seqZ 0 (r + (1 + (n - r - 1)))) by (f_equal; lia).
  rewrite (seqZ_app 0 r (1 + (n - r - 1))) by lia.
  rewrite (seqZ_app (0 + r) 1 (n - r - 1)) by lia.
  simpl. replace (0 + r + 1) with (r + 1) by lia. reflexivity.
Qed.

Lemma spill_locations_app l1 : forall l2 spill,
  spill_locations (l1 ++ l2) spill
  = spill_locations l1 spill ++ spill_locations l2 (spill - 4 * Z.of_nat (length l1)).
Proof.
  induction l1 as [|r l1 IH]; intros l2 spill; simpl.
  - f_equal. lia.
  - rewrite IH. do 3 f_equal. lia.
Qed.

Lemma regLocation_app_r ms1 ms2 r :
  (forall e, e ∈ ms1 -> fst e <> r) -> regLocation (ms1 ++ ms2) r = regLocation ms2 r.
Proof.
  unfold regLocation. induction ms1 as [|e ms1 IH]; intros H; [reflexivity|]. simpl.
  destruct (Z.eqb_spec (fst e) r) as [He|_].
  - exfalso. apply (H e); [left | exact He].
  - apply IH. intros e' He'. apply H. right. exact He'.
Qed.

Lemma spill_locations_regs l : forall spill e, e ∈ spill_locations l spill -> fst e ∈ l.
Proof.
  induction l as [|r l IH]; intros spill e He; simpl in He.
  - inversion He.
  - apply elem_of_cons in He as [->|He]; [left|right; eapply IH; exact He].
Qed.

Lemma spill_locations_lookup l1 r l2 spill :
  r ∉ l1 ->
  regLocation (spill_locations (l1 ++ r :: l2) spill) r
  = Some (spill - 4 * (Z.of_nat (length l1) + 1)).
Proof.
  intros Hr. rewrite spill_locations_app, regLocation_app_r.
  - unfold regLocation. simpl. rewrite Z.eqb_refl. simpl. f_equal. lia.
  - intros e He Heq. apply Hr. rewrite <- Heq. eapply spill_locations_regs. exact He.
Qed.

Lemma spillRoots_app sp l1 : forall l2 spill,
  spillRoots sp (l1 ++ l2) spill
  = spillRoots sp l1 spill ++ spillRoots sp l2 (spill - 4 * Z.of_nat (length l1)).
Proof.
  induction l1 as [|r l1 IH]; intros l2 spill; simpl.
  - f_equal. lia.
  - rewrite IH, <- app_assoc. do 3 f_equal. lia.
Qed.

Lemma regLocation_not_spilled l : forall spill r,
  r ∉ l -> regLocation (spill_locations l spill) r = None.
Proof.
  induction l as [|q l IH]; intros spill r Hr; [reflexivity|].
  apply not_elem_of_cons in Hr as [Hne Hr].
  unfold regLocation. simpl.
  destruct (Z.eqb_spec q r) as [->|_]; [contradiction|].
  apply (IH (spill - 4) r Hr).
Qed.

Lemma regs_backward_bit mask r : r ∈ regs_backward mask -> Z.testbit mask r = true.
Proof.
  unfold regs_backward. intros Hin.
  apply list_elem_of_In, filter_In in Hin. apply Hin.
Qed.

Lemma spillRoots_cons sp r rs spill :
  spillRoots sp (r :: rs) spill
  = (if Z.testbit (gcSpills sp) r then [Ev_GCThingRoot (spill - 4)]
     else if Z.testbit (valueSpills sp) r then [Ev_ValueRoot (spill - 4)]
     else [])
    ++ spillRoots sp rs (spill - 4).
Proof. reflexivity. Qed.

Lemma regs_backward_split mask r :
  0 <= r < 32 -> Z.testbit mask r = true ->
  regs_backward mask
  = List.filter (Z.testbit mask) (rev (seqZ (r + 1) (31 - r)))
    ++ r :: List.filter (Z.testbit mask) (rev (seqZ 0 r)).
Proof.
  intros Hr Hbit. unfold regs_backward.
  replace (seqZ 0 32) with (seqZ 0 r ++ [r] ++ seqZ (r + 1) (31 - r)).
  - rewrite !rev_app_distr. simpl. rewrite <- app_assoc. simpl.
    rewrite List.filter_app. simpl. rewrite Hbit. reflexivity.
  - symmetry. replace (31 - r) with (32 - r - 1) by lia. apply seqZ_split. exact Hr.
Qed.

(** A register [r] of the set of spilled general registers is located one
    word below the spill base for itself and for every spilled register of
    a higher code; a register outside the set has no location; and the
    root listed for [r] is at that very location. *)
Lemma spill_locations_roots (sp : Safepoint) spill r :
  0 <= r < 32 ->
  let ms := spill_locations (regs_backward (allGprSpills sp)) spill in
  let a := spill - 4 * (spilled_above (allGprSpills sp) r + 1) in
  (Z.testbit (allGprSpills sp) r = false -> regLocation ms r = None) /\
  (Z.testbit (allGprSpills sp) r = true ->
     regLocation ms r = Some a /\
     (Z.testbit (gcSpills sp) r = true ->
        Ev_GCThingRoot a ∈ spillRoots sp (regs_backward (allGprSpills sp)) spill) /\
     (Z.testbit (gcSpills sp) r = false -> Z.testbit (valueSpills sp) r = true ->
        Ev_ValueRoot a ∈ spillRoots sp (regs_backward (allGprSpills sp)) spill)).
Proof.
  intros Hr ms a. split.
  - intros Hbit. apply regLocation_not_spilled. intros Hin.
    apply regs_backward_bit in Hin. congruence.
  - intros Hbit.
    assert (Hnot : r ∉ List.filter (Z.testbit (allGprSpills sp)) (rev (seqZ (r + 1) (31 - r)))).
    { intros Hin. apply list_elem_of_In, filter_In in Hin as [Hin _].
      apply in_rev, list_elem_of_In, elem_of_seqZ in Hin. lia. }
    unfold ms, a, spilled_above.
    rewrite (regs_backward_split _ r Hr Hbit).
    split; [apply spill_locations_lookup; exact Hnot|].
    rewrite spillRoots_app, spillRoots_cons.
    split.
    + intros Hgc. rewrite Hgc.
      apply elem_of_app. right. apply elem_of_app. left.
      apply list_elem_of_singleton. f_equal. ring.
    + intros Hgc Hval. rewrite Hgc, Hval.
      apply elem_of_app. right. apply elem_of_app. left.
      apply list_elem_of_singleton. f_equal. ring.
Qed.

(** ** What marking leaves of a frame *)

Lemma MarkFrameAndActualArguments_stack P trc it st st' :
  MarkFrameAndActualArguments P trc it st = Some st' -> gc_stack st' = gc_stack st.
Proof.
  unfold MarkFrameAndActualArguments. intros H.
  destruct (jsFrame it) as [layout|]; cbn [mbind option_bind] in H; [|discriminate].
  destruct (gc_stack st !! layout) as [h|]; cbn [mbind option_bind] in H; [|discriminate].
  injection H as <-.
  apply (foldl_mark_log
           (fun s i => MarkValueRoot trc (layout + JitFrameLayout_Size P + 8 * i) s)
           (fun i => Ev_ValueRoot (layout + JitFrameLayout_Size P + 8 * i))).
  intros s x. split; reflexivity.
Qed.

Lemma markNunboxSlot_stack P hp trc it st tp st' :
  markNunboxSlot P hp trc it st tp = Some st' -> gc_stack st' = gc_stack st.
Proof.
  unfold markNunboxSlot. intros H.
  destruct (ReadAllocation P hp it st tp.1); cbn [mbind option_bind] in H; [|discriminate].
  destruct (ReadAllocation P hp it st tp.2); cbn [mbind option_bind] in H; [|discriminate].
  match type of H with context [decide ?X] => destruct (decide X) end.
  - injection H as <-. reflexivity.
  - unfold WriteAllocation in H.
    destruct (allocationAddress _ _ _ _ _); cbn [mbind option_bind] in H; [|discriminate].
    injection H as <-. reflexivity.
Qed.

Lemma forEachM_invariant {A S T : Type} (f : S -> A -> option S) (g : S -> T) l :
  (forall s x s', f s x = Some s' -> g s' = g s) ->
  forall st st', forEachM f l st = Some st' -> g st' = g st.
Proof.
  intros Hf. induction l as [|x l IH]; intros st st' H; simpl in H.
  - injection H as <-. reflexivity.
  - destruct (f st x) as [s1|] eqn:H1; cbn [mbind option_bind] in H; [|discriminate].
    rewrite (IH s1 st' H). eapply Hf. exact H1.
Qed.

Lemma markSafepointRoots_stack P hp trc it ionScript st sp st1 :
  markSafepointRoots P hp trc it ionScript st = Some (sp, st1) -> gc_stack st1 = gc_stack st.
Proof.
  unfold markSafepointRoots. intros H.
  destruct (MarkFrameAndActualArguments P trc it st) as [st0|] eqn:H1;
    cbn [mbind option_bind] in H; [|discriminate].
  apply MarkFrameAndActualArguments_stack in H1.
  destruct (ionScripts hp !! ionScript) as [s|]; cbn [mbind option_bind] in H; [|discriminate].
  destruct (getSafepointIndex s (returnAddressToFp_ it)) as [sp0|];
    cbn [mbind option_bind] in H; [|discriminate].
  destruct (spillBase hp _ it) as [spill|]; cbn [mbind option_bind] in H; [|discriminate].
  injection H as <- <-.
  destruct (markSpills_log trc sp0 (regs_backward (allGprSpills sp0)) spill
              (foldl (fun s0 slot => MarkValueRoot trc (fp it - slot) s0)
                 (foldl (fun s0 slot => MarkGCThingRoot trc (fp it - slot) s0) st0
                    (gcSlots sp0))
                 (valueSlots sp0))) as [-> _].
  destruct (foldl_mark_log (fun s0 slot => MarkValueRoot trc (fp it - slot) s0)
              (fun slot => Ev_ValueRoot (fp it - slot)) (valueSlots sp0)
              ltac:(intros; split; reflexivity)
              (foldl (fun s0 slot => MarkGCThingRoot trc (fp it - slot) s0) st0 (gcSlots sp0)))
    as [-> _].
  destruct (foldl_mark_log (fun s0 slot => MarkGCThingRoot trc (fp it - slot) s0)
              (fun slot => Ev_GCThingRoot (fp it - slot)) (gcSlots sp0)
              ltac:(intros; split; reflexivity) st0) as [-> _].
  exact H1.
Qed.

Lemma MarkIonJSFrame_roots_stack P hp trc it st sp st1 :
  MarkIonJSFrame_roots P hp trc it st = Some (sp, st1) ->
  exists h,
    gc_stack st !! fp it = Some h /\
    gc_stack st1 =
      <[fp it := replaceCalleeToken h (MarkCalleeToken trc (calleeToken h))]> (gc_stack st).
Proof.
  unfold MarkIonJSFrame_roots. intros H.
  destruct (gc_stack st !! fp it) as [h|] eqn:Hh; cbn [mbind option_bind] in H; [|discriminate].
  exists h. split; [reflexivity|].
  cbn [gc_stack] in H.
  destruct (checkInvalidation hp _ it) as [[[|] out]|]; cbn [mbind option_bind] in H;
    [| |discriminate].
  - destruct out as [p|]; cbn [mbind option_bind] in H; [|discriminate].
    apply markSafepointRoots_stack in H. exact H.
  - destruct (ionScriptFromCalleeToken hp _ it) as [p|]; cbn [mbind option_bind] in H;
      [|discriminate].
    apply markSafepointRoots_stack in H. exact H.
Qed.

Lemma MarkIonJSFrame_stack P hp trc it st st' :
  MarkIonJSFrame P hp trc it st = Some st' ->
  exists h,
    gc_stack st !! fp it = Some h /\
    gc_stack st' =
      <[fp it := replaceCalleeToken h (MarkCalleeToken trc (calleeToken h))]> (gc_stack st).
Proof.
  unfold MarkIonJSFrame. intros H.
  destruct (MarkIonJSFrame_roots P hp trc it st) as [[sp st1]|] eqn:Hr;
    cbn [mbind option_bind fst snd] in H; [|discriminate].
  apply (forEachM_invariant (markNunboxSlot P hp trc it) gc_stack) in H;
    [|intros s0 x s'; apply markNunboxSlot_stack].
  destruct (MarkIonJSFrame_roots_stack P hp trc it st sp st1 Hr) as (h & Hh & Hs).
  exists h. split; [exact Hh|]. rewrite H. exact Hs.
Qed.

Lemma markNunboxSlots_extend P hp trc it l : forall st st',
  forEachM (markNunboxSlot P hp trc it) l st = Some st' ->
  gc_stack st' = gc_stack st /\ exists torn, gc_log st' = gc_log st ++ torn.
Proof.
  induction l as [|tp l IH]; intros st st' H; simpl in H.
  - injection H as <-. split; [reflexivity|]. exists []. rewrite app_nil_r. reflexivity.
  - destruct (markNunboxSlot P hp trc it st tp) as [st0|] eqn:Hstep;
      cbn [mbind option_bind] in H; [|discriminate].
    destruct (IH st0 st' H) as (Hstack & torn & Hlog).
    assert (Hone : gc_stack st0 = gc_stack st /\ exists e, gc_log st0 = gc_log st ++ [e]).
    { unfold markNunboxSlot in Hstep.
      destruct (ReadAllocation P hp it st tp.1); cbn [mbind option_bind] in Hstep;
        [|discriminate].
      destruct (ReadAllocation P hp it st tp.2); cbn [mbind option_bind] in Hstep;
        [|discriminate].
      match type of Hstep with context [decide ?X] => destruct (decide X) end.
      - injection Hstep as <-. split; [reflexivity|]. eexists. reflexivity.
      - unfold WriteAllocation in Hstep.
        destruct (allocationAddress P hp _ it tp.2); cbn [mbind option_bind] in Hstep;
          [|discriminate].
        injection Hstep as <-. split; [reflexivity|]. eexists. reflexivity. }
    destruct Hone as (Hstack0 & e & Hlog0).
    split; [congruence|]. exists (e :: torn).
    rewrite Hlog, Hlog0, <- app_assoc. reflexivity.
Qed.

Lemma markSafepointRoots_spills P hp trc it p st sp st1 :
  markSafepointRoots P hp trc it p st = Some (sp, st1) ->
  exists s base pre,
    ionScripts hp !! p = Some s /\
    getSafepointIndex s (returnAddressToFp_ it) = Some sp /\
    spillBase hp (gc_stack st) it = Some base /\
    gc_log st1 = pre ++ spillRoots sp (regs_backward (allGprSpills sp)) base.
Proof.
  unfold markSafepointRoots. intros H.
  destruct (MarkFrameAndActualArguments P trc it st) as [st0|] eqn:H1;
    cbn [mbind option_bind] in H; [|discriminate].
  apply MarkFrameAndActualArguments_stack in H1.
  destruct (ionScripts hp !! p) as [s|]; cbn [mbind option_bind] in H; [|discriminate].
  destruct (getSafepointIndex s (returnAddressToFp_ it)) as [sp0|] eqn:Hsp;
    cbn [mbind option_bind] in H; [|discriminate].
  destruct (foldl_mark_log (fun s0 slot => MarkGCThingRoot trc (fp it - slot) s0)
              (fun slot => Ev_GCThingRoot (fp it - slot)) (gcSlots sp0)
              ltac:(intros; split; reflexivity) st0) as [Hs3 _].
  destruct (foldl_mark_log (fun s0 slot => MarkValueRoot trc (fp it - slot) s0)
              (fun slot => Ev_ValueRoot (fp it - slot)) (valueSlots sp0)
              ltac:(intros; split; reflexivity)
              (foldl (fun s0 slot => MarkGCThingRoot trc (fp it - slot) s0) st0 (gcSlots sp0)))
    as [Hs4 _].
  rewrite Hs4, Hs3, H1 in H.
  destruct (spillBase hp (gc_stack st) it) as [spill|]; cbn [mbind option_bind] in H;
    [|discriminate].
  injection H as <- <-.
  exists s, spill. eexists. split; [reflexivity|]. split; [exact Hsp|].
  split; [reflexivity|]. apply markSpills_log.
Qed.

Lemma MarkIonJSFrame_roots_spills P hp trc it st sp st1 :
  type_ it = JitFrame_IonJS ->
  MarkIonJSFrame_roots P hp trc it st = Some (sp, st1) ->
  exists p s base pre,
    ionScript hp (gc_stack st1) it = Some p /\
    ionScripts hp !! p = Some s /\
    getSafepointIndex s (returnAddressToFp_ it) = Some sp /\
    spillBase hp (gc_stack st1) it = Some base /\
    gc_log st1 = pre ++ spillRoots sp (regs_backward (allGprSpills sp)) base.
Proof.
  intros Ht H.
  destruct (MarkIonJSFrame_roots_stack P hp trc it st sp st1 H) as (h & Hh & Hstack).
  unfold MarkIonJSFrame_roots in H. rewrite Hh in H. cbn [mbind option_bind gc_stack] in H.
  rewrite <- Hstack in H.
  destruct (checkInvalidation hp (gc_stack st1) it) as [[[|] out]|] eqn:Hc;
    cbn [mbind option_bind] in H; [| |discriminate].
  - destruct out as [p|]; cbn [mbind option_bind] in H; [|discriminate].
    destruct (markSafepointRoots_spills P hp trc it p _ sp st1 H)
      as (s & base & pre & Hs & Hsp & Hbase & Hlog).
    exists p, s, base, pre. cbn [logEvent gc_stack] in Hbase.
    split; [|split; [exact Hs|split; [exact Hsp|split; [exact Hbase|exact Hlog]]]].
    unfold ionScript, isBailoutJS. rewrite Ht.
    rewrite bool_decide_eq_false_2 by discriminate. rewrite Hc. reflexivity.
  - destruct (ionScriptFromCalleeToken hp (gc_stack st1) it) as [p|] eqn:Hp;
      cbn [mbind option_bind] in H; [|discriminate].
    destruct (markSafepointRoots_spills P hp trc it p _ sp st1 H)
      as (s & base & pre & Hs & Hsp & Hbase & Hlog).
    exists p, s, base, pre. cbn [gc_stack] in Hbase.
    split; [|split; [exact Hs|split; [exact Hsp|split; [exact Hbase|exact Hlog]]]].
    unfold ionScript, isBailoutJS. rewrite Ht.
    rewrite bool_decide_eq_false_2 by discriminate. rewrite Hc. exact Hp.
Qed.

(** X21.  The register locations of [machineState] and the roots of
    [MarkIonJSFrame] agree.  Let the marking of an optimized frame whose
    iterator holds no cached safepoint index succeed, and take the frame
    as the marking leaves it.  Then [safepoint] yields the safepoint index
    of the frame's return address, [spillBase] and [machineState] are
    defined, and for every register code [r] below 32: if [r] is not in
    the set of spilled general registers of the safepoint, [machineState]
    gives it no location; if it is, [machineState] locates it one word
    below the spill base for itself and for every spilled register of a
    higher code, and the marking has recorded a root at that very
    location, as a pointer when the safepoint lists [r] among the
    registers holding pointers, and otherwise as a value when it lists
    [r] among the registers holding values. *)
Theorem spilled_register_location P hp trc it st st' r :
  0 <= r < 32 ->
  type_ it = JitFrame_IonJS ->
  cachedSafepointIndex_ it = None ->
  MarkIonJSFrame P hp trc it st = Some st' ->
  exists sp base ms,
    fst <$> safepoint hp (gc_stack st') it = Some sp /\
    spillBase hp (gc_stack st') it = Some base /\
    machineState hp (gc_stack st') it = Some ms /\
    let a := base - 4 * (spilled_above (allGprSpills sp) r + 1) in
    (Z.testbit (allGprSpills sp) r = false -> regLocation ms r = None) /\
    (Z.testbit (allGprSpills sp) r = true ->
       regLocation ms r = Some a /\
       (Z.testbit (gcSpills sp) r = true -> Ev_GCThingRoot a ∈ gc_log st') /\
       (Z.testbit (gcSpills sp) r = false -> Z.testbit (valueSpills sp) r = true ->
          Ev_ValueRoot a ∈ gc_log st')).
Proof.
  intros Hr Ht Hcache H.
  unfold MarkIonJSFrame in H.
  destruct (MarkIonJSFrame_roots P hp trc it st) as [[sp st1]|] eqn:Hroots;
    cbn [mbind option_bind fst snd] in H; [|discriminate].
  destruct (markNunboxSlots_extend P hp trc it _ _ _ H) as (Hstack & torn & Hlog).
  destruct (MarkIonJSFrame_roots_spills P hp trc it st sp st1 Ht Hroots)
    as (p & s & base & pre & Hion & Hs & Hsp & Hbase & Hlog1).
  assert (Hsafe : fst <$> safepoint hp (gc_stack st1) it = Some sp).
  { unfold safepoint. rewrite Hcache, Hion. cbn [mbind option_bind].
    rewrite Hs. cbn [mbind option_bind]. rewrite Hsp. reflexivity. }
  exists sp, base, (spill_locations (regs_backward (allGprSpills sp)) base).
  rewrite Hstack. split; [exact Hsafe|]. split; [exact Hbase|].
  split.
  { unfold machineState, isBailoutJS. rewrite Ht.
    rewrite bool_decide_eq_false_2 by discriminate.
    rewrite Hsafe. cbn [mbind option_bind]. rewrite Hbase. reflexivity. }
  destruct (spill_locations_roots sp base r Hr) as [Hnone Hsome].
  split; [exact Hnone|].
  intros Hbit. destruct (Hsome Hbit) as (Hloc & Hgc & Hval).
  split; [exact Hloc|]. rewrite Hlog, Hlog1.
  split.
  - intros Hb. apply elem_of_app. left. apply elem_of_app. right. apply Hgc. exact Hb.
  - intros Hb Hv. apply elem_of_app. left. apply elem_of_app. right. apply Hval; assumption.
Qed.

Lemma spilled_register_location_witness :
  let it := example_frame_iterator SequentialExecution in
  let st' :=
    default example_gcstate
      (MarkIonJSFrame example_platform example_heap_ion example_tracer it example_gcstate) in
  MarkIonJSFrame example_platform example_heap_ion example_tracer it example_gcstate
    = Some st' /\
  fst <$> safepoint example_heap_ion (gc_stack st') it = Some example_safepoint /\
  spillBase example_heap_ion (gc_stack st') it = Some 1936 /\
  (exists ms,
     machineState example_heap_ion (gc_stack st') it = Some ms /\
     regLocation ms 1 = Some 1928) /\
  Ev_GCThingRoot 1928 ∈ gc_log st'.
Proof.
  intros it st'.
  assert (Hrun : MarkIonJSFrame example_platform example_heap_ion example_tracer it
                   example_gcstate = Some st').
  { destruct (MarkIonJSFrame example_platform example_heap_ion example_tracer it
                example_gcstate) as [st0|] eqn:E; [reflexivity|].
    vm_compute in E. discriminate. }
  destruct (spilled_register_location example_platform example_heap_ion example_tracer it
              example_gcstate st' 1)
    as (sp & base & ms & Hsp & Hbase & Hms & _ & Hsome).
  - lia.
  - reflexivity.
  - reflexivity.
  - exact Hrun.
  - assert (Esp : sp = example_safepoint).
    { vm_compute in Hsp. injection Hsp as <-. reflexivity. }
    assert (Ebase : base = 1936).
    { vm_compute in Hbase. injection Hbase as <-. reflexivity. }
    subst sp base.
    destruct (Hsome eq_refl) as (Hloc & Hgc & _).
    split; [exact Hrun|]. split; [exact Hsp|]. split; [exact Hbase|].
    split; [exists ms; split; [exact Hms | exact Hloc]|].
    exact (Hgc eq_refl).
Defined.

(** X22.  Marking an optimized frame rewrites one thing among the frame
    headers, the callee token of the frame itself, which becomes the token
    the collector returns: every other header, and the return address, the
    descriptor and the number of actual arguments of this one, are as
    before; the frame is a function frame, and a constructing one, exactly
    when it was. *)
Theorem MarkIonJSFrame_headers P hp trc it st st' :
  MarkIonJSFrame P hp trc it st = Some st' ->
  exists h,
    gc_stack st !! fp it = Some h /\
    gc_stack st' =
      <[fp it := replaceCalleeToken h (MarkCalleeToken trc (calleeToken h))]> (gc_stack st) /\
    isFunctionFrame (gc_stack st') it = isFunctionFrame (gc_stack st) it /\
    isConstructing (gc_stack st') it = isConstructing (gc_stack st) it.
Proof.
  intros H. destruct (MarkIonJSFrame_stack P hp trc it st st' H) as (h & Hh & Hstack).
  exists h. split; [exact Hh|]. split; [exact Hstack|].
  unfold isFunctionFrame, isConstructing. rewrite Hstack.
  unfold fp in *. rewrite lookup_insert_eq, Hh. cbn.
  destruct (calleeToken h); split; reflexivity.
Qed.

Lemma MarkIonJSFrame_headers_witness :
  exists h,
    gc_stack example_gcstate !! fp (example_invalidated_iterator SequentialExecution)
      = Some h /\
    gc_stack
      (default example_gcstate
         (MarkIonJSFrame example_platform example_heap_invalidated example_tracer
            (example_invalidated_iterator SequentialExecution) example_gcstate)) =
      <[fp (example_invalidated_iterator SequentialExecution) :=
          replaceCalleeToken h (MarkCalleeToken example_tracer (calleeToken h))]>
        (gc_stack example_gcstate) /\
    isFunctionFrame
      (gc_stack
         (default example_gcstate
            (MarkIonJSFrame example_platform example_heap_invalidated example_tracer
               (example_invalidated_iterator SequentialExecution) example_gcstate)))
      (example_invalidated_iterator SequentialExecution)
      = isFunctionFrame (gc_stack example_gcstate)
          (example_invalidated_iterator SequentialExecution) /\
    isConstructing
      (gc_stack
         (default example_gcstate
            (MarkIonJSFrame example_platform example_heap_invalidated example_tracer
               (example_invalidated_iterator SequentialExecution) example_gcstate)))
      (example_invalidated_iterator SequentialExecution)
      = isConstructing (gc_stack example_gcstate)
          (example_invalidated_iterator SequentialExecution).
Proof.
  apply (MarkIonJSFrame_headers example_platform example_heap_invalidated example_tracer
           (example_invalidated_iterator SequentialExecution) example_gcstate).
  destruct (MarkIonJSFrame example_platform example_heap_invalidated example_tracer
              (example_invalidated_iterator SequentialExecution) example_gcstate)
    as [st'|] eqn:E; [reflexivity|].
  vm_compute in E. discriminate.
Defined.

Lemma store32_byte (m : Mem) a v i :
  0 <= i < 4 -> load8 (store32 m a v) (a + i) = Z.land (Z.shiftr v (8 * i)) 255.
Proof.
  intros Hi. unfold load8, store32.
  assert (Hc : i = 0 \/ i = 1 \/ i = 2 \/ i = 3) by lia.
  assert (Hland : forall x, Z.land (Z.land x 255) 255 = Z.land x 255).
  { intros x. rewrite <- Z.land_assoc. reflexivity. }
  destruct Hc as [->|[->|[->| ->]]].
  - rewrite Z.add_0_r.
    rewrite (store8_other _ (a + 3)), (store8_other _ (a + 2)), (store8_other _ (a + 1)),
      store8_same by lia.
    rewrite Hland. reflexivity.
  - rewrite (store8_other _ (a + 3)), (store8_other _ (a + 2)), store8_same by lia.
    apply Hland.
  - rewrite (store8_other _ (a + 3)), store8_same by lia. apply Hland.
  - rewrite store8_same. apply Hland.
Qed.

Lemma load32_byte (m : Mem) a i :
  0 <= i < 4 -> Z.land (Z.shiftr (load32 m a) (8 * i)) 255 = load8 m (a + i).
Proof.
  intros Hi. unfold load32.
  assert (Hb : forall x, load8 m x = Z.land (load8 m x) (Z.ones 8)).
  { intros x. unfold load8. rewrite <- Z.land_assoc. reflexivity. }
  assert (Hc : i = 0 \/ i = 1 \/ i = 2 \/ i = 3) by lia.
  change 255 with (Z.ones 8).
  destruct Hc as [->|[->|[->| ->]]];
    [rewrite Z.add_0_r | | | ];
    rewrite (Hb a), (Hb (a + 1)), (Hb (a + 2)), (Hb (a + 3));
    generalize (load8 m a) (load8 m (a + 1)) (load8 m (a + 2)) (load8 m (a + 3));
    intros b0 b1 b2 b3;
    change (8 * 0) with 0; change (8 * 1) with 8; change (8 * 2) with 16;
    change (8 * 3) with 24;
    apply Z.bits_inj'; intros n Hn;
    (destruct (Z.lt_ge_cases n 8); [|bits_by_cases]); bits_by_cases.
Qed.

Lemma load8_store32_load32 (m : Mem) a x :
  load8 (store32 m a (load32 m a)) x = load8 m x.
Proof.
  destruct (Z_lt_dec x a) as [Hlt|Hge].
  - unfold load8. rewrite store32_outside by lia. reflexivity.
  - destruct (Z_le_dec (a + 4) x) as [Hle|Hin].
    + unfold load8. rewrite store32_outside by lia. reflexivity.
    + replace x with (a + (x - a)) by lia.
      rewrite store32_byte, load32_byte by lia. reflexivity.
Qed.

Lemma load32_load8_ext (m m' : Mem) a :
  (forall x, load8 m' x = load8 m x) -> load32 m' a = load32 m a.
Proof. intros H. unfold load32. rewrite !H. reflexivity. Qed.

Lemma load8_store32_ext (m m' : Mem) a v x :
  (forall y, load8 m' y = load8 m y) -> load8 (store32 m' a v) x = load8 (store32 m a v) x.
Proof.
  intros H.
  destruct (Z_lt_dec x a) as [Hlt|Hge].
  - unfold load8 in *. rewrite !store32_outside by lia. apply H.
  - destruct (Z_le_dec (a + 4) x) as [Hle|Hin].
    + unfold load8 in *. rewrite !store32_outside by lia. apply H.
    + replace x with (a + (x - a)) by lia. rewrite !store32_byte by lia. reflexivity.
Qed.

Lemma shiftr_load64 (m : Mem) a : Z.shiftr (load64 m a) 32 = load32 m (a + 4).
Proof.
  unfold load64.
  pose proof (load32_range m a) as Ha.
  rewrite Z.shiftr_lor, Z.shiftr_shiftl_l by lia.
  rewrite Z.sub_diag, Z.shiftl_0_r.
  rewrite (Z.shiftr_div_pow2 (load32 m a)) by lia.
  rewrite Z.div_small by lia. apply Z.lor_0_l.
Qed.

Lemma store32_low (m : Mem) a v x :
  load8 (store32 m a (Z.land v (2 ^ 32 - 1))) x = load8 (store32 m a v) x.
Proof.
  destruct (Z_lt_dec x a) as [Hlt|Hge].
  - unfold load8. rewrite !store32_outside by lia. reflexivity.
  - destruct (Z_le_dec (a + 4) x) as [Hle|Hin].
    + unfold load8. rewrite !store32_outside by lia. reflexivity.
    + replace x with (a + (x - a)) by lia. rewrite !store32_byte by lia.
      change (2 ^ 32 - 1) with (Z.ones 32). change 255 with (Z.ones 8).
      apply Z.bits_inj'. intros n Hn.
      destruct (Z.lt_ge_cases n 8); [|bits_by_cases].
      rewrite !Z.land_spec, !Z.shiftr_spec, Z.land_spec by lia.
      rewrite (Z.testbit_ones_nonneg 32) by lia.
      destruct (Z.ltb_spec (n + 8 * (x - a)) 32); [|lia].
      rewrite andb_true_r. reflexivity.
Qed.

Lemma load8_store64_load64 (m : Mem) a x :
  load8 (store64 m a (load64 m a)) x = load8 m x.
Proof.
  unfold store64. rewrite shiftr_load64.
  assert (H1 : forall y, load8 (store32 m a (load64 m a)) y = load8 m y).
  { intros y. rewrite <- store32_low, load64_low. apply load8_store32_load32. }
  rewrite <- (load32_load8_ext m (store32 m a (load64 m a)) (a + 4) H1).
  rewrite load8_store32_load32. apply H1.
Qed.

Lemma foldl_preserves {A T : Type} (f : GCState -> A -> GCState) (g : GCState -> T) l :
  (forall s x, g (f s x) = g s) -> forall st, g (foldl f st l) = g st.
Proof.
  intros Hf. induction l as [|x l IH]; intros st; simpl; [reflexivity|].
  rewrite IH. apply Hf.
Qed.

Lemma MarkGCThingRoot_moves_nothing trc ref st a :
  moves_nothing trc -> load8 (gc_mem (MarkGCThingRoot trc ref st)) a = load8 (gc_mem st) a.
Proof.
  intros (_ & _ & Hg & _). unfold MarkGCThingRoot. cbn [gc_mem]. rewrite Hg.
  apply load8_store32_load32.
Qed.

Lemma MarkValueRoot_moves_nothing trc v st a :
  moves_nothing trc -> load8 (gc_mem (MarkValueRoot trc v st)) a = load8 (gc_mem st) a.
Proof.
  intros (_ & _ & _ & Hv). unfold MarkValueRoot. cbn [gc_mem]. rewrite Hv.
  apply load8_store64_load64.
Qed.

Lemma markSpills_moves_nothing trc sp a : moves_nothing trc ->
  forall regs spill st,
    load8 (gc_mem (markSpills trc sp regs spill st)) a = load8 (gc_mem st) a.
Proof.
  intros Hid. induction regs as [|r rs IH]; intros spill st; simpl; [reflexivity|].
  rewrite IH.
  destruct (Z.testbit (gcSpills sp) r); [apply MarkGCThingRoot_moves_nothing; exact Hid|].
  destruct (Z.testbit (valueSpills sp) r); [apply MarkValueRoot_moves_nothing; exact Hid|].
  reflexivity.
Qed.

Lemma markNunboxSlot_moves_nothing P hp trc it st tp st' :
  moves_nothing trc ->
  markNunboxSlot P hp trc it st tp = Some st' -> gc_mem st' = gc_mem st.
Proof.
  intros (_ & _ & _ & Hv). unfold markNunboxSlot. intros H.
  destruct (ReadAllocation P hp it st tp.1); cbn [mbind option_bind] in H; [|discriminate].
  destruct (ReadAllocation P hp it st tp.2); cbn [mbind option_bind] in H; [|discriminate].
  rewrite Hv in H.
  match type of H with context [decide ?X] => destruct (decide X) end; [|contradiction].
  injection H as <-. reflexivity.
Qed.

Lemma markSafepointRoots_moves_nothing P hp trc it ionScript st sp st1 a :
  moves_nothing trc ->
  markSafepointRoots P hp trc it ionScript st = Some (sp, st1) ->
  load8 (gc_mem st1) a = load8 (gc_mem st) a.
Proof.
  intros Hid. unfold markSafepointRoots. intros H.
  destruct (MarkFrameAndActualArguments P trc it st) as [st0|] eqn:H1;
    cbn [mbind option_bind] in H; [|discriminate].
  assert (E1 : load8 (gc_mem st0) a = load8 (gc_mem st) a).
  { unfold MarkFrameAndActualArguments in H1.
    destruct (jsFrame it) as [layout|]; cbn [mbind option_bind] in H1; [|discriminate].
    destruct (gc_stack st !! layout) as [h|]; cbn [mbind option_bind] in H1; [|discriminate].
    injection H1 as <-.
    apply (foldl_preserves _ (fun s => load8 (gc_mem s) a)).
    intros s x. apply MarkValueRoot_moves_nothing. exact Hid. }
  destruct (ionScripts hp !! ionScript) as [s|]; cbn [mbind option_bind] in H; [|discriminate].
  destruct (getSafepointIndex s (returnAddressToFp_ it)) as [sp0|];
    cbn [mbind option_bind] in H; [|discriminate].
  destruct (spillBase hp _ it) as [spill|]; cbn [mbind option_bind] in H; [|discriminate].
  injection H as <- <-.
  rewrite markSpills_moves_nothing by exact Hid.
  rewrite (foldl_preserves _ (fun s => load8 (gc_mem s) a))
    by (intros s0 x; apply MarkValueRoot_moves_nothing; exact Hid).
  rewrite (foldl_preserves _ (fun s => load8 (gc_mem s) a))
    by (intros s0 x; apply MarkGCThingRoot_moves_nothing; exact Hid).
  exact E1.
Qed.

(** X23.  A collection that moves nothing leaves the frame as it is: when
    the collector returns every object, script, cell and value it is given,
    marking an optimized frame changes no frame header and no byte of the
    stack; no payload of a torn value is written back. *)
Theorem MarkIonJSFrame_moves_nothing P hp trc it st st' :
  moves_nothing trc ->
  MarkIonJSFrame P hp trc it st = Some st' ->
  gc_stack st' = gc_stack st /\
  forall a, load8 (gc_mem st') a = load8 (gc_mem st) a.
Proof.
  intros Hid H.
  assert (Hstack : gc_stack st' = gc_stack st).
  { destruct (MarkIonJSFrame_stack P hp trc it st st' H) as (h & Hh & ->).
    destruct Hid as (Ho & Hs & _).
    assert (Htok : MarkCalleeToken trc (calleeToken h) = calleeToken h).
    { destruct (calleeToken h); simpl; rewrite ?Ho, ?Hs; reflexivity. }
    rewrite Htok. apply insert_id. rewrite Hh. destruct h; reflexivity. }
  split; [exact Hstack|]. intros a.
  unfold MarkIonJSFrame in H.
  destruct (MarkIonJSFrame_roots P hp trc it st) as [[sp st1]|] eqn:Hr;
    cbn [mbind option_bind fst snd] in H; [|discriminate].
  apply (forEachM_invariant (markNunboxSlot P hp trc it) gc_mem) in H;
    [|intros s0 x s'; apply markNunboxSlot_moves_nothing; exact Hid].
  rewrite H. clear H. unfold MarkIonJSFrame_roots in Hr.
  destruct (gc_stack st !! fp it) as [h|]; cbn [mbind option_bind] in Hr; [|discriminate].
  destruct (checkInvalidation hp _ it) as [[[|] out]|]; cbn [mbind option_bind] in Hr;
    [| |discriminate].
  - destruct out as [p|]; cbn [mbind option_bind] in Hr; [|discriminate].
    apply (markSafepointRoots_moves_nothing P hp trc it p _ sp st1 a Hid) in Hr. exact Hr.
  - destruct (ionScriptFromCalleeToken hp _ it) as [p|]; cbn [mbind option_bind] in Hr;
      [|discriminate].
    apply (markSafepointRoots_moves_nothing P hp trc it p _ sp st1 a Hid) in Hr. exact Hr.
Qed.

Lemma MarkIonJSFrame_moves_nothing_witness :
  gc_stack
    (default example_gcstate
       (MarkIonJSFrame example_platform example_heap_invalidated example_tracer_still
          (example_invalidated_iterator SequentialExecution) example_gcstate))
  = gc_stack example_gcstate /\
  forall a,
    load8 (gc_mem
             (default example_gcstate
                (MarkIonJSFrame example_platform example_heap_invalidated example_tracer_still
                   (example_invalidated_iterator SequentialExecution) example_gcstate))) a
    = load8 (gc_mem example_gcstate) a.
Proof.
  apply (MarkIonJSFrame_moves_nothing example_platform example_heap_invalidated
           example_tracer_still (example_invalidated_iterator SequentialExecution)
           example_gcstate).
  - repeat split.
  - destruct (MarkIonJSFrame example_platform example_heap_invalidated example_tracer_still
                (example_invalidated_iterator SequentialExecution) example_gcstate)
      as [st'|] eqn:E; [reflexivity|].
    vm_compute in E. discriminate.
Defined.

(** ** Reading and writing allocations of a snapshot *)

Lemma hasRegister_iff s reg : hasRegister s reg = true <-> is_Some (regLocation (machine_ s) reg).
Proof. unfold hasRegister. apply bool_decide_eq_true. Qed.

Lemma hasFloatRegister_iff s reg :
  hasFloatRegister s reg = true <-> is_Some (regLocation (machine_fpu s) reg).
Proof. unfold hasFloatRegister. apply bool_decide_eq_true. Qed.

(** X24.  [allocationReadable] is the guard of [allocationValue] for the
    allocations that live in registers: for a double in a floating-point
    register, a typed payload in a register and the four untyped
    combinations, an allocation that is reported readable is read without
    a crash, and one that needs no side effect is reported readable
    exactly when every register it names has a saved location. *)
Theorem allocationReadable_guards_registers V s fs needSideEffect alloc rm :
  readsRegisters alloc = true ->
  (allocationReadable s needSideEffect alloc rm = true ->
   is_Some (allocationValue V s fs alloc rm)) /\
  (allocationReadable s false alloc rm = true <->
   is_Some (allocationValue V s fs alloc rm)).
Proof.
  intros Hreg.
  assert (Hiff : allocationReadable s false alloc rm = true <->
                 is_Some (allocationValue V s fs alloc rm)).
  { destruct alloc as [| | |f|f|o|t r|t o|r r2|r o|o r|o o2| |]; try discriminate;
      cbn [allocationReadable allocationValue andb negb];
      unfold fromRegister, fromFloatRegister;
      rewrite ?andb_true_iff, ?hasRegister_iff, ?hasFloatRegister_iff.
    - destruct (regLocation (machine_fpu s) f); cbn; split; intros [x Hx];
        try discriminate; eexists; reflexivity.
    - destruct (regLocation (machine_ s) r); cbn.
      + split; intros _; [|eexists; reflexivity].
        destruct t; try discriminate; eexists; reflexivity.
      + split; intros [x Hx]; discriminate.
    - destruct (regLocation (machine_ s) r), (regLocation (machine_ s) r2); cbn;
        split; try (intros [[x Hx] [y Hy]]; discriminate);
        try (intros [x Hx]; discriminate); intros _;
        try split; eexists; reflexivity.
    - destruct (regLocation (machine_ s) r); cbn; split; intros [x Hx];
        try discriminate; eexists; reflexivity.
    - destruct (regLocation (machine_ s) r); cbn; split; intros [x Hx];
        try discriminate; eexists; reflexivity.
    - split; intros _; [eexists|]; reflexivity. }
  split; [|exact Hiff].
  intros H. apply Hiff. unfold allocationReadable in H |- *.
  destruct (needSideEffect && (Z.land rm RM_AlwaysDefault =? 0) && negb (hasInstructionResults s));
    [discriminate | exact H].
Qed.

Lemma allocationReadable_guards_registers_witness :
  (allocationReadable (example_snapshot []) true (UNTYPED_REG_STACK 3 16) RM_AlwaysDefault
     = true ->
   is_Some (allocationValue example_values (example_snapshot [])
              (example_framestate example_torn_mem) (UNTYPED_REG_STACK 3 16)
              RM_AlwaysDefault)) /\
  (allocationReadable (example_snapshot []) false (UNTYPED_REG_STACK 3 16) RM_AlwaysDefault
     = true <->
   is_Some (allocationValue example_values (example_snapshot [])
              (example_framestate example_torn_mem) (UNTYPED_REG_STACK 3 16)
              RM_AlwaysDefault)).
Proof.
  apply (allocationReadable_guards_registers example_values (example_snapshot [])
           (example_framestate example_torn_mem) true (UNTYPED_REG_STACK 3 16)
           RM_AlwaysDefault).
  reflexivity.
Defined.

(** X25.  What the collector writes back is what is read next, and only
    pointers are written back.  A constant, or the default constant of a
    recover instruction read by default, reads as the value written; a
    typed payload in a register or, for a string, a symbol or an object,
    in a stack slot, reads as the value of its type made from the low 32
    bits of the value written; and a write to the undefined or the null
    constant, to a double or a float32, to a stack slot typed as something
    else than a pointer, or to the result of a recover instruction is a
    crash. *)
Theorem writeAllocationValuePayload_then_read V s fs rm v :
  (forall index, (index < length (fs_constants fs))%nat ->
     exists fs',
       writeAllocationValuePayload s fs (CONSTANT index) v = Some fs' /\
       allocationValue V s fs' (CONSTANT index) rm = Some v /\
       forall index', Z.land rm RM_Normal = 0 ->
         writeAllocationValuePayload s fs (RI_WITH_DEFAULT_CST index' index) v = Some fs' /\
         allocationValue V s fs' (RI_WITH_DEFAULT_CST index' index) rm = Some v) /\
  (forall t reg2 a, regLocation (machine_ s) reg2 = Some a ->
     exists fs',
       writeAllocationValuePayload s fs (TYPED_REG t reg2) v = Some fs' /\
       allocationValue V s fs' (TYPED_REG t reg2) rm
         = FromTypedPayload V t (Z.land v (2 ^ 32 - 1))) /\
  (forall t stackOffset2, typeIsGCThing t = true ->
     exists fs',
       writeAllocationValuePayload s fs (TYPED_STACK t stackOffset2) v = Some fs' /\
       allocationValue V s fs' (TYPED_STACK t stackOffset2) rm
         = FromTypedPayload V t (Z.land v (2 ^ 32 - 1))) /\
  (forall alloc,
     match alloc with
     | CST_UNDEFINED | CST_NULL | DOUBLE_REG _ | FLOAT32_REG _ | FLOAT32_STACK _
     | RECOVER_INSTRUCTION _ => True
     | TYPED_STACK t _ => typeIsGCThing t = false
     | _ => False
     end ->
     writeAllocationValuePayload s fs alloc v = None).
Proof.
  assert (Hmask : Z.land (Z.land v (2 ^ 32 - 1)) (2 ^ 32 - 1) = Z.land v (2 ^ 32 - 1)).
  { rewrite <- Z.land_assoc, Z.land_diag. reflexivity. }
  split; [|split; [|split]].
  - intros index Hi. unfold writeAllocationValuePayload, set_constant.
    destruct (decide (index < length (fs_constants fs))%nat); [|contradiction].
    eexists. split; [reflexivity|]. cbn [allocationValue fs_constants].
    split; [apply list_lookup_insert_eq; exact Hi|].
    intros index' Hrm. split; [reflexivity|].
    rewrite Hrm. cbn [negb andb Z.eqb]. apply list_lookup_insert_eq. exact Hi.
  - intros t reg2 a Ha. unfold writeAllocationValuePayload, machine_write.
    rewrite Ha. cbn [mbind option_bind].
    eexists. split; [reflexivity|]. cbn [allocationValue]. unfold fromRegister.
    rewrite Ha. cbn [fmap option_fmap option_map mbind option_bind set_mem fs_mem].
    rewrite load32_store32_same, Hmask. reflexivity.
  - intros t o Ht. unfold writeAllocationValuePayload.
    destruct t; try discriminate;
      (eexists; split; [reflexivity|]); cbn [allocationValue FromTypedPayload];
      unfold fromStack, ReadFrameSlot, WriteFrameSlot; cbn [set_mem fs_mem];
      rewrite load32_store32_same, Hmask; reflexivity.
  - intros alloc Ha. destruct alloc; try contradiction; try reflexivity.
    destruct knownType; try discriminate; reflexivity.
Qed.

Lemma FromBailout_lookup (k total base r : Z) :
  0 <= r < total ->
  regLocation (map (fun i => (i, base + k * i)) (seqZ 0 total)) r = Some (base + k * r).
Proof.
  intros Hr. unfold regLocation.
  replace (seqZ 0 total) with (seqZ 0 r ++ [r] ++ seqZ (r + 1) (total - r - 1)).
  - rewrite map_app.
    assert (Hfind : forall l l',
              (forall x, x ∈ l -> x <> r) ->
              List.find (fun e : Z * Z => e.1 =? r)
                (map (fun i => (i, base + k * i)) l ++ l')
              = List.find (fun e : Z * Z => e.1 =? r) l').
    { induction l as [|x l IH]; intros l' Hl; [reflexivity|]. simpl.
      destruct (Z.eqb_spec x r) as [He|_]; [exfalso; apply (Hl x); [left | exact He]|].
      apply IH. intros y Hy. apply Hl. right. exact Hy. }
    rewrite Hfind.
    + simpl. rewrite Z.eqb_refl. reflexivity.
    + intros x Hx. apply elem_of_seqZ in Hx. lia.
  - symmetry. apply seqZ_split. exact Hr.
Qed.

(** X26.  During a bailout every register can be read: with the locations
    [MachineState::FromBailout] sets, the general register of code [r] is
    located [r] words above the start of the saved registers and the
    floating-point register of code [f] is located [f] doubles above the
    start of the saved floating-point registers, so that every allocation
    in registers of the register files that needs no side effect is
    reported readable. *)
Theorem FromBailout_all_readable Registers_Total FloatRegisters_Total regs fpregs s alloc rm :
  machine_ s = FromBailout_regs Registers_Total regs ->
  machine_fpu s = FromBailout_fpregs FloatRegisters_Total fpregs ->
  registersBelow Registers_Total FloatRegisters_Total alloc ->
  (forall r, 0 <= r < Registers_Total ->
     regLocation (machine_ s) r = Some (regs + 4 * r)) /\
  (forall f, 0 <= f < FloatRegisters_Total ->
     regLocation (machine_fpu s) f = Some (fpregs + 8 * f)) /\
  (readsRegisters alloc = true -> allocationReadable s false alloc rm = true).
Proof.
  intros Hm Hf Hbelow.
  assert (Hr : forall r, 0 <= r < Registers_Total ->
                 regLocation (machine_ s) r = Some (regs + 4 * r)).
  { intros r Hr. rewrite Hm. apply (FromBailout_lookup 4). exact Hr. }
  assert (Hfr : forall f, 0 <= f < FloatRegisters_Total ->
                  regLocation (machine_fpu s) f = Some (fpregs + 8 * f)).
  { intros f Hfr. rewrite Hf. apply (FromBailout_lookup 8). exact Hfr. }
  split; [exact Hr|]. split; [exact Hfr|].
  intros Hreg.
  destruct alloc; try discriminate; cbn [allocationReadable andb negb];
    cbn [registersBelow] in Hbelow;
    rewrite ?andb_true_iff, ?hasRegister_iff, ?hasFloatRegister_iff;
    try reflexivity;
    repeat split;
    first [ rewrite Hr by tauto | rewrite Hfr by tauto ]; eexists; reflexivity.
Qed.

Lemma FromBailout_all_readable_witness :
  (forall r, 0 <= r < 8 ->
     regLocation (FromBailout_regs 8 3000) r = Some (3000 + 4 * r)) /\
  (forall f, 0 <= f < 8 ->
     regLocation (FromBailout_fpregs 8 3100) f = Some (3100 + 8 * f)) /\
  (readsRegisters (UNTYPED_REG_REG 3 5) = true ->
   allocationReadable
     {| recover_ := []; numInstructionsRead := 1; numAllocationsRead := 0; fp_ := 2000;
        machine_ := FromBailout_regs 8 3000; machine_fpu := FromBailout_fpregs 8 3100;
        ionScript_ := 7000; instructionResults_ := None |}
     false (UNTYPED_REG_REG 3 5) RM_Normal = true).
Proof.
  apply (FromBailout_all_readable 8 8 3000 3100
           {| recover_ := []; numInstructionsRead := 1; numAllocationsRead := 0; fp_ := 2000;
              machine_ := FromBailout_regs 8 3000; machine_fpu := FromBailout_fpregs 8 3100;
              ionScript_ := 7000; instructionResults_ := None |}
           (UNTYPED_REG_REG 3 5) RM_Normal).
  - reflexivity.
  - reflexivity.
  - simpl. lia.
Defined.

(** ** Registered results *)

Lemma same_shape_refl r : same_shape r r.
Proof. repeat split. Qed.

Lemma same_shape_trans r1 r2 r3 : same_shape r1 r2 -> same_shape r2 r3 -> same_shape r1 r3.
Proof. intros (?&?&?) (?&?&?). repeat split; congruence. Qed.

Lemma storeInstructionResult_shape s v st st' key r :
  instructionResults_ s = Some key ->
  ionRecovery_ st !! key = Some r ->
  storeInstructionResult s v st = Some st' ->
  exists r', ionRecovery_ st' = <[key := r']> (ionRecovery_ st) /\ same_shape r r'.
Proof.
  intros Hk Hr. unfold storeInstructionResult. rewrite Hk. cbn [mbind option_bind].
  rewrite Hr. cbn [mbind option_bind]. intros H.
  destruct (results_ r) as [vec|] eqn:Hv; cbn [mbind option_bind] in H; [|discriminate].
  destruct (decide _); [|discriminate]. injection H as <-.
  eexists. split; [reflexivity|]. repeat split. cbn. rewrite Hv. cbn.
  rewrite length_insert. reflexivity.
Qed.

Lemma recoverLoop_shape key : forall n s st r b st',
  instructionResults_ s = Some key ->
  ionRecovery_ st !! key = Some r ->
  recoverLoop n s st = Some (b, st') ->
  exists r', ionRecovery_ st' = <[key := r']> (ionRecovery_ st) /\ same_shape r r'.
Proof.
  induction n as [|n IH]; intros s st r b st' Hk Hr H; simpl in H.
  - injection H as <- <-. exists r. split; [|apply same_shape_refl].
    symmetry. apply insert_id. exact Hr.
  - destruct (instruction s) as [i|]; cbn [mbind option_bind] in H; [|discriminate].
    destruct (isResumePoint i).
    + destruct (skipInstruction s) as [s1|] eqn:Hs; cbn [mbind option_bind] in H;
        [|discriminate].
      apply (IH s1 st r b st'); try assumption.
      unfold skipInstruction in Hs.
      destruct (instruction s); cbn [mbind option_bind] in Hs; [|discriminate].
      injection Hs as <-. exact Hk.
    + destruct (RInstruction_recover i s st) as [[b1 st1]|] eqn:H1;
        cbn [mbind option_bind] in H; [|discriminate].
      assert (S1 : exists r1, ionRecovery_ st1 = <[key := r1]> (ionRecovery_ st) /\
                              same_shape r r1).
      { unfold RInstruction_recover in H1. destruct i as [|no eval]; [discriminate|].
        rewrite Hk in H1. cbn [mbind option_bind] in H1. rewrite Hr in H1.
        cbn [mbind option_bind] in H1.
        destruct (results_ r) as [vec|]; cbn [mbind option_bind] in H1; [|discriminate].
        destruct (eval vec) as [v|].
        - destruct (storeInstructionResult s v st) as [st2|] eqn:H2;
            cbn [mbind option_bind] in H1; [|discriminate].
          injection H1 as <- <-.
          apply (storeInstructionResult_shape s v st st2 key r Hk Hr H2).
        - injection H1 as <- <-. exists r. split; [|apply same_shape_refl].
          symmetry. apply insert_id. exact Hr. }
      destruct S1 as (r1 & Hm1 & Hs1).
      destruct b1.
      * assert (Hr1 : ionRecovery_ st1 !! key = Some r1)
          by (rewrite Hm1; apply lookup_insert_eq).
        destruct (IH (nextInstruction s) st1 r1 b st' Hk Hr1 H) as (r2 & Hm2 & Hs2).
        exists r2. split; [|eapply same_shape_trans; eassumption].
        rewrite Hm2, Hm1. apply insert_insert_eq.
      * injection H as <- <-. exists r1. split; assumption.
Qed.

Lemma computeInstructionResults_shape V R s key st r0 b st' :
  ionRecovery_ st !! key = Some r0 ->
  computeInstructionResults V R s key st = Some (b, st') ->
  exists r',
    ionRecovery_ st' = <[key := r']> (ionRecovery_ st) /\
    frame_ r' = frame_ r0 /\
    (b = true -> initialized_ r' = true) /\
    (b = true -> initialized_ r0 = false -> numInstructions s <> 1%nat ->
     exists vec, results_ r' = Some vec /\ length vec = (numInstructions s - 1)%nat).
Proof.
  intros Hr. unfold computeInstructionResults. rewrite Hr. cbn [mbind option_bind].
  intros H.
  destruct (initialized_ r0) eqn:Hinit; cbn [negb] in H.
  { injection H as <- <-. exists r0. split; [symmetry; apply insert_id; exact Hr|].
    repeat split; auto. intros _ Hf. discriminate. }
  unfold RInstructionResults_init in H.
  destruct (Z.eqb_spec (Z.of_nat (numInstructions s) - 1) 0) as [H0|H0].
  { cbn [negb] in H. injection H as <- <-. eexists. split; [reflexivity|].
    cbn. repeat split. intros _ _ Hne. lia. }
  destruct (make_unique_ok R); cbn [negb] in H.
  2:{ injection H as <- <-. eexists. split; [reflexivity|]. cbn.
      repeat split; intros; discriminate. }
  destruct (growBy_ok R && (0 <? Z.of_nat (numInstructions s) - 1)) eqn:Hg; cbn [negb] in H.
  2:{ injection H as <- <-. eexists. split; [reflexivity|]. cbn.
      repeat split; intros; discriminate. }
  apply andb_true_iff in Hg as [_ Hpos]. apply Z.ltb_lt in Hpos.
  match type of H with
  | recoverLoop ?n ?s1 ?st1 = _ =>
      destruct (recoverLoop_shape key n s1 st1
                  {| results_ := Some (replicate (Z.to_nat (Z.of_nat (numInstructions s) - 1))
                                         (MagicValue_JS_ION_BAILOUT V));
                     frame_ := frame_ r0; initialized_ := true |} b st')
        as (r' & Hm & Hf & Hi & Hl);
        [reflexivity | cbn; apply lookup_insert_eq | exact H |]
  end.
  exists r'. cbn in Hm. rewrite insert_insert_eq in Hm.
  split; [exact Hm|]. split; [exact Hf|]. split; [intros _; exact Hi|].
  intros _ _ _. cbn in Hl.
  destruct (results_ r') as [vec|]; [|discriminate].
  exists vec. split; [reflexivity|]. cbn in Hl. injection Hl as Hl.
  rewrite Hl, length_replicate. lia.
Qed.

(** X27.  Results that have been computed are complete: when
    [computeInstructionResults] returns true on results that were not yet
    initialized, the results registered for the frame are initialized, are
    still those of the same frame and, unless the table holds the one
    resume point only, hold one slot for every instruction but the last; no
    results of another frame have changed. *)
Theorem computeInstructionResults_complete V R s key st r0 st' :
  ionRecovery_ st !! key = Some r0 ->
  initialized_ r0 = false ->
  computeInstructionResults V R s key st = Some (true, st') ->
  exists r',
    ionRecovery_ st' = <[key := r']> (ionRecovery_ st) /\
    frame_ r' = frame_ r0 /\
    initialized_ r' = true /\
    (numInstructions s <> 1%nat ->
     exists vec, results_ r' = Some vec /\ length vec = (numInstructions s - 1)%nat).
Proof.
  intros Hr Hinit H.
  destruct (computeInstructionResults_shape V R s key st r0 true st' Hr H)
    as (r' & Hm & Hf & Hi & Hl).
  exists r'. repeat split; auto.
Qed.

Lemma computeInstructionResults_complete_witness :
  exists r',
    ionRecovery_
      (default example_recover_state
         (snd <$> computeInstructionResults example_values example_resources
                    (example_snapshot example_recover_table) 2000
                    (set_ionRecovery example_recover_state
                       {[ 2000 := {| results_ := None; frame_ := 2000;
                                     initialized_ := false |} ]})))
    = <[2000 := r']>
        (ionRecovery_
           (set_ionRecovery example_recover_state
              {[ 2000 := {| results_ := None; frame_ := 2000; initialized_ := false |} ]})) /\
    frame_ r' = 2000 /\
    initialized_ r' = true /\
    (numInstructions (example_snapshot example_recover_table) <> 1%nat ->
     exists vec, results_ r' = Some vec /\
                 length vec = (numInstructions (example_snapshot example_recover_table) - 1)%nat).
Proof.
  apply (computeInstructionResults_complete example_values example_resources
           (example_snapshot example_recover_table) 2000
           (set_ionRecovery example_recover_state
              {[ 2000 := {| results_ := None; frame_ := 2000; initialized_ := false |} ]})
           {| results_ := None; frame_ := 2000; initialized_ := false |}).
  - reflexivity.
  - reflexivity.
  - vm_compute. reflexivity.
Defined.

(** X28.  A failed request for results leaves nothing behind: when no
    results are registered for the frame and [initInstructionResults]
    returns false, because the invalidation, the registration, an
    allocation or a recover instruction failed, the reader has been given
    no results and the results registered on the activation are those that
    were registered before, none of them for this frame. *)
Theorem initInstructionResults_failure_registers_nothing V R s fallback st s' st' :
  maybeIonFrameRecovery st (fallback_jsFrame fallback) = None ->
  initInstructionResults V R s fallback st = Some (false, s', st') ->
  s' = s /\
  ionRecovery_ st' = ionRecovery_ st /\
  maybeIonFrameRecovery st' (fallback_jsFrame fallback) = None.
Proof.
  intros Hnone H.
  assert (Hgoal : s' = s /\ ionRecovery_ st' = ionRecovery_ st).
  { unfold initInstructionResults in H.
    destruct (decide (numInstructions s = 1%nat)); [discriminate|].
    cbv zeta in H. rewrite Hnone in H.
    destruct (bool_decide (consequence fallback = Fallback_Invalidate) && negb (invalidate_ok R)).
    { injection H as <- <-.
      destruct (bool_decide (consequence fallback = Fallback_Invalidate)); split; reflexivity. }
    unfold registerIonFrameRecovery in H.
    destruct (registerIonFrameRecovery_ok R).
    2:{ injection H as <- <-.
        destruct (bool_decide (consequence fallback = Fallback_Invalidate)); split; reflexivity. }
    cbn [frame_] in H.
    match type of H with
    | context [computeInstructionResults V R ?sn ?k ?st1] =>
        destruct (computeInstructionResults V R sn k st1) as [[b st2]|] eqn:Hc;
          cbn [mbind option_bind] in H; [|discriminate];
        destruct (computeInstructionResults_shape V R sn k st1
                    {| results_ := None; frame_ := fallback_jsFrame fallback;
                       initialized_ := false |} b st2) as (r' & Hm & _);
          [cbn; apply lookup_insert_eq | exact Hc |]
    end.
    destruct b; [discriminate|]. injection H as <- <-.
    split; [reflexivity|]. unfold removeIonFrameRecovery. cbn [set_ionRecovery ionRecovery_].
    rewrite Hm. cbn [set_ionRecovery ionRecovery_].
    rewrite insert_insert_eq.
    assert (Hmap : forall m : gmap Z RInstructionResults,
              m !! fallback_jsFrame fallback = None ->
              delete (fallback_jsFrame fallback) (<[fallback_jsFrame fallback := r']> m) = m).
    { intros m Hm0. apply delete_insert_id. exact Hm0. }
    destruct (bool_decide (consequence fallback = Fallback_Invalidate));
      cbn [ionRecovery_]; apply Hmap; exact Hnone. }
  destruct Hgoal as [Hs Hm]. split; [exact Hs|]. split; [exact Hm|].
  unfold maybeIonFrameRecovery in *. rewrite Hm. exact Hnone.
Qed.

Lemma initInstructionResults_failure_registers_nothing_witness :
  example_snapshot [RRecover 0 (fun _ => None); RResumePoint 9 4]
    = example_snapshot [RRecover 0 (fun _ => None); RResumePoint 9 4] /\
  ionRecovery_
    (default example_recover_state
       (snd <$> initInstructionResults example_values example_resources
                  (example_snapshot [RRecover 0 (fun _ => None); RResumePoint 9 4])
                  (example_fallback [RRecover 0 (fun _ => None); RResumePoint 9 4]
                     Fallback_Invalidate)
                  example_recover_state))
    = ionRecovery_ example_recover_state /\
  maybeIonFrameRecovery
    (default example_recover_state
       (snd <$> initInstructionResults example_values example_resources
                  (example_snapshot [RRecover 0 (fun _ => None); RResumePoint 9 4])
                  (example_fallback [RRecover 0 (fun _ => None); RResumePoint 9 4]
                     Fallback_Invalidate)
                  example_recover_state))
    2000 = None.
Proof.
  apply (initInstructionResults_failure_registers_nothing example_values example_resources
           (example_snapshot [RRecover 0 (fun _ => None); RResumePoint 9 4])
           (example_fallback [RRecover 0 (fun _ => None); RResumePoint 9 4]
              Fallback_Invalidate)
           example_recover_state).
  - reflexivity.
  - vm_compute. reflexivity.
Defined.

(** ** Aligning the area of spilled doubles *)

(** X29.  [alignDoubleSpillWithOffset] rounds down to the alignment: for an
    alignment that is a power of two below 2^32, the result is a multiple
    of the alignment, is not above the 32-bit difference of the pointer and
    the offset, and is less than one alignment below it; a difference that
    is aligned is returned as it is. *)
Theorem alignDoubleSpillWithOffset_rounds_down ABIStackAlignment k pointer offset :
  0 <= k < 32 ->
  ABIStackAlignment = 2 ^ k ->
  let address := (pointer - offset) mod 2 ^ 32 in
  let aligned := alignDoubleSpillWithOffset ABIStackAlignment pointer offset in
  aligned mod ABIStackAlignment = 0 /\
  aligned <= address < aligned + ABIStackAlignment /\
  0 <= aligned < 2 ^ 32 /\
  (address mod ABIStackAlignment = 0 -> aligned = address).
Proof.
  intros Hk -> address aligned.
  assert (Hx : 0 <= address < 2 ^ 32) by (apply Z.mod_pos_bound; lia).
  assert (Hpow : 0 < 2 ^ k) by (apply Z.pow_pos_nonneg; lia).
  assert (Hal : aligned = address - address mod 2 ^ k).
  { unfold aligned, alignDoubleSpillWithOffset. fold address.
    rewrite <- (Z.land_ones (Z.lnot (2 ^ k - 1)) 32) by lia.
    rewrite (Z.land_comm (Z.lnot (2 ^ k - 1)) (Z.ones 32)), Z.land_assoc.
    rewrite (Z.land_ones address 32) by lia.
    rewrite (Z.mod_small address) by lia.
    replace (2 ^ k - 1) with (Z.ones k) by (rewrite Z.ones_equiv; lia).
    rewrite <- Z.ldiff_land, Z.ldiff_ones_r by lia.
    rewrite Z.shiftl_mul_pow2, Z.shiftr_div_pow2 by lia.
    pose proof (Z.div_mod address (2 ^ k)). lia. }
  pose proof (Z.mod_pos_bound address (2 ^ k) Hpow) as Hm.
  pose proof (Z.mod_le address (2 ^ k) ltac:(lia) Hpow) as Hle.
  rewrite Hal. repeat split; try lia.
  - pose proof (Z.div_mod address (2 ^ k) ltac:(lia)) as Hd.
    replace (address - address mod 2 ^ k) with (address / 2 ^ k * 2 ^ k) by lia.
    apply Z.mod_mul. lia.
Qed.

Lemma alignDoubleSpillWithOffset_rounds_down_witness :
  alignDoubleSpillWithOffset 8 1006 (-4) mod 8 = 0 /\
  alignDoubleSpillWithOffset 8 1006 (-4) <= (1006 - -4) mod 2 ^ 32
    < alignDoubleSpillWithOffset 8 1006 (-4) + 8 /\
  0 <= alignDoubleSpillWithOffset 8 1006 (-4) < 2 ^ 32 /\
  ((1006 - -4) mod 2 ^ 32 mod 8 = 0 ->
   alignDoubleSpillWithOffset 8 1006 (-4) = (1006 - -4) mod 2 ^ 32).
Proof.
  apply (alignDoubleSpillWithOffset_rounds_down 8 3 1006 (-4)); [lia | reflexivity].
Defined.
